(** * homebridge-dahua-alerts: the event-stream connection engine

    A shallow embedding of [src/dahua.ts] (class [DahuaEvents]) and the
    properties of its digest handshake, its event record parser and its
    reconnect loop.

    Conventions of the embedding.
    - A JavaScript string is a [string]: a sequence of code units below
      256.  The camera protocol is ASCII; text outside Latin-1 is not
      representable here.
    - A JavaScript number that the code only ever uses as a non-negative
      integer (the request counter, an HTTP status, a delay in ms) is an
      [N]; doubles are exact on integers below 2^53, a range these
      quantities do not leave.
    - [this.HEADERS] is one mutable object shared by reference with the
      request configuration; it lives in a heap of header objects.
    - Callbacks (promise continuations, stream listeners, timers) are
      functions from world to world; the environment chooses which one
      runs next through the inputs of [step]. *)

From Stdlib Require Import ZArith NArith QArith Ascii String List Lia.
From stdpp Require Import base option list strings gmap.

Local Open Scope Z_scope.
Local Open Scope nat_scope.

(** ** JavaScript string primitives used by the source *)

Module JS.

(** [s.substr(n)] with one argument: the suffix from position [n];
    empty when [n] is past the end. *)
Fixpoint substr (n : nat) (s : string) : string :=
  match n, s with
  | O, _ => s
  | S n', String _ s' => substr n' s'
  | S _, EmptyString => ""
  end.

(** [s.slice(-k)]: the last [k] code units, the whole string when it is
    shorter. *)
Definition slice_last (k : nat) (s : string) : string :=
  substr (String.length s - k) s.

(** [s.includes(c)] for a one-character needle. *)
Fixpoint includes (c : ascii) (s : string) : bool :=
  match s with
  | EmptyString => false
  | String a s' => if Ascii.eqb a c then true else includes c s'
  end.

(** [s.split(c)] for a one-character separator.  The result is never
    empty: [''.split(c)] is [['']]. *)
Fixpoint split (sep : ascii) (s : string) : list string :=
  match s with
  | EmptyString => [""]
  | String a s' =>
      if Ascii.eqb a sep then "" :: split sep s'
      else match split sep s' with
           | h :: t => String a h :: t
           | [] => [String a ""]
           end
  end.

(** [s.replace(/c/g, '')]: every occurrence of [c] removed. *)
Fixpoint remove_all (c : ascii) (s : string) : string :=
  match s with
  | EmptyString => ""
  | String a s' =>
      if Ascii.eqb a c then remove_all c s' else String a (remove_all c s')
  end.

(** [arr.join(sep)]. *)
Fixpoint join (sep : string) (l : list string) : string :=
  match l with
  | [] => ""
  | [x] => x
  | x :: rest => x +:+ sep +:+ join sep rest
  end.

(** The regular expression class [\s] (and [StrWhiteSpaceChar] of
    [Number]) restricted to Latin-1: TAB, LF, VT, FF, CR, SP, NBSP. *)
Definition is_space (c : ascii) : bool :=
  match nat_of_ascii c with
  | 9 | 10 | 11 | 12 | 13 | 32 | 160 => true
  | _ => false
  end.

(** [s.split(/\s*,\s*/)].  The match needs a comma, so it is never
    empty; it starts at the first position from which only white space
    separates us from a comma and swallows the white space after it.
    [cur] is the piece read so far, [ws] the run of white space just
    read (it belongs to the piece unless a comma follows); [after] says
    that a separator was just matched and its trailing white space is
    being skipped. *)
Fixpoint split_commas_go (s cur ws : string) (after : bool) : list string :=
  match s with
  | EmptyString => [cur +:+ ws]
  | String a s' =>
      if Ascii.eqb a ","%char then cur :: split_commas_go s' "" "" true
      else if is_space a then
        if after then split_commas_go s' cur ws true
        else split_commas_go s' cur (ws +:+ String a "") false
      else split_commas_go s' (cur +:+ ws +:+ String a "") "" false
  end.

Definition split_commas (s : string) : list string :=
  split_commas_go s "" "" false.

(** [arr[i]]: [None] stands for [undefined]. *)
Definition index {A} (l : list A) (i : nat) : option A := l !! i.

End JS.

(** ** JavaScript numbers

    [Number(str)] yields a double.  The model keeps the mathematical value
    of the literal, without rounding and without overflow.  That value is
    the code's double whenever it is a double, in particular for every
    integer up to 2^53 in magnitude, which covers every channel index.
    Beyond that range the two differ: [Number('9007199254740993')] is
    9007199254740992 and [Number('1e400')] is [Infinity] in the code, and
    a statement about the number that is read holds of the code within
    the range only.  [-0] is identified with [0]. *)

Inductive JSNumber :=
| NaN
| Infinity (negative : bool)
| JInt (z : Z)
| JFrac (q : Q).

Module Num.

Definition digit_val (base : N) (c : ascii) : option N :=
  let n := N_of_ascii c in
  let v :=
    if ((48 <=? n) && (n <=? 57))%N then Some (n - 48)%N
    else if ((97 <=? n) && (n <=? 102))%N then Some (n - 87)%N
    else if ((65 <=? n) && (n <=? 70))%N then Some (n - 55)%N
    else None in
  match v with
  | Some d => if (d <? base)%N then Some d else None
  | None => None
  end.

(** Reads the longest run of digits of the base: its value, how many
    digits were read, and what follows. *)
Fixpoint digits (base : N) (s : string) (acc : N) (len : nat)
  : N * nat * string :=
  match s with
  | EmptyString => (acc, len, s)
  | String c s' =>
      match digit_val base c with
      | Some d => digits base s' (acc * base + d)%N (S len)
      | None => (acc, len, s)
      end
  end.

Fixpoint trim_start (s : string) : string :=
  match s with
  | String c s' => if JS.is_space c then trim_start s' else s
  | EmptyString => s
  end.

Definition trim (s : string) : string :=
  String.rev (trim_start (String.rev (trim_start s))).

Definition of_rational (q : Q) : JSNumber :=
  let r := Qred q in
  if (Zpos (Qden r) =? 1)%Z then JInt (Qnum r) else JFrac r.

(** [m * 10^e] as a number. *)
Definition scale (m : N) (e : Z) : JSNumber :=
  if (0 <=? e)%Z then JInt (Z.of_N m * 10 ^ e)
  else of_rational (Z.of_N m # Z.to_pos (10 ^ (- e))).

Definition negate (x : JSNumber) : JSNumber :=
  match x with
  | NaN => NaN
  | Infinity b => Infinity (negb b)
  | JInt z => JInt (- z)
  | JFrac q => JFrac (Qopp q)
  end.

(** [ExponentPart] (optional): [e] or [E], an optional sign, digits.
    Returns the exponent when the rest of the input is consumed. *)
Definition exponent_part (s : string) : option Z :=
  match s with
  | EmptyString => Some 0%Z
  | String c s' =>
      if Ascii.eqb c "e"%char || Ascii.eqb c "E"%char then
        let '(neg, s'') :=
          match s' with
          | String "+"%char r => (false, r)
          | String "-"%char r => (true, r)
          | _ => (false, s')
          end in
        match digits 10 s'' 0%N 0 with
        | (v, S _, EmptyString) =>
            Some (if neg then (- Z.of_N v)%Z else Z.of_N v)
        | _ => None
        end
      else None
  end.

(** [StrUnsignedDecimalLiteral]. *)
Definition unsigned_decimal (s : string) : JSNumber :=
  if String.eqb s "Infinity" then Infinity false
  else
    let '(ip, ilen, r) := digits 10 s 0%N 0 in
    match r with
    | String "."%char r' =>
        let '(fp, flen, r'') := digits 10 r' 0%N 0 in
        match ilen, flen with
        | O, O => NaN
        | _, _ =>
            match exponent_part r'' with
            | Some e =>
                scale (ip * 10 ^ N.of_nat flen + fp)%N (e - Z.of_nat flen)
            | None => NaN
            end
        end
    | _ =>
        match ilen with
        | O => NaN
        | S _ =>
            match exponent_part r with
            | Some e => scale ip e
            | None => NaN
            end
        end
    end.

(** [NonDecimalIntegerLiteral]: after the two-character prefix, at
    least one digit of the base and nothing else. *)
Definition non_decimal (base : N) (s : string) : JSNumber :=
  match digits base s 0%N 0 with
  | (v, S _, EmptyString) => JInt (Z.of_N v)
  | _ => NaN
  end.

(** [Number(s)] on a string: [StringToNumber]. *)
Definition Number (s : string) : JSNumber :=
  match trim s with
  | EmptyString => JInt 0
  | String "0"%char (String p r) as t =>
      if Ascii.eqb p "x"%char || Ascii.eqb p "X"%char then non_decimal 16 r
      else if Ascii.eqb p "o"%char || Ascii.eqb p "O"%char then non_decimal 8 r
      else if Ascii.eqb p "b"%char || Ascii.eqb p "B"%char then non_decimal 2 r
      else unsigned_decimal t
  | String "+"%char r => unsigned_decimal r
  | String "-"%char r => negate (unsigned_decimal r)
  | t => unsigned_decimal t
  end.

(** Decimal digits of a non-negative integer, most significant first:
    [Number::toString] on an integer below 10^21. *)
Definition digit_char (d : N) : ascii := ascii_of_N (48 + d).

Fixpoint toString_go (fuel : nat) (n : N) (acc : string) : string :=
  let acc' := String (digit_char (n mod 10)) acc in
  match fuel with
  | O => acc'
  | S f => if (n <? 10)%N then acc' else toString_go f (n / 10) acc'
  end.

Definition toString (n : N) : string :=
  toString_go (N.to_nat (N.log2 n)) n "".

End Num.

(** ** Bytes, hexadecimal and UTF-8 *)

(** The double quote, code 34. *)
Definition dquote : ascii := Ascii false true false false false true false false.

(** The line feed, code 10. *)
Definition LF : ascii := "010"%char.

Module Hex.

Definition nibble (d : Z) : ascii :=
  ascii_of_N (Z.to_N (if (d <? 10)%Z then 48 + d else 87 + d)%Z).

(** Two lowercase hexadecimal digits of a byte. *)
Definition of_byte (b : Z) : string :=
  String (nibble (Z.shiftr b 4)) (String (nibble (Z.land b 15)) "").

(** [buf.toString('hex')]. *)
Definition of_bytes (bs : list Z) : string :=
  foldr (fun b acc => of_byte b +:+ acc) "" bs.

(** The UTF-8 encoding of a string of code units below 256, which is
    what [hash.update(str)] feeds to the hash. *)
Definition utf8_unit (c : ascii) : list Z :=
  let n := Z.of_N (N_of_ascii c) in
  if (n <? 128)%Z then [n]
  else [Z.lor 192 (Z.shiftr n 6); Z.lor 128 (Z.land n 63)].

Fixpoint utf8 (s : string) : list Z :=
  match s with
  | EmptyString => []
  | String c s' => utf8_unit c ++ utf8 s'
  end.

End Hex.

(** ** MD5 (RFC 1321), the algorithm behind [crypto.createHash('md5')] *)

Module MD5.

Definition w32 (x : Z) : Z := (x mod 2 ^ 32)%Z.

Definition rotl (x s : Z) : Z :=
  w32 (Z.lor (Z.shiftl x s) (Z.shiftr x (32 - s))).

Definition not32 (x : Z) : Z := Z.lxor x 4294967295.

Definition F (x y z : Z) : Z := Z.lor (Z.land x y) (Z.land (not32 x) z).
Definition G (x y z : Z) : Z := Z.lor (Z.land x z) (Z.land y (not32 z)).
Definition H (x y z : Z) : Z := Z.lxor (Z.lxor x y) z.
Definition I (x y z : Z) : Z := Z.lxor y (Z.lor x (not32 z)).

(** The per-round shift amounts. *)
Definition S_table : list Z :=
  [ 7; 12; 17; 22; 7; 12; 17; 22; 7; 12; 17; 22; 7; 12; 17; 22;
    5; 9; 14; 20; 5; 9; 14; 20; 5; 9; 14; 20; 5; 9; 14; 20;
    4; 11; 16; 23; 4; 11; 16; 23; 4; 11; 16; 23; 4; 11; 16; 23;
    6; 10; 15; 21; 6; 10; 15; 21; 6; 10; 15; 21; 6; 10; 15; 21 ]%Z.

(** [T i = floor (2^32 * abs (sin (i + 1)))]. *)
Definition T_table : list Z :=
  [ 0xd76aa478; 0xe8c7b756; 0x242070db; 0xc1bdceee;
    0xf57c0faf; 0x4787c62a; 0xa8304613; 0xfd469501;
    0x698098d8; 0x8b44f7af; 0xffff5bb1; 0x895cd7be;
    0x6b901122; 0xfd987193; 0xa679438e; 0x49b40821;
    0xf61e2562; 0xc040b340; 0x265e5a51; 0xe9b6c7aa;
    0xd62f105d; 0x02441453; 0xd8a1e681; 0xe7d3fbc8;
    0x21e1cde6; 0xc33707d6; 0xf4d50d87; 0x455a14ed;
    0xa9e3e905; 0xfcefa3f8; 0x676f02d9; 0x8d2a4c8a;
    0xfffa3942; 0x8771f681; 0x6d9d6122; 0xfde5380c;
    0xa4beea44; 0x4bdecfa9; 0xf6bb4b60; 0xbebfbc70;
    0x289b7ec6; 0xeaa127fa; 0xd4ef3085; 0x04881d05;
    0xd9d4d039; 0xe6db99e5; 0x1fa27cf8; 0xc4ac5665;
    0xf4292244; 0x432aff97; 0xab9423a7; 0xfc93a039;
    0x655b59c3; 0x8f0ccc92; 0xffeff47d; 0x85845dd1;
    0x6fa87e4f; 0xfe2ce6e0; 0xa3014314; 0x4e0811a1;
    0xf7537e82; 0xbd3af235; 0x2ad7d2bb; 0xeb86d391 ]%Z.

Definition nthZ (l : list Z) (i : nat) : Z := nth i l 0%Z.

Record regs := Regs { rA : Z; rB : Z; rC : Z; rD : Z }.

Definition init : regs :=
  Regs 0x67452301 0xefcdab89 0x98badcfe 0x10325476.

(** Operation [i] (0..63) on the 16-word block [M]. *)
Definition op (M : list Z) (r : regs) (i : nat) : regs :=
  let '(Regs a b c d) := r in
  let '(f, g) :=
    if i <? 16 then (F b c d, i)
    else if i <? 32 then (G b c d, (5 * i + 1) mod 16)
    else if i <? 48 then (H b c d, (3 * i + 5) mod 16)
    else (I b c d, (7 * i) mod 16) in
  let x := w32 (a + f + nthZ T_table i + nthZ M g) in
  Regs d (w32 (b + rotl x (nthZ S_table i))) b c.

Definition block (r : regs) (M : list Z) : regs :=
  let r' := fold_left (op M) (seq 0 64) r in
  Regs (w32 (rA r + rA r')) (w32 (rB r + rB r'))
       (w32 (rC r + rC r')) (w32 (rD r + rD r')).

(** Little-endian bytes of a word, and back. *)
Definition le_bytes (n : nat) (x : Z) : list Z :=
  map (fun i => Z.land (Z.shiftr x (8 * Z.of_nat i)) 255) (seq 0 n).

Fixpoint le_words (bs : list Z) : list Z :=
  match bs with
  | b0 :: b1 :: b2 :: b3 :: rest =>
      (b0 + Z.shiftl b1 8 + Z.shiftl b2 16 + Z.shiftl b3 24)%Z :: le_words rest
  | _ => []
  end.

(** Padding: a 1 bit, zeros up to 56 mod 64, the bit length on 64 bits. *)
Definition pad (msg : list Z) : list Z :=
  let len := length msg in
  let zeros := (55 + 64 - len mod 64) mod 64 in
  msg ++ 128%Z :: repeat 0%Z zeros
      ++ le_bytes 8 ((8 * Z.of_nat len) mod 2 ^ 64)%Z.

Fixpoint blocks (fuel : nat) (r : regs) (ws : list Z) : regs :=
  match fuel with
  | O => r
  | S f => blocks f (block r (firstn 16 ws)) (skipn 16 ws)
  end.

Definition digest (msg : list Z) : list Z :=
  let ws := le_words (pad msg) in
  let r := blocks (length ws / 16) init ws in
  le_bytes 4 (rA r) ++ le_bytes 4 (rB r) ++ le_bytes 4 (rC r) ++ le_bytes 4 (rD r).

End MD5.

(** [crypto.createHash('md5').update(str).digest('hex')]. *)
Definition md5 (str : string) : string :=
  Hex.of_bytes (MD5.digest (Hex.utf8 str)).

Arguments md5 : simpl never.

(** ** More of the JavaScript runtime: exceptions, templates, JSON *)

(** The only exception the source can raise is the [TypeError] of reading
    a property of [undefined]; the wording of its message is the
    engine's. *)
Inductive JSException :=
| TypeError (msg : string).

Definition exception_toString (e : JSException) : string :=
  match e with TypeError msg => "TypeError: " +:+ msg end.

Definition reading_of_undefined (prop : string) : JSException :=
  TypeError ("Cannot read properties of undefined (reading '" +:+ prop +:+ "')").

(** A possibly [undefined] string inside a template literal. *)
Definition template_opt (o : option string) : string :=
  match o with Some s => s | None => "undefined" end.

Module JSON.

Definition escape (c : ascii) : string :=
  let n := Z.of_N (N_of_ascii c) in
  if Ascii.eqb c dquote then String "\"%char (String dquote "")
  else if Ascii.eqb c "\"%char then "\\"
  else if (n =? 8)%Z then "\b"
  else if (n =? 12)%Z then "\f"
  else if (n =? 10)%Z then "\n"
  else if (n =? 13)%Z then "\r"
  else if (n =? 9)%Z then "\t"
  else if (n <? 32)%Z then "\u00" +:+ Hex.of_byte n
  else String c "".

Fixpoint escape_all (s : string) : string :=
  match s with
  | EmptyString => ""
  | String c s' => escape c +:+ escape_all s'
  end.

(** [JSON.stringify] of a string. *)
Definition of_string (s : string) : string :=
  String dquote (escape_all s) +:+ String dquote "".

(** [JSON.stringify] of a non-negative integer. *)
Definition of_number (n : N) : string := Num.toString n.

(** [JSON.stringify] of an object whose values are strings, in the
    order of its properties. *)
Definition of_object (o : list (string * string)) : string :=
  "{" +:+ JS.join "," (map (fun kv => of_string kv.1 +:+ ":" +:+ of_string kv.2) o)
      +:+ "}".

End JSON.

(** [ms / 1000] inside a template literal: the quotient, then the
    thousandths without trailing zeros when there are any (exact below
    10^15 ms). *)
Definition seconds_toString (ms : N) : string :=
  let q := (ms / 1000)%N in
  let r := (ms mod 1000)%N in
  if (r =? 0)%N then Num.toString q
  else
    let d2 := (r / 100)%N in
    let d1 := (r / 10 mod 10)%N in
    let d0 := (r mod 10)%N in
    let frac :=
      if (d0 =? 0)%N then
        if (d1 =? 0)%N then [d2] else [d2; d1]
      else [d2; d1; d0] in
    Num.toString q +:+ "."
      +:+ foldr (fun d acc => String (Num.digit_char d) acc) "" frac.

(** ** The types of dahua.ts and of the axios values it touches *)

Record DahuaError := { error : string; errorDetails : string }.

(** The object [parseEventData] returns; also the three variables it
    assigns while it reads. *)
Module Parsed.
Record t := mk { action : string; index : JSNumber; eventType : string }.
End Parsed.

Module DahuaAlarm.
Record t := mk
  { eventType : string; action : string; index : JSNumber; host : string }.
End DahuaAlarm.

Record AxiosBasicCredentials := { username : string; password : string }.

Record Agent := {
  secure : bool;
  keepAlive : bool;
  keepAliveMsecs : N;
  maxSockets : N;
  maxFreeSockets : N;
  rejectUnauthorized : option bool;
  minVersion : option string
}.

(** A reference to a headers object in the heap. *)
Definition loc := nat.

Record AxiosRequestConfig := {
  url : string;
  httpsAgent : Agent;
  httpAgent : Agent;
  auth : option AxiosBasicCredentials;
  headers : loc;
  method : string;
  responseType : string
}.

(** [res] of the fulfilled promise, [err.response] of the rejected one.
    [data_statusMessage] is [data.statusMessage]: with
    [responseType: 'stream'] the data is the incoming message. *)
Record AxiosResponse := {
  status : N;
  statusText : string;
  response_headers : list (string * string);
  data_statusMessage : option string
}.

Record AxiosError := {
  response : option AxiosResponse;
  request : bool;
  message : string
}.

(** [obj[key]] on the response headers. *)
Fixpoint header_lookup (key : string) (o : list (string * string)) : option string :=
  match o with
  | [] => None
  | (k, v) :: rest => if String.eqb k key then Some v else header_lookup key rest
  end.

(** What [eventEmitter.emit(name, payload)] was called with. *)
Inductive Payload :=
| PText (s : string)
| PAlarm (a : DahuaAlarm.t)
| PError (e : DahuaError).

Record Emission := { name : string; payload : Payload }.

Definition ALARM_EVENT_NAME : string := "alarm".
Definition DEBUG_EVENT_NAME : string := "alarm_payload".
Definition ERROR_EVENT_NAME : string := "error".
Definition DATA_EVENT_NAME : string := "data".
Definition RECONNECTING_EVENT_NAME : string := "reconnecting".

Definition RECONNECT_INTERNAL_MS : N := 10000.

(** The fields of a [DahuaEvents] instance that never change once the
    constructor has run; [HEADERS] is the address of the headers object,
    whose content does change. *)
Record DahuaEvents := {
  host : string;
  eventsWatchUri : string;
  HEADERS : loc
}.

(** ** The world a [DahuaEvents] instance acts on *)

(** A call of [Axios.request]: the configuration and the counter its
    continuations close over, the headers the configuration pointed to
    at the time of the call, and that time. *)
Record Request := {
  req_config : AxiosRequestConfig;
  req_count : N;
  req_headers : gmap string string;
  req_time : N
}.

(** A call of [setTimeout]: when the callback is due, and the arguments
    of the [connect] it performs. *)
Record Timer := {
  due : N;
  timer_config : AxiosRequestConfig;
  timer_count : N
}.

(** A response body with its listeners attached; they close over the
    configuration. *)
Record Stream := {
  stream_config : AxiosRequestConfig;
  ended : bool
}.

Record World := {
  heap : gmap loc (gmap string string);
  emitted : list Emission;
  sent : list Request;
  inflight : list Request;
  streams : list Stream;
  timers : list Timer;
  now : N
}.

Definition emit (n : string) (p : Payload) (w : World) : World :=
  {| heap := heap w; emitted := emitted w ++ [{| name := n; payload := p |}];
     sent := sent w; inflight := inflight w; streams := streams w;
     timers := timers w; now := now w |}.

Definition read_headers (l : loc) (w : World) : gmap string string :=
  default ∅ (heap w !! l).

Definition write_header (l : loc) (key value : string) (w : World) : World :=
  {| heap := <[l := <[key := value]> (read_headers l w)]> (heap w);
     emitted := emitted w; sent := sent w; inflight := inflight w;
     streams := streams w; timers := timers w; now := now w |}.

Definition axios_request (cfg : AxiosRequestConfig) (count : N) (w : World) : World :=
  let r := {| req_config := cfg; req_count := count;
              req_headers := read_headers (headers cfg) w;
              req_time := now w |} in
  {| heap := heap w; emitted := emitted w; sent := sent w ++ [r];
     inflight := inflight w ++ [r]; streams := streams w;
     timers := timers w; now := now w |}.

Definition setTimeout (cfg : AxiosRequestConfig) (count : N) (ms : N) (w : World) : World :=
  {| heap := heap w; emitted := emitted w; sent := sent w;
     inflight := inflight w; streams := streams w;
     timers := timers w ++ [{| due := (now w + ms)%N; timer_config := cfg;
                               timer_count := count |}];
     now := now w |}.

Definition set_inflight (l : list Request) (w : World) : World :=
  {| heap := heap w; emitted := emitted w; sent := sent w; inflight := l;
     streams := streams w; timers := timers w; now := now w |}.

Definition set_streams (l : list Stream) (w : World) : World :=
  {| heap := heap w; emitted := emitted w; sent := sent w;
     inflight := inflight w; streams := l; timers := timers w; now := now w |}.

Definition set_timers (l : list Timer) (w : World) : World :=
  {| heap := heap w; emitted := emitted w; sent := sent w;
     inflight := inflight w; streams := streams w; timers := l; now := now w |}.

Definition set_now (t : N) (w : World) : World :=
  {| heap := heap w; emitted := emitted w; sent := sent w;
     inflight := inflight w; streams := streams w; timers := timers w; now := t |}.

Definition set_headers (l : loc) (cfg : AxiosRequestConfig) : AxiosRequestConfig :=
  {| url := url cfg; httpsAgent := httpsAgent cfg; httpAgent := httpAgent cfg;
     auth := auth cfg; headers := l; method := method cfg;
     responseType := responseType cfg |}.

(** ** The Digest challenge (catch handler, lines 122-139) *)

Module Digest.

(** [realm] and [nonce] as the source finds them: the second piece of
    the first and of the third comma-separated field, quotes removed.
    Reading [[1]] of a missing field, or [replace] of a missing piece,
    raises. *)
Definition parse_challenge (www : string) : JSException + (string * string) :=
  let authDetails := map (JS.split "="%char) (JS.split_commas www) in
  match JS.index authDetails 0 with
  | None => inl (reading_of_undefined "1")
  | Some d0 =>
      match JS.index d0 1 with
      | None => inl (reading_of_undefined "replace")
      | Some r =>
          let realm := JS.remove_all dquote r in
          match JS.index authDetails 2 with
          | None => inl (reading_of_undefined "1")
          | Some d2 =>
              match JS.index d2 1 with
              | None => inl (reading_of_undefined "replace")
              | Some n => inr (realm, JS.remove_all dquote n)
              end
          end
      end
  end.

(** [('00000000' + count).slice(-8)]. *)
Definition nonceCount (count : N) : string :=
  JS.slice_last 8 ("00000000" +:+ Num.toString count).

Definition quoted (s : string) : string :=
  String dquote s +:+ String dquote "".

Section Header.
Variables (username password uri realm nonce nc cnonce : string).

Definition HA1 : string := md5 (username +:+ ":" +:+ realm +:+ ":" +:+ password).
Definition HA2 : string := md5 ("GET:" +:+ uri).
Definition response_hash : string :=
  md5 (HA1 +:+ ":" +:+ nonce +:+ ":" +:+ nc +:+ ":" +:+ cnonce +:+ ":auth:" +:+ HA2).

(** The value stored under [authorization]. *)
Definition authorization : string :=
  ("Digest username=" +:+ quoted username +:+ ",realm=" +:+ quoted realm +:+ ","
   +:+ "nonce=" +:+ quoted nonce +:+ ",uri=" +:+ quoted uri
   +:+ ",qop=" +:+ quoted "auth" +:+ ",algorithm=" +:+ quoted "MD5" +:+ ","
   +:+ "response=" +:+ quoted response_hash +:+ ",nc=" +:+ quoted nc
   +:+ ",cnonce=" +:+ quoted cnonce).
End Header.

End Digest.

(** ** The class [DahuaEvents] *)

Section DahuaEvents.

Variable this : DahuaEvents.

(** *** parseEventData (lines 171-208) *)

Definition sentinel : Parsed.t := Parsed.mk "" (JInt (-999)) "".

(** The callback of [forEach]: it assigns the three variables one after
    the other, so an exception leaves the earlier assignments in place. *)
Definition parse_line (event : string) (v : Parsed.t) : Parsed.t * option JSException :=
  if JS.includes ";"%char event then
    let alarm := JS.split ";"%char event in
    match JS.index alarm 0 with
    | None => (v, Some (reading_of_undefined "substr"))
    | Some a0 =>
        let v1 := Parsed.mk (Parsed.action v) (Parsed.index v) (JS.substr 5 a0) in
        match JS.index alarm 1 with
        | None => (v1, Some (reading_of_undefined "substr"))
        | Some a1 =>
            let v2 := Parsed.mk (JS.substr 7 a1) (Parsed.index v1) (Parsed.eventType v1) in
            match JS.index alarm 2 with
            | None => (v2, Some (reading_of_undefined "substr"))
            | Some a2 =>
                (Parsed.mk (Parsed.action v2) (Num.Number (JS.substr 6 a2))
                           (Parsed.eventType v2), None)
            end
        end
    end
  else (v, None).

(** [arr.forEach(f)]: an exception in [f] ends the loop. *)
Fixpoint forEach (f : string -> Parsed.t -> Parsed.t * option JSException)
    (arr : list string) (v : Parsed.t) : Parsed.t * option JSException :=
  match arr with
  | [] => (v, None)
  | x :: rest =>
      match f x v with
      | (v', None) => forEach f rest v'
      | (v', Some e) => (v', Some e)
      end
  end.

(** The [try] block: the variables when it is left, and the exception
    if it was left by one. *)
Definition parse_try (data : string) : Parsed.t * option JSException :=
  forEach parse_line (JS.split LF data) sentinel.

Definition parseEventData (data : string) (w : World) : Parsed.t * World :=
  match parse_try data with
  | (v, None) => (v, w)
  | (v, Some _) =>
      (v, emit DEBUG_EVENT_NAME (PText ("Could not parse event data: " +:+ data)) w)
  end.

(** *** reconnect (lines 164-169) *)

Definition reconnect (cfg : AxiosRequestConfig) (reconnection_interval_ms : N)
    (w : World) : World :=
  let w1 := emit RECONNECTING_EVENT_NAME
              (PText ("Reconnecting to " +:+ host this +:+ " in "
                      +:+ seconds_toString reconnection_interval_ms +:+ "s.")) w in
  setTimeout cfg 0 reconnection_interval_ms w1.

(** *** connect (lines 76-161) *)

(** The call itself only issues the request; the rest of [connect] is
    the continuations below. *)
Definition connect (cfg : AxiosRequestConfig) (count : N) (w : World) : World :=
  axios_request cfg count w.

(** [.then]: two traces, then the listeners are attached. *)
Definition on_fulfilled (cfg : AxiosRequestConfig) (res : AxiosResponse)
    (w : World) : World :=
  let w1 := emit DEBUG_EVENT_NAME
              (PText ("Successfully connected and listening to host: " +:+ host this)) w in
  let w2 := emit DEBUG_EVENT_NAME
              (PText ("Connection response received for host: " +:+ host this +:+ " "
                      +:+ JSON.of_object (response_headers res) +:+ " "
                      +:+ JSON.of_string (statusText res) +:+ " "
                      +:+ JSON.of_number (status res))) w1 in
  set_streams (streams w2 ++ [{| stream_config := cfg; ended := false |}]) w2.

(** The ['data'] listener. *)
Definition on_data (data : string) (w : World) : World :=
  let w1 := emit DEBUG_EVENT_NAME
              (PText ("Response recieved on host: " +:+ host this +:+ ": " +:+ data)) w in
  let '(event, w2) := parseEventData data w1 in
  emit ALARM_EVENT_NAME
    (PAlarm (DahuaAlarm.mk (Parsed.eventType event) (Parsed.action event)
                           (Parsed.index event) (host this))) w2.

(** The ['close'] listener. *)
Definition on_close (w : World) : World :=
  emit DEBUG_EVENT_NAME
    (PText ("Socket connection closed for host: " +:+ host this)) w.

(** The ['error'] listener. *)
Definition on_error (cfg : AxiosRequestConfig) (data : string) (w : World) : World :=
  let w1 := emit DEBUG_EVENT_NAME
              (PText ("Socket connection errored on host: " +:+ host this
                      +:+ ", error received: " +:+ data)) w in
  reconnect cfg RECONNECT_INTERNAL_MS w1.

(** The ['end'] listener. *)
Definition on_end (cfg : AxiosRequestConfig) (w : World) : World :=
  let w1 := emit DEBUG_EVENT_NAME
              (PText ("Socket connection ended on host: " +:+ host this)) w in
  reconnect cfg RECONNECT_INTERNAL_MS w1.

(** The condition of line 113 together with the [try] block up to the
    point where nothing can raise any more: the challenge to answer, or
    the error details of the branch taken instead.  [base] is the
    initial [errorDetails]. *)
Definition base_details : string := "Error Details:".

Definition www_authenticate (r : AxiosResponse) : option string :=
  match header_lookup "www-authenticate" (response_headers r) with
  | Some h => if String.eqb h "" then None else Some h
  | None => None
  end.

Definition challenge_of (err : AxiosError) : string + (string * string) :=
  match response err with
  | Some r =>
      match (status r =? 401)%N, www_authenticate r with
      | true, Some www =>
          match Digest.parse_challenge www with
          | inr c => inr c
          | inl e =>
              inl (base_details
                   +:+ " Error when building digest auth headers, please open an issue with this log: "
                   +:+ String LF "" +:+ " " +:+ exception_toString e)
          end
      | _, _ =>
          inl (base_details +:+ " Status Code: " +:+ Num.toString (status r)
               +:+ " Response: " +:+ template_opt (data_statusMessage r))
      end
  | None =>
      if request err
      then inl (base_details +:+ " Didn't get a response from the NVR - " +:+ message err)
      else inl (base_details +:+ " " +:+ message err)
  end.

Definition template_username (cfg : AxiosRequestConfig) : string :=
  template_opt (username <$> auth cfg).

Definition template_password (cfg : AxiosRequestConfig) : string :=
  template_opt (password <$> auth cfg).

(** [.catch]: [random] is what [crypto.randomBytes(24)] returns when it
    is called. *)
Definition on_rejected (cfg : AxiosRequestConfig) (count : N) (err : AxiosError)
    (random : list Z) (w : World) : World :=
  match challenge_of err with
  | inr (realm, nonce) =>
      let count := (count + 1)%N in
      let nonceCount := Digest.nonceCount count in
      let cnonce := Hex.of_bytes random in
      let w1 := write_header (HEADERS this) "authorization"
                  (Digest.authorization (template_username cfg) (template_password cfg)
                     (eventsWatchUri this) realm nonce nonceCount cnonce) w in
      let cfg := set_headers (HEADERS this) cfg in
      let w2 := emit DEBUG_EVENT_NAME
                  (PText ("401 received and www-authenticate headers, sending digest auth. Count: "
                          +:+ Num.toString count)) w1 in
      connect cfg count w2
  | inl details =>
      let error := {| error := "Error received from host: " +:+ host this;
                      errorDetails := details |} in
      let w1 := emit ERROR_EVENT_NAME (PError error) w in
      reconnect cfg RECONNECT_INTERNAL_MS w1
  end.

(** *** The environment

    What can happen next: a pending promise settles, a stream raises one
    of its events, time passes, a timer that is due fires. *)
Inductive Input :=
| Fulfilled (i : nat) (res : AxiosResponse)
| Rejected (i : nat) (err : AxiosError) (random : list Z)
| StreamData (s : nat) (data : string)
| StreamClose (s : nat)
| StreamError (s : nat) (data : string)
| StreamEnd (s : nat)
| Elapse (dt : N)
| TimerFires (t : nat).

Definition end_stream (s : nat) (w : World) : World :=
  set_streams (alter (fun st => {| stream_config := stream_config st; ended := true |})
                     s (streams w)) w.

Definition step (w : World) (i : Input) : option World :=
  match i with
  | Fulfilled i res =>
      r ← inflight w !! i;
      Some (on_fulfilled (req_config r) res (set_inflight (delete i (inflight w)) w))
  | Rejected i err random =>
      r ← inflight w !! i;
      Some (on_rejected (req_config r) (req_count r) err random
              (set_inflight (delete i (inflight w)) w))
  | StreamData s data =>
      st ← streams w !! s;
      if ended st then None else Some (on_data data w)
  | StreamClose s =>
      st ← streams w !! s;
      Some (on_close (set_streams (delete s (streams w)) w))
  | StreamError s data =>
      st ← streams w !! s;
      if ended st then None
      else Some (on_error (stream_config st) data (end_stream s w))
  | StreamEnd s =>
      st ← streams w !! s;
      if ended st then None
      else Some (on_end (stream_config st) (end_stream s w))
  | Elapse dt => Some (set_now (now w + dt)%N w)
  | TimerFires t =>
      tm ← timers w !! t;
      if (due tm <=? now w)%N
      then Some (connect (timer_config tm) (timer_count tm)
                   (set_timers (delete t (timers w)) w))
      else None
  end.

Fixpoint run (w : World) (inputs : list Input) : option World :=
  match inputs with
  | [] => Some w
  | i :: rest => w' ← step w i; run w' rest
  end.

End DahuaEvents.

(** *** The constructor (lines 31-74) *)

Definition AGENT_SETTINGS (useHttp : bool) : Agent :=
  {| secure := negb useHttp; keepAlive := true; keepAliveMsecs := 1000;
     maxSockets := 1; maxFreeSockets := 1;
     rejectUnauthorized := if useHttp then None else Some false;
     minVersion := if useHttp then None else Some "TLSv1" |}.

Definition empty_world : World :=
  {| heap := ∅; emitted := []; sent := []; inflight := []; streams := [];
     timers := []; now := 0%N |}.

Definition new_config (host user pass : string) (useHttp : bool) (uri : string)
    (hdrs : loc) : AxiosRequestConfig :=
  let keepAliveAgent := AGENT_SETTINGS useHttp in
  let useSSL := if useHttp then "http" else "https" in
  {| url := useSSL +:+ "://" +:+ host +:+ uri;
     httpsAgent := keepAliveAgent; httpAgent := keepAliveAgent;
     auth := Some {| username := user; password := pass |};
     headers := hdrs; method := "GET"; responseType := "stream" |}.

(** [events] lists the elements of the set in insertion order. *)
Definition new_DahuaEvents (host user pass : string) (useHttp : bool)
    (events : list string) : DahuaEvents * World :=
  let uri := "/cgi-bin/eventManager.cgi?action=attach&codes=["
             +:+ JS.join "," events +:+ "]" in
  let this := {| host := host; eventsWatchUri := uri; HEADERS := 0 |} in
  let w := write_header 0 "Accept" "multipart/x-mixed-replace" empty_world in
  (this, connect (new_config host user pass useHttp uri 0) 0 w).


(** * The platform (the second source file)

    The class [DahuaMotionAlertsPlatform]: the validator of the
    configuration, the grouping of the cameras by host in the
    constructor, and the way from an alarm to the motion hook.  The
    declarations of [configTypes] are not among the sources; the records
    below hold the fields the platform reads, each as optional as the
    validator treats it: [None] stands for a property that is
    [undefined] in the configuration. *)

Module CameraCredentials.
Record t := mk {
  host : option string;
  user : option string;
  pass : option string;
  useHttp : bool
}.
End CameraCredentials.

Module CameraConfig.
Record t := mk {
  cameraName : option string;
  index : option JSNumber;
  triggerEventTypes : option (list string);
  cameraCredentials : option CameraCredentials.t
}.
End CameraConfig.

Module DahuaCameraConfig.
Record t := mk {
  homebridgeCameraFfmpegHttpPort : option N;
  cameras : option (list CameraConfig.t);
  host : option string;
  user : option string;
  pass : option string;
  useHttp : bool
}.
End DahuaCameraConfig.

(** ** Truthiness and strict equality *)

(** A string that may be [undefined] is truthy when it is there and not
    empty. *)
Definition truthy (o : option string) : bool :=
  match o with
  | Some s => negb (String.eqb s "")
  | None => false
  end.

(** [!port]: [undefined] and 0 are falsy. *)
Definition truthy_port (o : option N) : bool :=
  match o with
  | Some n => negb (n =? 0)%N
  | None => false
  end.

(** [a === b] on numbers: NaN equals nothing, not even itself. *)
Definition number_eqb (a b : JSNumber) : bool :=
  match a, b with
  | JInt x, JInt y => (x =? y)%Z
  | JFrac x, JFrac y => Qeq_bool x y
  | Infinity x, Infinity y => Bool.eqb x y
  | _, _ => false
  end.

(** [x === y] where [x] may be [undefined]. *)
Definition strict_eqb (x : option JSNumber) (y : JSNumber) : bool :=
  match x with
  | Some a => number_eqb a y
  | None => false
  end.

(** [!index && index !== 0]: the index is [undefined] or NaN. *)
Definition index_unset (x : option JSNumber) : bool :=
  match x with
  | None => true
  | Some NaN => true
  | Some _ => false
  end.

(** [a === b] on strings one of which may be [undefined]. *)
Definition same_host (a : option string) (b : string) : bool :=
  match a with
  | Some s => String.eqb s b
  | None => false
  end.

(** [arr.includes(x)] on strings. *)
Definition includes_string (x : string) (arr : list string) : bool :=
  existsb (String.eqb x) arr.

(** ** encodeURI *)

Module URI.

Definition upper_nibble (d : Z) : ascii :=
  ascii_of_N (Z.to_N (if (d <? 10)%Z then 48 + d else 55 + d)%Z).

Definition percent (b : Z) : string :=
  String "%"%char
    (String (upper_nibble (Z.shiftr b 4)) (String (upper_nibble (Z.land b 15)) "")).

(** The characters [encodeURI] leaves alone: letters, digits and
    [; / ? : @ & = + $ , # - _ . ! ~ * ' ( )]. *)
Definition kept (c : ascii) : bool :=
  let n := N_of_ascii c in
  ((65 <=? n) && (n <=? 90) || (97 <=? n) && (n <=? 122)
   || (48 <=? n) && (n <=? 57))%N
  || existsb (Ascii.eqb c)
       [";"; "/"; "?"; ":"; "@"; "&"; "="; "+"; "$"; ","; "#";
        "-"; "_"; "."; "!"; "~"; "*"; "'"; "("; ")"]%char.

Definition encode_unit (c : ascii) : string :=
  if kept c then String c ""
  else foldr (fun b acc => percent b +:+ acc) "" (Hex.utf8_unit c).

Fixpoint encodeURI (s : string) : string :=
  match s with
  | EmptyString => ""
  | String c s' => encode_unit c +:+ encodeURI s'
  end.

End URI.

(** ** What the platform does to the outside *)

Inductive LogLevel := LogInfo | LogDebug | LogError.

Inductive Effect :=
| Log (level : LogLevel) (msg : string)
| Post (url : string)
| NewDahuaEvents (host user pass : option string) (useHttp : bool)
    (events : list string).

(** The effects of a piece of code, and the exception that ended it if
    one did. *)
Record Outcome := { effects : list Effect; raised : option JSException }.

(** ** The validator (lines 124-171) *)

Definition invalidCameraCredentials (config : CameraCredentials.t)
    : list Effect * bool :=
  if negb (truthy (CameraCredentials.host config))
  then ([Log LogError "host not set!"], true)
  else if negb (truthy (CameraCredentials.user config))
  then ([Log LogError "user not set!"], true)
  else if negb (truthy (CameraCredentials.pass config))
  then ([Log LogError "pass not set!"], true)
  else ([], false).

(** The callback of [config.cameras.forEach]: what it logs and whether
    it sets [error]. *)
Definition check_camera (camera : CameraConfig.t) : list Effect * bool :=
  if negb (truthy (CameraConfig.cameraName camera))
     || index_unset (CameraConfig.index camera)
  then ([Log LogError "no camera name or index set!"], true)
  else if match CameraConfig.triggerEventTypes camera with
          | Some types => length types =? 0
          | None => true
          end
  then ([Log LogError "no trigger event types!"], true)
  else match CameraConfig.cameraCredentials camera with
       | Some cc => invalidCameraCredentials cc
       | None => ([], false)
       end.

(** The loop: [error] is only ever set, and every camera is looked at. *)
Fixpoint check_cameras (cameras : list CameraConfig.t) (error : bool)
    : list Effect * bool :=
  match cameras with
  | [] => ([], error)
  | camera :: rest =>
      let '(l1, e1) := check_camera camera in
      let '(l2, e2) := check_cameras rest (error || e1) in
      (l1 ++ l2, e2)
  end.

Definition isInvalidConfig (config : DahuaCameraConfig.t) : list Effect * bool :=
  if negb (truthy_port (DahuaCameraConfig.homebridgeCameraFfmpegHttpPort config))
  then ([Log LogError "homebridge-camera-ffmpeg http port not set in config!"], true)
  else
    match DahuaCameraConfig.cameras config with
    | None | Some [] => ([Log LogError "no cameras configured!"], true)
    | Some cameras =>
        let top :=
          if truthy (DahuaCameraConfig.host config)
             || truthy (DahuaCameraConfig.user config)
             || truthy (DahuaCameraConfig.pass config)
          then invalidCameraCredentials
                 (CameraCredentials.mk (DahuaCameraConfig.host config)
                    (DahuaCameraConfig.user config) (DahuaCameraConfig.pass config)
                    false)
          else ([], false) in
        if top.2 then (top.1, true)
        else let '(l, e) := check_cameras cameras false in (top.1 ++ l, e)
    end.

(** ** Grouping the cameras by host (constructor, lines 29-64) *)

Record DahuaEventsConfig := {
  events : list string;
  server : CameraCredentials.t
}.

(** [Map<string, DahuaEventsConfig>]: the entries in insertion order; a
    key may be [undefined]. *)
Definition HostMap := list (option string * DahuaEventsConfig).

Definition key_eqb (a b : option string) : bool :=
  match a, b with
  | Some x, Some y => String.eqb x y
  | None, None => true
  | _, _ => false
  end.

Fixpoint map_get (k : option string) (m : HostMap) : option DahuaEventsConfig :=
  match m with
  | [] => None
  | (k', v) :: rest => if key_eqb k' k then Some v else map_get k rest
  end.

Definition map_has (k : option string) (m : HostMap) : bool :=
  match map_get k m with Some _ => true | None => false end.

(** [map.set(k, v)]: a present key keeps its place. *)
Fixpoint map_set (k : option string) (v : DahuaEventsConfig) (m : HostMap) : HostMap :=
  match m with
  | [] => [(k, v)]
  | (k', v') :: rest =>
      if key_eqb k' k then (k', v) :: rest else (k', v') :: map_set k v rest
  end.

(** [set.add(x)] on a [Set<string>] kept in insertion order. *)
Definition set_add (s : list string) (x : string) : list string :=
  if includes_string x s then s else s ++ [x].

(** [types.forEach(set.add, set)]. *)
Definition add_all (types : list string) (s : list string) : list string :=
  fold_left set_add types s.

(** The callback of [this.config.cameras.forEach]: it picks the entry of
    the camera's host, or of the platform's host when the camera has no
    credentials, and adds the camera's event types to it.  The entry is
    an object of the map, so adding to it changes the map. *)
Definition group_camera (config_host : option string) (camera : CameraConfig.t)
    (uniqueHosts : HostMap) : JSException + HostMap :=
  let '(key, hostConfig, uniqueHosts) :=
    match CameraConfig.cameraCredentials camera with
    | Some cc =>
        if negb (map_has (CameraCredentials.host cc) uniqueHosts) then
          let hostConfig := {| events := []; server := cc |} in
          (CameraCredentials.host cc, Some hostConfig,
           map_set (CameraCredentials.host cc) hostConfig uniqueHosts)
        else (CameraCredentials.host cc,
              map_get (CameraCredentials.host cc) uniqueHosts, uniqueHosts)
    | None => (config_host, map_get config_host uniqueHosts, uniqueHosts)
    end in
  match CameraConfig.triggerEventTypes camera with
  | None => inl (reading_of_undefined "forEach")
  | Some types =>
      match hostConfig with
      | None => inl (reading_of_undefined "events")
      | Some hc =>
          inr (map_set key {| events := add_all types (events hc); server := server hc |}
                       uniqueHosts)
      end
  end.

Fixpoint group_cameras (config_host : option string) (cameras : list CameraConfig.t)
    (uniqueHosts : HostMap) : JSException + HostMap :=
  match cameras with
  | [] => inr uniqueHosts
  | camera :: rest =>
      match group_camera config_host camera uniqueHosts with
      | inl e => inl e
      | inr m => group_cameras config_host rest m
      end
  end.

(** The map before the loop: the platform's own host when it has one. *)
Definition initial_hosts (config : DahuaCameraConfig.t) : HostMap :=
  if truthy (DahuaCameraConfig.host config)
  then [(DahuaCameraConfig.host config,
         {| events := [];
            server := CameraCredentials.mk (DahuaCameraConfig.host config)
                        (DahuaCameraConfig.user config) (DahuaCameraConfig.pass config)
                        (DahuaCameraConfig.useHttp config) |})]
  else [].

Definition connect_host (entry : option string * DahuaEventsConfig) : Effect :=
  let server := server entry.2 in
  NewDahuaEvents (CameraCredentials.host server) (CameraCredentials.user server)
    (CameraCredentials.pass server) (CameraCredentials.useHttp server)
    (events entry.2).

(** The constructor: the validator's log, then either the shutdown
    message or one [DahuaEvents] per entry of the map. *)
Definition new_platform (config : DahuaCameraConfig.t) : Outcome :=
  let '(logs, invalid) := isInvalidConfig config in
  if invalid
  then {| effects := logs ++ [Log LogError "Errors above, shutting plugin down"];
          raised := None |}
  else
    match DahuaCameraConfig.cameras config with
    | None => {| effects := logs; raised := Some (reading_of_undefined "forEach") |}
    | Some cameras =>
        match group_cameras (DahuaCameraConfig.host config) cameras
                (initial_hosts config) with
        | inl e => {| effects := logs; raised := Some e |}
        | inr uniqueHosts =>
            {| effects := logs ++ map connect_host uniqueHosts; raised := None |}
        end
    end.

(** ** From an alarm to the motion hook (lines 68-122) *)

(** The condition of lines 115-116; reading [includes] of missing event
    types raises. *)
Definition camera_matches (config_host : option string) (camera : CameraConfig.t)
    (alarm : DahuaAlarm.t) : JSException + bool :=
  let types_include :=
    match CameraConfig.triggerEventTypes camera with
    | Some types => inr (includes_string (DahuaAlarm.eventType alarm) types)
    | None => inl (reading_of_undefined "includes")
    end in
  match CameraConfig.cameraCredentials camera with
  | Some cc =>
      if same_host (CameraCredentials.host cc) (DahuaAlarm.host alarm)
      then types_include
      else inr false
  | None =>
      if truthy config_host && same_host config_host (DahuaAlarm.host alarm)
      then types_include
      else inr false
  end.

(** The loop of [getCameraName]; [None] in the result stands for [null]
    and for an [undefined] name, which the caller treats alike. *)
Fixpoint find_camera (config_host : option string) (cameras : list CameraConfig.t)
    (alarm : DahuaAlarm.t) : JSException + option string :=
  match cameras with
  | [] => inr None
  | camera :: rest =>
      if strict_eqb (CameraConfig.index camera) (DahuaAlarm.index alarm) then
        match camera_matches config_host camera alarm with
        | inl e => inl e
        | inr true => inr (CameraConfig.cameraName camera)
        | inr false => find_camera config_host rest alarm
        end
      else find_camera config_host rest alarm
  end.

Definition getCameraName (config : DahuaCameraConfig.t) (alarm : DahuaAlarm.t)
    : JSException + option string :=
  match DahuaCameraConfig.cameras config with
  | Some cameras => find_camera (DahuaCameraConfig.host config) cameras alarm
  | None => inl (reading_of_undefined "length")
  end.

Definition template_port (config : DahuaCameraConfig.t) : string :=
  match DahuaCameraConfig.homebridgeCameraFfmpegHttpPort config with
  | Some n => Num.toString n
  | None => "undefined"
  end.

Definition motionUrl (config : DahuaCameraConfig.t) (cameraName : string) : string :=
  URI.encodeURI ("http://localhost:" +:+ template_port config +:+ "/motion?"
                 +:+ cameraName).

Definition resetMotionUrl (config : DahuaCameraConfig.t) (cameraName : string)
    : string :=
  URI.encodeURI ("http://localhost:" +:+ template_port config +:+ "/motion/reset?"
                 +:+ cameraName).

Section Platform.

(** [Number::toString] on any number, for the text of the log lines. *)
Variable number_toString : JSNumber -> string.

Variable config : DahuaCameraConfig.t.

(** The listener of the alarm signal, up to the point where the request
    to the motion hook is handed to axios. *)
Definition alertMotion (dahuaAlarm : DahuaAlarm.t) : Outcome :=
  match getCameraName config dahuaAlarm with
  | inl e => {| effects := []; raised := Some e |}
  | inr None => {| effects := []; raised := None |}
  | inr (Some cameraName) =>
      if String.eqb cameraName "" then {| effects := []; raised := None |}
      else if String.eqb (DahuaAlarm.action dahuaAlarm) "Start" then
        {| effects :=
             [Log LogDebug
                (DahuaAlarm.eventType dahuaAlarm +:+ " detected on index: "
                 +:+ number_toString (DahuaAlarm.index dahuaAlarm)
                 +:+ ", mapped to camera " +:+ cameraName);
              Post (motionUrl config cameraName)];
           raised := None |}
      else if String.eqb (DahuaAlarm.action dahuaAlarm) "Stop" then
        {| effects :=
             [Log LogDebug
                (DahuaAlarm.eventType dahuaAlarm +:+ " ended on index: "
                 +:+ number_toString (DahuaAlarm.index dahuaAlarm)
                 +:+ ", mapped to camera " +:+ cameraName);
              Post (resetMotionUrl config cameraName)];
           raised := None |}
      else {| effects := []; raised := None |}
  end.

End Platform.
(** * Definitions the statements use *)

(** ** The reference Digest computation

    RFC 2617, section 3.2.2, for [qop=auth] and the MD5 algorithm: the
    request digest is [KD (H A1) (nonce:nc:cnonce:qop:H A2)] with
    [KD secret data = H (secret:data)], [A1 = username:realm:passwd] and
    [A2 = method:uri]; the credentials are the scheme name followed by
    comma-separated [name="value"] pairs. *)

Module Reference.

Definition H : string -> string := md5.

Definition KD (secret data : string) : string := H (secret +:+ ":" +:+ data).

Definition A1 (username realm passwd : string) : string :=
  JS.join ":" [username; realm; passwd].

Definition A2 (method uri : string) : string := JS.join ":" [method; uri].

Definition request_digest
    (username realm passwd method uri nonce nc cnonce qop : string) : string :=
  KD (H (A1 username realm passwd))
     (JS.join ":" [nonce; nc; cnonce; qop; H (A2 method uri)]).

Definition param (kv : string * string) : string :=
  kv.1 +:+ "=" +:+ Digest.quoted kv.2.

Definition credentials (params : list (string * string)) : string :=
  "Digest " +:+ JS.join "," (map param params).

End Reference.

(** ** Failure classes

    The one failure the engine answers at once: an HTTP 401 whose
    [www-authenticate] header is present and yields a realm and a nonce.
    Everything else is reported and followed by a delayed reconnect. *)
Definition answerable (err : AxiosError) : option (string * string) :=
  match response err with
  | Some r =>
      if (status r =? 401)%N then
        match www_authenticate r with
        | Some www =>
            match Digest.parse_challenge www with
            | inr c => Some c
            | inl _ => None
            end
        | None => None
        end
      else None
  | None => None
  end.

(** An input that does not answer a challenge; such an input leaves the
    headers object alone. *)
Definition quiet (i : Input) : Prop :=
  match i with
  | Rejected _ err _ => answerable err = None
  | _ => True
  end.

(** ** Signals *)

Definition trace (s : string) : Emission :=
  {| name := DEBUG_EVENT_NAME; payload := PText s |}.

Definition alarm (a : DahuaAlarm.t) : Emission :=
  {| name := ALARM_EVENT_NAME; payload := PAlarm a |}.

Definition reconnecting (this : DahuaEvents) : Emission :=
  {| name := RECONNECTING_EVENT_NAME;
     payload := PText ("Reconnecting to " +:+ host this +:+ " in 10s.") |}.

Definition failure (this : DahuaEvents) (details : string) : Emission :=
  {| name := ERROR_EVENT_NAME;
     payload := PError {| error := "Error received from host: " +:+ host this;
                          errorDetails := details |} |}.

(** The timer a reconnect sets at time [t]. *)
Definition reconnect_timer (cfg : AxiosRequestConfig) (t : N) : Timer :=
  {| due := (t + 10000)%N; timer_config := cfg; timer_count := 0 |}.

(** The value of [authorization] after the 401 handler answered the
    challenge [(realm, nonce)] for a request with counter [count]. *)
Definition digest_value (this : DahuaEvents) (cfg : AxiosRequestConfig)
    (count : N) (realm nonce : string) (random : list Z) : string :=
  Digest.authorization (template_username cfg) (template_password cfg)
    (eventsWatchUri this) realm nonce (Digest.nonceCount (count + 1))
    (Hex.of_bytes random).

(** What the answered 401 leaves behind: the header stored in the shared
    object, one trace, and the next request, issued at once with the
    counter advanced; no timer, no other signal. *)
Definition retried_at_once (this : DahuaEvents) (w : World) (i : nat)
    (r : Request) (realm nonce : string) (random : list Z) (w' : World) : Prop :=
  let value := digest_value this (req_config r) (req_count r) realm nonce random in
  let hdrs := <["authorization" := value]> (read_headers (HEADERS this) w) in
  let retry := {| req_config := set_headers (HEADERS this) (req_config r);
                  req_count := (req_count r + 1)%N;
                  req_headers := hdrs;
                  req_time := now w |} in
  heap w' = <[HEADERS this := hdrs]> (heap w)
  ∧ emitted w' = emitted w ++
      [trace ("401 received and www-authenticate headers, sending digest auth. Count: "
              +:+ Num.toString (req_count r + 1))]
  ∧ sent w' = sent w ++ [retry]
  ∧ inflight w' = delete i (inflight w) ++ [retry]
  ∧ timers w' = timers w
  ∧ streams w' = streams w
  ∧ now w' = now w
  ∧ (headers (req_config r) = HEADERS this → req_config retry = req_config r).

(** What any other failure leaves behind: one error signal, one
    reconnecting signal, one timer due 10000 ms later; no request. *)
Definition reported_and_delayed (this : DahuaEvents) (w : World) (i : nat)
    (r : Request) (w' : World) : Prop :=
  (∃ details, emitted w' = emitted w ++ [failure this details; reconnecting this])
  ∧ timers w' = timers w ++ [reconnect_timer (req_config r) (now w)]
  ∧ sent w' = sent w
  ∧ inflight w' = delete i (inflight w)
  ∧ streams w' = streams w
  ∧ heap w' = heap w
  ∧ now w' = now w.

(** ** Event records *)

(** The lines of a buffer that hold a record: those with a [;]. *)
Definition qualifying_lines (data : string) : list string :=
  filter (fun l => JS.includes ";"%char l = true) (JS.split LF data).

(** The fields of a record line, as the specification words them: the
    first three [;]-separated pieces without their 5, 7 and 6 character
    prefixes, the third converted to a number. *)
Definition fields_of (line : string) : option Parsed.t :=
  match JS.split ";"%char line with
  | a0 :: a1 :: a2 :: _ =>
      Some (Parsed.mk (JS.substr 7 a1) (Num.Number (JS.substr 6 a2)) (JS.substr 5 a0))
  | _ => None
  end.

(** Last record wins, in the words of the specification: the result of
    one call is the fields of the last qualifying line. *)
Definition last_line_wins (data : string) : Prop :=
  ∃ l, last (qualifying_lines data) = Some l
       ∧ fields_of l = Some (parse_try data).1.

Definition stamped (p : Parsed.t) (h : string) : DahuaAlarm.t :=
  DahuaAlarm.mk (Parsed.eventType p) (Parsed.action p) (Parsed.index p) h.

Definition signals_named (n : string) (l : list Emission) : list Emission :=
  filter (fun e => name e = n) l.

(** ** The shared headers object *)

(** Every configuration a pending continuation closes over points to
    [this.HEADERS], and every timer restarts the counter. *)
Definition shares_headers (this : DahuaEvents) (w : World) : Prop :=
  Forall (fun r => headers (req_config r) = HEADERS this) (inflight w)
  ∧ Forall (fun s => headers (stream_config s) = HEADERS this) (streams w)
  ∧ Forall (fun t => headers (timer_config t) = HEADERS this ∧ timer_count t = 0%N)
           (timers w).

(** The specification's statement that nothing derived from a challenge
    outlives its cycle: whatever happened before, the request a reconnect
    timer issues has no [authorization] header. *)
Definition fresh_attempts_unauthenticated (this : DahuaEvents) (w0 : World) : Prop :=
  ∀ inputs w t w' rq,
    run this w0 inputs = Some w →
    step this w (TimerFires t) = Some w' →
    last (sent w') = Some rq →
    req_headers rq !! "authorization" = None.

(** ** The nonce count *)

(** The zero-padded decimal of [n] on [width] digits, as the
    specification words it: the decimal representation of [n] with zeros
    added on the left until it is [width] long. *)
Fixpoint zeros (k : nat) : string :=
  match k with
  | O => ""
  | S k' => String "0"%char (zeros k')
  end.

Definition zero_padded (width : nat) (n : N) : string :=
  let s := Num.toString n in
  zeros (width - String.length s) +:+ s.

(** ** The end-to-end scenario of the specification

    The target 10.0.0.5 watching VideoMotion over TLS, the challenge
    [Digest realm="Login to X",qop="auth",nonce="abc123",opaque="xyz"]
    and some 24 bytes for the client nonce. *)

Module Scenario.

Definition target : DahuaEvents * World :=
  new_DahuaEvents "10.0.0.5" "admin" "pass" false ["VideoMotion"].

Definition this : DahuaEvents := target.1.

Definition w0 : World := target.2.

Definition config : AxiosRequestConfig :=
  new_config "10.0.0.5" "admin" "pass" false (eventsWatchUri this) 0.

Definition first_request : Request :=
  {| req_config := config; req_count := 0;
     req_headers := {["Accept" := "multipart/x-mixed-replace"]};
     req_time := 0 |}.

Definition challenge : string :=
  "Digest realm=" +:+ Digest.quoted "Login to X" +:+ ",qop=" +:+ Digest.quoted "auth"
  +:+ ",nonce=" +:+ Digest.quoted "abc123" +:+ ",opaque=" +:+ Digest.quoted "xyz".

Definition unauthorized_response : AxiosResponse :=
  {| status := 401; statusText := "Unauthorized";
     response_headers := [("www-authenticate", challenge)];
     data_statusMessage := Some "Unauthorized" |}.

Definition unauthorized : AxiosError :=
  {| response := Some unauthorized_response; request := true;
     message := "Request failed with status code 401" |}.

Definition ok : AxiosResponse :=
  {| status := 200; statusText := "OK";
     response_headers := [("content-type", "multipart/x-mixed-replace; boundary=myboundary")];
     data_statusMessage := Some "OK" |}.

Definition random : list Z :=
  [ 0x3a; 0x91; 0x5c; 0x07; 0xe2; 0x4d; 0xb8; 0x16; 0x7f; 0x20; 0xc4; 0x69;
    0x0b; 0xd3; 0x58; 0xa1; 0xee; 0x35; 0x92; 0x4a; 0x6c; 0x01; 0xf7; 0x88 ]%Z.

(** The world once the stream of the authenticated request is open. *)
Definition streaming : option World :=
  run this w0 [Rejected 0 unauthorized random; Fulfilled 0 ok].

Definition open_stream : World := default w0 streaming.

Definition stream : Stream := {| stream_config := config; ended := false |}.

(** The world after the challenge was answered, the world in which the
    reconnect timer set at the end of the stream has become due, and the
    world after it fired. *)
Definition after_challenge : World :=
  default w0 (step this w0 (Rejected 0 unauthorized random)).

Definition until_due : list Input := [Fulfilled 0 ok; StreamEnd 0; Elapse 10000].

Definition reconnect_due : World := default w0 (run this after_challenge until_due).

Definition reconnected : World := default w0 (step this reconnect_due (TimerFires 0)).

Definition fresh_attempt : Request := default first_request (last (sent reconnected)).

(** Two complete records in one buffer. *)
Definition two_records : string :=
  "Code=VideoMotion;action=Start;index=3" +:+ String LF "Code=VideoBlind;action=Stop;index=1".

(** A buffer whose first record lacks its index field. *)
Definition truncated_first : string :=
  "Code=A;action=Start" +:+ String LF "Code=B;action=Stop;index=1".

(** A buffer whose last record lacks its index field. *)
Definition truncated_last : string :=
  "Code=A;action=Start;index=3" +:+ String LF "Code=B;action=Stop".

End Scenario.

(** ** What keeps the engine going

    The continuations that can still make the engine act: a request in
    flight, a stream that has neither ended nor failed, a timer. *)
Fixpoint open_count (l : list Stream) : nat :=
  match l with
  | [] => 0
  | s :: rest => (if ended s then 0 else 1) + open_count rest
  end.

Definition pending (w : World) : nat :=
  length (inflight w) + open_count (streams w) + length (timers w).

(** A ['close'] that comes after the ['end'] or the ['error'] of its
    stream. *)
Definition close_after_end (w : World) (i : Input) : bool :=
  match i with
  | StreamClose s =>
      match streams w !! s with
      | Some st => ended st
      | None => true
      end
  | _ => true
  end.

Fixpoint orderly (this : DahuaEvents) (w : World) (inputs : list Input) : Prop :=
  match inputs with
  | [] => True
  | i :: rest =>
      close_after_end w i = true
      ∧ match step this w i with
        | Some w' => orderly this w' rest
        | None => True
        end
  end.

Definition accept_only : gmap string string :=
  {["Accept" := "multipart/x-mixed-replace"]}.

Definition authorized (r : Request) : Prop :=
  is_Some (req_headers r !! "authorization").

(** The requests sent so far fall into those before the first answered
    challenge and those after it, and the shared object agrees with the
    requests: it always holds [Accept], and holds [authorization] as soon
    as a request carried it. *)
Definition headers_grow (this : DahuaEvents) (w : World) : Prop :=
  read_headers (HEADERS this) w !! "Accept" = Some "multipart/x-mixed-replace"
  ∧ Forall (fun r => req_headers r !! "Accept" = Some "multipart/x-mixed-replace")
           (sent w)
  ∧ ∃ before after,
      sent w = before ++ after
      ∧ Forall (fun r => ¬ authorized r) before
      ∧ Forall authorized after
      ∧ (after ≠ [] → is_Some (read_headers (HEADERS this) w !! "authorization")).

(** ** Record lines as the camera writes them *)

Fixpoint all_space (s : string) : bool :=
  match s with
  | EmptyString => true
  | String c s' => JS.is_space c && all_space s'
  end.

Fixpoint digits_only (s : string) : bool :=
  match s with
  | EmptyString => true
  | String c s' =>
      match Num.digit_val 10 c with
      | Some _ => digits_only s'
      | None => false
      end
  end.

(** [Code=<eventType>;action=<action>;index=<n>], possibly followed by
    white space (the carriage return of a CRLF line end) and by a
    trailer such as [;data={]. *)
Definition record_line (e a : string) (n : N) (pad : string)
    (trailer : option string) : string :=
  "Code=" +:+ e +:+ ";action=" +:+ a +:+ ";index=" +:+ Num.toString n +:+ pad
  +:+ match trailer with
      | Some t => ";" +:+ t
      | None => ""
      end.

(** A line of the buffer that holds no record and no line break. *)
Definition plain_line (l : string) : Prop :=
  JS.includes ";"%char l = false ∧ JS.includes LF l = false.

(** ** Challenge headers *)

Fixpoint last_not_space (p : string) : bool :=
  match p with
  | EmptyString => false
  | String c EmptyString => negb (JS.is_space c)
  | String _ p' => last_not_space p'
  end.

(** A field as it stands between two separators: no comma inside, no
    white space at either end, not empty. *)
Definition tight (p : string) : bool :=
  negb (JS.includes ","%char p)
  && match p with
     | String c _ => negb (JS.is_space c)
     | EmptyString => false
     end
  && last_not_space p.

(** A header: a first field, then for each further field the white space
    before the comma, the white space after it, and the field. *)
Fixpoint spaced_fields (first : string) (more : list (string * string * string))
    : string :=
  match more with
  | [] => first
  | (before, after, p) :: rest =>
      first +:+ before +:+ "," +:+ after +:+ spaced_fields p rest
  end.

Definition well_spaced (more : list (string * string * string)) : Prop :=
  Forall (fun x => all_space x.1.1 = true ∧ all_space x.1.2 = true ∧ tight x.2 = true)
         more.

(** [name=value], possibly followed by [=] and more text. *)
Definition field (k v : string) (cut : option string) : string :=
  k +:+ "=" +:+ v +:+ match cut with
                      | Some x => "=" +:+ x
                      | None => ""
                      end.

Fixpoint count_char (c : ascii) (s : string) : nat :=
  match s with
  | EmptyString => 0
  | String a s' => (if Ascii.eqb a c then 1 else 0) + count_char c s'
  end.

(** ** What a usable configuration is *)

Definition complete (cc : CameraCredentials.t) : bool :=
  truthy (CameraCredentials.host cc) && truthy (CameraCredentials.user cc)
  && truthy (CameraCredentials.pass cc).

(** A camera with a name, an index that is a number, at least one event
    type, and credentials that are complete if there are any. *)
Definition camera_ok (camera : CameraConfig.t) : bool :=
  truthy (CameraConfig.cameraName camera)
  && negb (index_unset (CameraConfig.index camera))
  && match CameraConfig.triggerEventTypes camera with
     | Some (_ :: _) => true
     | _ => false
     end
  && match CameraConfig.cameraCredentials camera with
     | Some cc => complete cc
     | None => true
     end.

(** A port, at least one camera, every camera usable, and platform
    credentials that are all there or all absent. *)
Definition config_ok (config : DahuaCameraConfig.t) : bool :=
  truthy_port (DahuaCameraConfig.homebridgeCameraFfmpegHttpPort config)
  && match DahuaCameraConfig.cameras config with
     | Some (c :: cs) => forallb camera_ok (c :: cs)
     | _ => false
     end
  && (if truthy (DahuaCameraConfig.host config)
         || truthy (DahuaCameraConfig.user config)
         || truthy (DahuaCameraConfig.pass config)
      then truthy (DahuaCameraConfig.host config)
           && truthy (DahuaCameraConfig.user config)
           && truthy (DahuaCameraConfig.pass config)
      else true).

Definition is_error_line (e : Effect) : Prop :=
  match e with
  | Log LogError _ => True
  | _ => False
  end.

Definition cameras_of (config : DahuaCameraConfig.t) : list CameraConfig.t :=
  default [] (DahuaCameraConfig.cameras config).

(** The camera an alarm is meant for: same index, same host (its own, or
    the platform's when it has no credentials), and the event type among
    its trigger types. *)
Definition meant_for (config : DahuaCameraConfig.t) (alarm : DahuaAlarm.t)
    (camera : CameraConfig.t) : bool :=
  strict_eqb (CameraConfig.index camera) (DahuaAlarm.index alarm)
  && match CameraConfig.cameraCredentials camera with
     | Some cc => same_host (CameraCredentials.host cc) (DahuaAlarm.host alarm)
     | None => truthy (DahuaCameraConfig.host config)
               && same_host (DahuaCameraConfig.host config) (DahuaAlarm.host alarm)
     end
  && includes_string (DahuaAlarm.eventType alarm)
       (default [] (CameraConfig.triggerEventTypes camera)).

(** The host whose connection serves a camera. *)
Definition host_of (config : DahuaCameraConfig.t) (camera : CameraConfig.t)
    : option string :=
  match CameraConfig.cameraCredentials camera with
  | Some cc => CameraCredentials.host cc
  | None => DahuaCameraConfig.host config
  end.

Definition silent : Outcome := {| effects := []; raised := None |}.


(** ** Text of the motion hook's address *)

Fixpoint all_chars (p : ascii → bool) (s : string) : bool :=
  match s with
  | EmptyString => true
  | String c s' => p c && all_chars p s'
  end.

(** What an encoded address is made of: the characters [encodeURI]
    keeps, and the percent sign of its escapes. *)
Definition escaped_char (c : ascii) : bool :=
  URI.kept c || Ascii.eqb c "%"%char.

(** ** Cameras and their hosts *)

Definition types_of (camera : CameraConfig.t) : list string :=
  default [] (CameraConfig.triggerEventTypes camera).

Definition has_credentials (camera : CameraConfig.t) : bool :=
  match CameraConfig.cameraCredentials camera with
  | Some _ => true
  | None => false
  end.

(** Every camera has a host to be reached at: its own, or the
    platform's. *)
Definition hosted (config : DahuaCameraConfig.t) : bool :=
  truthy (DahuaCameraConfig.host config)
  || forallb has_credentials (cameras_of config).

(** The credentials a connection is opened with. *)
Definition connection_of (e : Effect) : option CameraCredentials.t :=
  match e with
  | NewDahuaEvents h u p s _ => Some (CameraCredentials.mk h u p s)
  | _ => None
  end.

(** ** A sample installation

    A recorder at 10.0.0.5 with two channels, and one camera of its own
    at 10.0.0.9. *)
Module Installation.

Definition front : CameraConfig.t :=
  CameraConfig.mk (Some "Front door") (Some (JInt 0)) (Some ["VideoMotion"]) None.

Definition yard : CameraConfig.t :=
  CameraConfig.mk (Some "Yard") (Some (JInt 1))
    (Some ["VideoMotion"; "CrossLineDetection"]) None.

Definition garage : CameraConfig.t :=
  CameraConfig.mk (Some "Garage") (Some (JInt 0)) (Some ["VideoMotion"; "AlarmLocal"])
    (Some (CameraCredentials.mk (Some "10.0.0.9") (Some "admin") (Some "secret") true)).

Definition config : DahuaCameraConfig.t :=
  DahuaCameraConfig.mk (Some 8080%N) (Some [front; yard; garage])
    (Some "10.0.0.5") (Some "admin") (Some "pass") false.

(** The same cameras with no recorder configured: the two channels have
    no host left. *)
Definition orphaned : DahuaCameraConfig.t :=
  DahuaCameraConfig.mk (Some 8080%N) (Some [garage; front; yard]) None None None false.

(** The text of a number in a log line. *)
Definition show (x : JSNumber) : string :=
  match x with
  | NaN => "NaN"
  | Infinity false => "Infinity"
  | Infinity true => "-Infinity"
  | JInt z => if (z <? 0)%Z then "-" +:+ Num.toString (Z.to_N (- z))
              else Num.toString (Z.to_N z)
  | JFrac _ => "?"
  end.

End Installation.

(** ** Reading an encoded address back

    The code unit an encoded text starts with: a kept character stands
    for itself, [%XX] for a unit below 128, [%XX%YY] for the two UTF-8
    bytes of a unit from 128 on. *)
Module Unescape.

Definition byte_of (a b : ascii) : option N :=
  match Num.digit_val 16 a, Num.digit_val 16 b with
  | Some x, Some y => Some (16 * x + y)%N
  | _, _ => None
  end.

Definition first_unit (s : string) : option ascii :=
  match s with
  | EmptyString => None
  | String c rest =>
      if Ascii.eqb c "%"%char then
        match rest with
        | String a (String b rest') =>
            match byte_of a b with
            | Some v =>
                if (v <? 128)%N then Some (ascii_of_N v)
                else
                  match rest' with
                  | String _ (String a' (String b' _)) =>
                      match byte_of a' b' with
                      | Some v' => Some (ascii_of_N ((v - 192) * 64 + (v' - 128)))
                      | None => None
                      end
                  | _ => None
                  end
            | None => None
            end
        | _ => None
        end
      else Some c
  end.

End Unescape.

(** ** The map of hosts while the cameras are grouped

    [processed] are the cameras the loop has been through.  The keys are
    distinct and truthy, the platform's host is there when it has one,
    every entry is filed under the host of its credentials and holds,
    without repetition, event types of processed cameras of that host
    only, and every processed camera finds its types in the entry of its
    host. *)
Definition grouped (config : DahuaCameraConfig.t)
    (processed : list CameraConfig.t) (m : HostMap) : Prop :=
  NoDup (map fst m)
  ∧ (truthy (DahuaCameraConfig.host config) = true →
     map_has (DahuaCameraConfig.host config) m = true)
  ∧ (∀ k hc, map_get k m = Some hc →
       CameraCredentials.host (server hc) = k ∧ truthy k = true
       ∧ NoDup (events hc)
       ∧ ∀ t, t ∈ events hc →
           ∃ c, c ∈ processed ∧ host_of config c = k ∧ t ∈ types_of c)
  ∧ (∀ c, c ∈ processed →
       ∃ hc, map_get (host_of config c) m = Some hc
             ∧ ∀ t, t ∈ types_of c → t ∈ events hc).

(** ** Whose credentials a host is reached with *)

(** The credentials of the first camera that names the host. *)
Fixpoint first_credentials (k : option string) (cameras : list CameraConfig.t)
    : option CameraCredentials.t :=
  match cameras with
  | [] => None
  | c :: rest =>
      match CameraConfig.cameraCredentials c with
      | Some cc =>
          if key_eqb (CameraCredentials.host cc) k then Some cc
          else first_credentials k rest
      | None => first_credentials k rest
      end
  end.

Definition platform_credentials (config : DahuaCameraConfig.t)
    : CameraCredentials.t :=
  CameraCredentials.mk (DahuaCameraConfig.host config)
    (DahuaCameraConfig.user config) (DahuaCameraConfig.pass config)
    (DahuaCameraConfig.useHttp config).

(** The platform's own credentials for the platform's host, whatever
    the cameras say; otherwise those of the first camera of the host. *)
Definition credentials_for (config : DahuaCameraConfig.t)
    (cameras : list CameraConfig.t) (k : option string)
    : option CameraCredentials.t :=
  if truthy (DahuaCameraConfig.host config)
     && key_eqb (DahuaCameraConfig.host config) k
  then Some (platform_credentials config)
  else first_credentials k cameras.

Definition served (config : DahuaCameraConfig.t)
    (processed : list CameraConfig.t) (m : HostMap) : Prop :=
  ∀ k, server <$> map_get k m = credentials_for config processed k.

(** The same recorder, with a camera that names the recorder's host and
    another password. *)
Module Conflict.

Definition porch : CameraConfig.t :=
  CameraConfig.mk (Some "Porch") (Some (JInt 2)) (Some ["VideoMotion"])
    (Some (CameraCredentials.mk (Some "10.0.0.5") (Some "viewer") (Some "other") true)).

Definition config : DahuaCameraConfig.t :=
  DahuaCameraConfig.mk (Some 8080%N) (Some [porch; Installation.front])
    (Some "10.0.0.5") (Some "admin") (Some "pass") false.

End Conflict.

(** ** Digest challenges by name

    A challenge as RFC 2617 and the specification describe it: the
    scheme name, then comma-separated parameters [name=value] whose value
    may stand in double quotes, with white space allowed around the
    commas.  The realm and the nonce of a challenge are the values of the
    parameters of these names, wherever they stand. *)
Module Challenge.

Record Param := { key : string; value : string; in_quotes : bool }.

(** The value as it is written. *)
Definition written (p : Param) : string :=
  if in_quotes p then Digest.quoted (value p) else value p.

Definition param_text (p : Param) : string := field (key p) (written p) None.

(** The first parameter, and each further one with the white space
    before and after its comma. *)
Record t := { first : Param; rest : list (string * string * Param) }.

Definition params (c : t) : list Param := first c :: map snd (rest c).

Definition text (c : t) : string :=
  "Digest "
  +:+ spaced_fields (param_text (first c))
        (map (fun x => (x.1.1, x.1.2, param_text x.2)) (rest c)).

(** The value of the parameter of that name. *)
Definition lookup (k : string) (c : t) : option string :=
  value <$> find (fun p => String.eqb (key p) k) (params c).

(** A name, or a value written without quotes: not empty, and free of
    white space, commas, equals signs and double quotes. *)
Definition token_char (a : ascii) : bool :=
  negb (JS.is_space a) && negb (Ascii.eqb a ","%char)
  && negb (Ascii.eqb a "="%char) && negb (Ascii.eqb a dquote).

Definition token (s : string) : bool :=
  negb (String.eqb s "") && all_chars token_char s.

(** Well formed: the names are tokens and distinct, a value holds no
    double quote and is a token unless it stands in quotes, and the
    padding of the commas is white space. *)
Definition well_formed (c : t) : Prop :=
  NoDup (map key (params c))
  ∧ Forall (fun p => token (key p) = true
                     ∧ JS.includes dquote (value p) = false
                     ∧ (in_quotes p = false → token (value p) = true))
           (params c)
  ∧ Forall (fun x => all_space x.1.1 = true ∧ all_space x.1.2 = true) (rest c).

(** The layout of the cameras, as the comment of the handler quotes it:
    the realm first and the nonce third, no value with a comma in it,
    and neither the realm nor the nonce with an equals sign. *)
Definition camera_layout (c : t) : Prop :=
  key (first c) = "realm"
  ∧ JS.includes "="%char (value (first c)) = false
  ∧ (∃ x1 x2 more, rest c = x1 :: x2 :: more
                   ∧ key x2.2 = "nonce"
                   ∧ JS.includes "="%char (value x2.2) = false)
  ∧ Forall (fun p => JS.includes ","%char (value p) = false) (params c).

End Challenge.

(** The failure is an HTTP 401 with this [www-authenticate] header. *)
Definition carries (err : AxiosError) (www : string) : Prop :=
  ∃ r, response err = Some r ∧ status r = 401%N ∧ www_authenticate r = Some www.

(** The credentials of the reference computation for a realm and a
    nonce: username, realm, nonce, uri, qop, algorithm, the request
    digest, nc and cnonce. *)
Definition reference_authorization (user pass uri realm nonce nc cnonce : string)
    : string :=
  Reference.credentials
    [("username", user); ("realm", realm); ("nonce", nonce); ("uri", uri);
     ("qop", "auth"); ("algorithm", "MD5");
     ("response",
      Reference.request_digest user realm pass "GET" uri nonce nc cnonce "auth");
     ("nc", nc); ("cnonce", cnonce)].

(** The specification's statement about the solver: whatever well-formed
    challenge gives a realm and a nonce, whatever the credentials and the
    counter, the header stored is the reference's for that realm and that
    nonce. *)
Definition solves_every_challenge (this : DahuaEvents) : Prop :=
  ∀ (c : Challenge.t) (realm nonce : string) (cfg : AxiosRequestConfig)
    (user pass : string) (count : N) (err : AxiosError) (random : list Z)
    (w : World),
    Challenge.well_formed c →
    Challenge.lookup "realm" c = Some realm →
    Challenge.lookup "nonce" c = Some nonce →
    carries err (Challenge.text c) →
    auth cfg = Some {| username := user; password := pass |} →
    read_headers (HEADERS this) (on_rejected this cfg count err random w)
      !! "authorization"
    = Some (reference_authorization user pass (eventsWatchUri this) realm nonce
              (Digest.nonceCount (count + 1)) (Hex.of_bytes random)).

(** ** The two classes of failures *)

(** The failure is a 401 whose header is a well-formed challenge that
    gives this realm and this nonce. *)
Definition gives_realm_and_nonce (err : AxiosError) (realm nonce : string) : Prop :=
  ∃ c, Challenge.well_formed c
       ∧ carries err (Challenge.text c)
       ∧ Challenge.lookup "realm" c = Some realm
       ∧ Challenge.lookup "nonce" c = Some nonce.

(** The specification's statement about failures: a 401 whose challenge
    gives a realm and a nonce is answered at once with the digest for
    them, every other failure is reported and followed by the delay. *)
Definition classes_by_name (this : DahuaEvents) : Prop :=
  ∀ (w : World) (i : nat) (r : Request) (err : AxiosError) (random : list Z)
    (w' : World),
    inflight w !! i = Some r →
    step this w (Rejected i err random) = Some w' →
    (∀ realm nonce, gives_realm_and_nonce err realm nonce →
                    retried_at_once this w i r realm nonce random w')
    ∧ ((∀ realm nonce, ¬ gives_realm_and_nonce err realm nonce) →
       reported_and_delayed this w i r w').

(** The header of a failure that is an HTTP 401 with a non-empty
    [www-authenticate] header. *)
Definition challenged (err : AxiosError) : option string :=
  match response err with
  | Some r => if (status r =? 401)%N then www_authenticate r else None
  | None => None
  end.

(** What the handler needs of a header, whatever its scheme and the
    names in it: at least three comma-separated fields, the first and
    the third with an equals sign. *)
Definition readable (www : string) : bool :=
  match JS.split ","%char www with
  | f0 :: _ :: f2 :: _ => JS.includes "="%char f0 && JS.includes "="%char f2
  | _ => false
  end.

(** ** Challenges of the scenario's target *)

Module Challenges.

Definition quoted_param (k v : string) : Challenge.Param :=
  {| Challenge.key := k; Challenge.value := v; Challenge.in_quotes := true |}.

(** [Digest realm="Login to X",qop="auth",nonce="abc123",opaque="xyz"] *)
Definition scenario : Challenge.t :=
  {| Challenge.first := quoted_param "realm" "Login to X";
     Challenge.rest := [("", "", quoted_param "qop" "auth");
                        ("", "", quoted_param "nonce" "abc123");
                        ("", "", quoted_param "opaque" "xyz")] |}.

(** The same with a base64 nonce:
    [Digest realm="Login to X",qop="auth",nonce="MTYwNA==",opaque="xyz"] *)
Definition base64_nonce : Challenge.t :=
  {| Challenge.first := quoted_param "realm" "Login to X";
     Challenge.rest := [("", "", quoted_param "qop" "auth");
                        ("", "", quoted_param "nonce" "MTYwNA==");
                        ("", "", quoted_param "opaque" "xyz")] |}.

(** Realm and nonce alone: [Digest realm="Login to X",nonce="abc123"] *)
Definition two_fields : Challenge.t :=
  {| Challenge.first := quoted_param "realm" "Login to X";
     Challenge.rest := [("", "", quoted_param "nonce" "abc123")] |}.

(** A challenge of another scheme, without nonce. *)
Definition basic : string :=
  "Basic realm=" +:+ Digest.quoted "cam" +:+ ", charset=" +:+ Digest.quoted "UTF-8"
  +:+ ", foo=bar".

Definition unauthorized_with (www : string) : AxiosError :=
  {| response := Some {| status := 401; statusText := "Unauthorized";
                         response_headers := [("www-authenticate", www)];
                         data_statusMessage := Some "Unauthorized" |};
     request := true;
     message := "Request failed with status code 401" |}.

End Challenges.

(** ** The credentials of the requests *)

(** Every configuration the engine holds, and every request it has
    sent, carries these credentials under [auth]. *)
Definition signed_with (c : AxiosBasicCredentials) (w : World) : Prop :=
  Forall (fun r => auth (req_config r) = Some c) (sent w)
  ∧ Forall (fun r => auth (req_config r) = Some c) (inflight w)
  ∧ Forall (fun s => auth (stream_config s) = Some c) (streams w)
  ∧ Forall (fun t => auth (timer_config t) = Some c) (timers w).

(** ** The address up to its fragment *)

(** The text before the first [#]. *)
Fixpoint before_hash (s : string) : string :=
  match s with
  | EmptyString => ""
  | String c s' => if Ascii.eqb c "#"%char then "" else String c (before_hash s')
  end.
(** * Properties *)

(** ** Strings *)

Lemma app_nil_l_s (s : string) : "" +:+ s = s.
Proof. reflexivity. Qed.

Lemma app_cons_s (a : ascii) (s t : string) : String a s +:+ t = String a (s +:+ t).
Proof. reflexivity. Qed.

Lemma app_nil_r_s (s : string) : s +:+ "" = s.
Proof. induction s as [|a s IH]; [reflexivity|]. rewrite app_cons_s. by rewrite IH. Qed.

Lemma app_assoc_s (s t u : string) : (s +:+ t) +:+ u = s +:+ (t +:+ u).
Proof.
  induction s as [|a s IH]; [reflexivity|].
  rewrite !app_cons_s. by rewrite IH.
Qed.

Lemma length_app_s (s t : string) :
  String.length (s +:+ t) = String.length s + String.length t.
Proof.
  induction s as [|a s IH]; [reflexivity|].
  rewrite app_cons_s. simpl. by rewrite IH.
Qed.

Lemma substr_length (k : nat) (s : string) :
  String.length (JS.substr k s) = String.length s - k.
Proof.
  revert s. induction k as [|k IH]; intros [|a s]; simpl; try lia.
  apply IH.
Qed.

(** ** The runtime primitives on the inputs the source documents *)

Example split_commas_layouts :
  JS.split_commas "realm=a,qop=b ,  nonce=c, opaque=d" = ["realm=a"; "qop=b"; "nonce=c"; "opaque=d"]
  ∧ JS.split_commas "a,,b , ,c " = ["a"; ""; "b"; ""; "c "]
  ∧ JS.split_commas " a b" = [" a b"].
Proof. repeat split. Qed.

Example split_lines :
  JS.split LF ("--myboundary" +:+ String LF "" +:+ String LF "x;y")
  = ["--myboundary"; ""; "x;y"]
  ∧ JS.split LF "" = [""]
  ∧ JS.split ";"%char "Code=VideoMotion;action=Stop;index=5;data={"
    = ["Code=VideoMotion"; "action=Stop"; "index=5"; "data={"].
Proof. repeat split. Qed.

Example Number_table :
  map Num.Number ["0"; " 12 "; "5" +:+ String "013"%char ""; ""; "abc"; "1.5"; "1e3";
                  "0x1F"; "-7"; "+.5e1"; "Infinity"; "12px"; "-0x10"; "1e"; "."]
  = [JInt 0; JInt 12; JInt 5; JInt 0; NaN; JFrac (3 # 2); JInt 1000;
     JInt 31; JInt (-7); JInt 5; Infinity false; NaN; NaN; NaN; NaN].
Proof. vm_compute. reflexivity. Qed.

Example toString_table :
  map Num.toString [0; 7; 10; 401; 99999999; 100000000]%N
  = ["0"; "7"; "10"; "401"; "99999999"; "100000000"]
  ∧ map seconds_toString [10000; 1500; 250; 0]%N = ["10"; "1.5"; "0.25"; "0"].
Proof. split; vm_compute; reflexivity. Qed.

(** ** Decimal printing *)

Module NumFacts.
Import Num.

Lemma toString_go_acc (f : nat) : ∀ (n : N) (acc : string),
  toString_go f n acc = toString_go f n "" +:+ acc.
Proof.
  induction f as [|f IH]; intros n acc; simpl; [reflexivity|].
  destruct (n <? 10)%N; [reflexivity|].
  rewrite IH. rewrite (IH _ (String _ "")).
  by rewrite app_assoc_s.
Qed.

(** Fuel beyond the binary length of the number changes nothing. *)
Lemma toString_go_fuel (f : nat) : ∀ (n : N) (acc : string) (f' : nat),
  (n < 2 ^ N.of_nat (S f))%N → f ≤ f' →
  toString_go f' n acc = toString_go f n acc.
Proof.
  induction f as [|f IH]; intros n acc f' Hn Hf.
  - change (2 ^ N.of_nat 1)%N with 2%N in Hn.
    destruct f' as [|f']; simpl; [reflexivity|].
    destruct (N.ltb_spec n 10); [reflexivity|lia].
  - destruct f' as [|f']; [lia|]. simpl.
    destruct (n <? 10)%N; [reflexivity|].
    apply IH; [|lia].
    apply N.Div0.div_lt_upper_bound.
    replace (N.of_nat (S (S f))) with (N.succ (N.of_nat (S f))) in Hn by lia.
    rewrite N.pow_succ_r' in Hn. lia.
Qed.

Lemma log2_fuel (n : N) : (n < 2 ^ N.of_nat (S (N.to_nat (N.log2 n))))%N.
Proof.
  replace (N.of_nat (S (N.to_nat (N.log2 n)))) with (N.succ (N.log2 n)) by lia.
  destruct (N.eq_dec n 0%N) as [->|Hn]; [reflexivity|].
  apply N.log2_spec. lia.
Qed.

(** The recursion the fuel stands for. *)
Lemma toString_unfold (n : N) :
  toString n =
    if (n <? 10)%N then String (digit_char n) ""
    else toString (n / 10) +:+ String (digit_char (n mod 10)) "".
Proof.
  unfold toString.
  destruct (N.ltb_spec n 10) as [Hlt|Hge].
  - destruct (N.to_nat (N.log2 n)); simpl.
    + by rewrite N.mod_small by lia.
    + destruct (N.ltb_spec n 10); [|lia]. by rewrite N.mod_small by lia.
  - assert (0 < n / 10)%N as Hpos.
    { apply N.div_str_pos. lia. }
    assert (N.log2 (n / 10) < N.log2 n)%N as Hlog.
    { pose proof (N.log2_double (n / 10) Hpos) as Hd.
      pose proof (N.Div0.mul_div_le n 10) as Hm.
      assert (N.log2 (2 * (n / 10)) ≤ N.log2 n)%N
        by (apply N.log2_le_mono; lia).
      lia. }
    destruct (N.to_nat (N.log2 n)) as [|f] eqn:Hf; [lia|]. simpl.
    destruct (N.ltb_spec n 10); [lia|].
    rewrite toString_go_acc. f_equal.
    apply toString_go_fuel; [apply log2_fuel|lia].
Qed.

Lemma toString_length (k : nat) : ∀ n : N,
  (n < 10 ^ N.of_nat (S k))%N → String.length (toString n) ≤ S k.
Proof.
  induction k as [|k IH]; intros n Hn; rewrite toString_unfold.
  - change (10 ^ N.of_nat 1)%N with 10%N in Hn.
    destruct (N.ltb_spec n 10); [simpl; lia|lia].
  - destruct (N.ltb_spec n 10); [simpl; lia|].
    rewrite length_app_s. simpl.
    assert (String.length (toString (n / 10)) ≤ S k); [|lia].
    apply IH. apply N.Div0.div_lt_upper_bound.
    replace (N.of_nat (S (S k))) with (N.succ (N.of_nat (S k))) in Hn by lia.
    by rewrite N.pow_succ_r' in Hn.
Qed.

End NumFacts.

(** ** The nonce count *)

Lemma nonceCount_length (n : N) : String.length (Digest.nonceCount n) = 8.
Proof.
  unfold Digest.nonceCount, JS.slice_last.
  rewrite substr_length, length_app_s. simpl. lia.
Qed.

Lemma slice_last_zeros (s : string) :
  String.length s ≤ 8 →
  JS.slice_last 8 ("00000000" +:+ s) = zeros (8 - String.length s) +:+ s.
Proof.
  intros Hlen.
  do 9 (destruct s as [|? s]; [reflexivity|]).
  simpl in Hlen. lia.
Qed.

Lemma nonceCount_padded (n : N) :
  (n < 10 ^ 8)%N → Digest.nonceCount n = zero_padded 8 n.
Proof.
  intros Hn. unfold Digest.nonceCount, zero_padded.
  apply slice_last_zeros.
  apply (NumFacts.toString_length 7). exact Hn.
Qed.

(** ** The catch handler *)

Lemma set_headers_id (l : loc) (cfg : AxiosRequestConfig) :
  headers cfg = l → set_headers l cfg = cfg.
Proof. intros <-. by destruct cfg. Qed.

(** [answerable] is the condition under which the handler reaches the end
    of its [try] block. *)
Lemma challenge_of_answerable (err : AxiosError) :
  match answerable err with
  | Some c => challenge_of err = inr c
  | None => ∃ details, challenge_of err = inl details
  end.
Proof.
  unfold answerable, challenge_of.
  destruct (response err) as [r|]; [|destruct (request err); eauto].
  destruct (status r =? 401)%N; [|eauto].
  destruct (www_authenticate r) as [www|]; [|eauto].
  destruct (Digest.parse_challenge www) as [e|c]; eauto.
Qed.

(** Reading the headers object depends on the heap alone. *)
Lemma read_write_header (l : loc) (k v : string) (w : World) :
  read_headers l (write_header l k v w) = <[k := v]> (read_headers l w).
Proof. unfold read_headers at 1. simpl. by rewrite lookup_insert_eq. Qed.

Lemma read_headers_emit (l : loc) (n : string) (p : Payload) (w : World) :
  read_headers l (emit n p w) = read_headers l w.
Proof. reflexivity. Qed.

Lemma read_headers_set_inflight (l : loc) (rs : list Request) (w : World) :
  read_headers l (set_inflight rs w) = read_headers l w.
Proof. reflexivity. Qed.

Lemma read_headers_set_streams (l : loc) (ss : list Stream) (w : World) :
  read_headers l (set_streams ss w) = read_headers l w.
Proof. reflexivity. Qed.

Lemma read_headers_set_timers (l : loc) (ts : list Timer) (w : World) :
  read_headers l (set_timers ts w) = read_headers l w.
Proof. reflexivity. Qed.

Lemma read_headers_set_now (l : loc) (t : N) (w : World) :
  read_headers l (set_now t w) = read_headers l w.
Proof. reflexivity. Qed.

Lemma read_headers_axios_request (l : loc) (cfg : AxiosRequestConfig) (n : N)
    (w : World) :
  read_headers l (axios_request cfg n w) = read_headers l w.
Proof. reflexivity. Qed.

Lemma read_headers_setTimeout (l : loc) (cfg : AxiosRequestConfig) (n ms : N)
    (w : World) :
  read_headers l (setTimeout cfg n ms w) = read_headers l w.
Proof. reflexivity. Qed.

Create Rewrite HintDb world.

#[local] Hint Rewrite read_write_header read_headers_emit read_headers_set_inflight
  read_headers_set_streams read_headers_set_timers read_headers_set_now
  read_headers_axios_request read_headers_setTimeout : world.

Lemma on_rejected_answered (this : DahuaEvents) (cfg : AxiosRequestConfig)
    (count : N) (err : AxiosError) (random : list Z) (w : World)
    (realm nonce : string) :
  answerable err = Some (realm, nonce) →
  on_rejected this cfg count err random w =
    connect (set_headers (HEADERS this) cfg) (count + 1)
      (emit DEBUG_EVENT_NAME
         (PText ("401 received and www-authenticate headers, sending digest auth. Count: "
                 +:+ Num.toString (count + 1)))
         (write_header (HEADERS this) "authorization"
            (digest_value this cfg count realm nonce random) w)).
Proof.
  intros Ha. pose proof (challenge_of_answerable err) as Hc.
  rewrite Ha in Hc. unfold on_rejected. by rewrite Hc.
Qed.

Lemma on_rejected_other (this : DahuaEvents) (cfg : AxiosRequestConfig)
    (count : N) (err : AxiosError) (random : list Z) (w : World) :
  answerable err = None →
  ∃ details,
    on_rejected this cfg count err random w =
      reconnect this cfg RECONNECT_INTERNAL_MS
        (emit ERROR_EVENT_NAME
           (PError {| error := "Error received from host: " +:+ host this;
                      errorDetails := details |}) w).
Proof.
  intros Ha. pose proof (challenge_of_answerable err) as Hc.
  rewrite Ha in Hc. destruct Hc as [details Hc].
  exists details. unfold on_rejected. by rewrite Hc.
Qed.

Lemma step_rejected_answered (this : DahuaEvents) (w : World) (i : nat)
    (r : Request) (err : AxiosError) (random : list Z) (realm nonce : string) :
  inflight w !! i = Some r →
  answerable err = Some (realm, nonce) →
  ∃ w', step this w (Rejected i err random) = Some w'
        ∧ retried_at_once this w i r realm nonce random w'.
Proof.
  intros Hr Ha. simpl. rewrite Hr. simpl.
  eexists; split; [reflexivity|].
  rewrite (on_rejected_answered _ _ _ _ _ _ realm nonce Ha).
  unfold retried_at_once, connect, axios_request. simpl.
  autorewrite with world.
  repeat split; try reflexivity.
  apply set_headers_id.
Qed.

Lemma step_rejected_other (this : DahuaEvents) (w : World) (i : nat)
    (r : Request) (err : AxiosError) (random : list Z) :
  inflight w !! i = Some r →
  answerable err = None →
  ∃ w', step this w (Rejected i err random) = Some w'
        ∧ reported_and_delayed this w i r w'.
Proof.
  intros Hr Ha. simpl. rewrite Hr. simpl.
  eexists; split; [reflexivity|].
  destruct (on_rejected_other this (req_config r) (req_count r) err random
              (set_inflight (delete i (inflight w)) w) Ha) as [details ->].
  unfold reported_and_delayed, reconnect, setTimeout. simpl.
  repeat split; try reflexivity.
  exists details. by rewrite <- app_assoc.
Qed.

(** ** The digest *)

(** The hash is the MD5 of RFC 1321 (its test suite), and the response is
    the one of the worked example of RFC 2617, section 3.5. *)
Example md5_empty : md5 "" = "d41d8cd98f00b204e9800998ecf8427e".
Proof. vm_compute. reflexivity. Qed.

Example md5_abc : md5 "abc" = "900150983cd24fb0d6963f7d28e17f72".
Proof. vm_compute. reflexivity. Qed.

Example md5_two_blocks :
  md5 "12345678901234567890123456789012345678901234567890123456789012345678901234567890"
  = "57edf4a22be3c955ac49da2e2107b67a".
Proof. vm_compute. reflexivity. Qed.

Example rfc2617_response :
  Digest.response_hash "Mufasa" "Circle Of Life" "/dir/index.html"
    "testrealm@host.com" "dcd98b7102dd2f0e8b11d0f600bfb0c093" "00000001" "0a4f113b"
  = "6629fae49393a05397450978507c4ef1".
Proof. vm_compute. reflexivity. Qed.

(** Both header layouts quoted in the source yield the same challenge. *)
Example parse_challenge_compact :
  Digest.parse_challenge Scenario.challenge = inr ("Login to X", "abc123").
Proof. vm_compute. reflexivity. Qed.

Example parse_challenge_spaced :
  Digest.parse_challenge
    ("Digest realm=" +:+ Digest.quoted "Login to X" +:+ ", qop=" +:+ Digest.quoted "auth"
     +:+ ", nonce=" +:+ Digest.quoted "abc123" +:+ ", opaque=" +:+ Digest.quoted "xyz")
  = inr ("Login to X", "abc123").
Proof. vm_compute. reflexivity. Qed.

(** *** The layout the cameras send, for any realm and nonce *)

Lemma includes_app (c : ascii) (s t : string) :
  JS.includes c (s +:+ t) = JS.includes c s || JS.includes c t.
Proof.
  induction s as [|a s IH]; [reflexivity|].
  rewrite app_cons_s. simpl. by destruct (Ascii.eqb a c).
Qed.

Lemma split_without (c : ascii) (s : string) :
  JS.includes c s = false → JS.split c s = [s].
Proof.
  induction s as [|a s IH]; [reflexivity|]. simpl.
  destruct (Ascii.eqb a c); [discriminate|].
  intros H. by rewrite (IH H).
Qed.

Lemma remove_all_without (c : ascii) (s : string) :
  JS.includes c s = false → JS.remove_all c s = s.
Proof.
  induction s as [|a s IH]; [reflexivity|]. simpl.
  destruct (Ascii.eqb a c); [discriminate|].
  intros H. by rewrite (IH H).
Qed.

Lemma remove_all_app (c : ascii) (s t : string) :
  JS.remove_all c (s +:+ t) = JS.remove_all c s +:+ JS.remove_all c t.
Proof.
  induction s as [|a s IH]; [reflexivity|].
  rewrite app_cons_s. simpl. destruct (Ascii.eqb a c); [exact IH|].
  by rewrite app_cons_s, IH.
Qed.

Lemma remove_all_quoted (s : string) :
  JS.includes dquote s = false → JS.remove_all dquote (Digest.quoted s) = s.
Proof.
  intros H. unfold Digest.quoted. rewrite app_cons_s. simpl.
  rewrite remove_all_app, (remove_all_without _ _ H). simpl.
  apply app_nil_r_s.
Qed.

(** A piece without comma that ends in a character that is no white
    space is read as it stands. *)
Lemma split_commas_piece (A : string) : ∀ (cur ws : string) (c : ascii) (rest : string),
  JS.includes ","%char A = false → Ascii.eqb c ","%char = false →
  JS.is_space c = false →
  JS.split_commas_go (A +:+ String c rest) cur ws false
  = JS.split_commas_go rest (cur +:+ ws +:+ A +:+ String c "") "" false.
Proof.
  induction A as [|a A IH]; intros cur ws c rest HA Hc Hsp.
  - rewrite !app_nil_l_s. simpl. by rewrite Hc, Hsp.
  - rewrite !app_cons_s. simpl in HA |- *.
    destruct (Ascii.eqb a ","%char); [discriminate|].
    destruct (JS.is_space a).
    + rewrite (IH _ _ _ _ HA Hc Hsp). f_equal.
      by rewrite !app_assoc_s.
    + rewrite (IH _ _ _ _ HA Hc Hsp). f_equal.
      by rewrite !app_assoc_s.
Qed.

(** The first three fields of a header in the compact layout of line
    117, whatever follows the third. *)
Lemma split_commas_layout (realm qop nonce rest : string) :
  JS.includes ","%char realm = false → JS.includes ","%char qop = false →
  JS.includes ","%char nonce = false →
  ∃ tail,
    JS.split_commas ("Digest realm=" +:+ Digest.quoted realm +:+ ",qop="
                     +:+ Digest.quoted qop +:+ ",nonce=" +:+ Digest.quoted nonce
                     +:+ "," +:+ rest)
    = ("Digest realm=" +:+ Digest.quoted realm)
        :: ("qop=" +:+ Digest.quoted qop)
        :: ("nonce=" +:+ Digest.quoted nonce) :: tail.
Proof.
  intros Hr Hq Hn. unfold JS.split_commas, Digest.quoted.
  assert (∀ (key body more cur : string) (after : bool),
            JS.includes ","%char (key +:+ String dquote body) = false →
            JS.split_commas_go
              ((key +:+ String dquote body) +:+ String dquote (String ","%char more))
              cur "" false
            = (cur +:+ key +:+ String dquote body +:+ String dquote "")
                :: JS.split_commas_go more "" "" true) as Hpiece.
  { intros key body more cur _ Hk.
    rewrite (split_commas_piece _ cur "" dquote _ Hk eq_refl eq_refl).
    simpl. rewrite app_nil_l_s. f_equal. by rewrite !app_assoc_s. }
  eexists.
  replace ("Digest realm=" +:+ (String dquote realm +:+ String dquote "") +:+ ",qop="
           +:+ (String dquote qop +:+ String dquote "") +:+ ",nonce="
           +:+ (String dquote nonce +:+ String dquote "") +:+ "," +:+ rest)
    with (("Digest realm=" +:+ String dquote realm)
          +:+ String dquote (String ","%char
                (String "q"%char
                   (("op=" +:+ String dquote qop)
                    +:+ String dquote (String ","%char
                          (String "n"%char
                             (("once=" +:+ String dquote nonce)
                              +:+ String dquote (String ","%char rest))))))))
    by (rewrite !app_assoc_s; reflexivity).
  rewrite (Hpiece "Digest realm=" realm _ "" false)
    by (rewrite includes_app; simpl; exact Hr).
  rewrite app_nil_l_s. f_equal.
  change (JS.split_commas_go (String "q"%char ?x) "" "" true)
    with (JS.split_commas_go x "q" "" false).
  rewrite (Hpiece "op=" qop _ "q" false)
    by (rewrite includes_app; simpl; exact Hq).
  f_equal.
  change (JS.split_commas_go (String "n"%char ?x) "" "" true)
    with (JS.split_commas_go x "n" "" false).
  rewrite (Hpiece "once=" nonce _ "n" false)
    by (rewrite includes_app; simpl; exact Hn).
  f_equal.
Qed.

(** Every realm and nonce free of [,], [=] and the double quote is what
    the handler reads from the header that announces them in that
    layout. *)
Lemma parse_challenge_layout (realm nonce rest : string) :
  JS.includes ","%char realm = false → JS.includes "="%char realm = false →
  JS.includes dquote realm = false →
  JS.includes ","%char nonce = false → JS.includes "="%char nonce = false →
  JS.includes dquote nonce = false →
  Digest.parse_challenge
    ("Digest realm=" +:+ Digest.quoted realm +:+ ",qop=" +:+ Digest.quoted "auth"
     +:+ ",nonce=" +:+ Digest.quoted nonce +:+ "," +:+ rest)
  = inr (realm, nonce).
Proof.
  intros Hrc Hre Hrq Hnc Hne Hnq. unfold Digest.parse_challenge.
  destruct (split_commas_layout realm "auth" nonce rest Hrc eq_refl Hnc) as [tail ->].
  assert (∀ s, JS.includes "="%char s = false → JS.includes dquote s = false →
               JS.includes "="%char (Digest.quoted s) = false) as Hquoted.
  { intros s Hs _. unfold Digest.quoted. rewrite app_cons_s. simpl.
    rewrite includes_app, Hs. reflexivity. }
  cbn [map JS.index lookup list_lookup].
  change (JS.split "="%char ("Digest realm=" +:+ Digest.quoted realm))
    with ("Digest realm" :: JS.split "="%char (Digest.quoted realm)).
  change (JS.split "="%char ("nonce=" +:+ Digest.quoted nonce))
    with ("nonce" :: JS.split "="%char (Digest.quoted nonce)).
  rewrite !split_without by auto.
  change (JS.index ["Digest realm"; Digest.quoted realm] 1)
    with (Some (Digest.quoted realm)).
  change (JS.index ["nonce"; Digest.quoted nonce] 1)
    with (Some (Digest.quoted nonce)).
  cbv beta iota. by rewrite !remove_all_quoted.
Qed.

Lemma answerable_intro (err : AxiosError) (r : AxiosResponse) (www : string)
    (c : string * string) :
  response err = Some r → status r = 401%N → www_authenticate r = Some www →
  Digest.parse_challenge www = inr c → answerable err = Some c.
Proof.
  intros Hr Hs Hw Hp. unfold answerable. by rewrite Hr, Hs, Hw, Hp.
Qed.

(** The other failure classes of the scenario's target, one by one. *)
Example failure_classes :
  answerable {| response := Some {| status := 503; statusText := "Service Unavailable";
                                    response_headers := [];
                                    data_statusMessage := Some "Service Unavailable" |};
                request := true; message := "Request failed with status code 503" |} = None
  ∧ answerable {| response := Some {| status := 401; statusText := "Unauthorized";
                                      response_headers := [("www-authenticate", "Digest realm")];
                                      data_statusMessage := None |};
                  request := true; message := "Request failed with status code 401" |} = None
  ∧ answerable {| response := Some {| status := 401; statusText := "Unauthorized";
                                      response_headers := [];
                                      data_statusMessage := None |};
                  request := true; message := "Request failed with status code 401" |} = None
  ∧ answerable {| response := None; request := true;
                  message := "connect ECONNREFUSED 10.0.0.5:443" |} = None
  ∧ answerable {| response := None; request := false; message := "Invalid URL" |} = None.
Proof. repeat split; vm_compute; reflexivity. Qed.

(** ** The nonce count *)

(** C5.  For every counter below 10^8 the nonce count is its zero-padded
    8-digit decimal.  While the counter stays below 10^8: the re-attempt
    that answers a 401 has the counter of the rejected request plus one,
    the [nc] of its Authorization header is the zero-padded 8-digit
    decimal of that counter, and the first re-attempt (rejected counter
    0) carries [nc="00000001"]. *)
Theorem nonce_count_of_retry (this : DahuaEvents) (w : World) (i : nat)
    (r : Request) (err : AxiosError) (random : list Z) (realm nonce : string) :
  (req_count r + 1 < 10 ^ 8)%N →
  inflight w !! i = Some r →
  answerable err = Some (realm, nonce) →
  (∀ n, (n < 10 ^ 8)%N → Digest.nonceCount n = zero_padded 8 n)
  ∧ ∃ w' retry,
    step this w (Rejected i err random) = Some w'
    ∧ last (sent w') = Some retry
    ∧ last (inflight w') = Some retry
    ∧ req_count retry = (req_count r + 1)%N
    ∧ String.length (zero_padded 8 (req_count retry)) = 8
    ∧ req_headers retry !! "authorization" =
        Some (Digest.authorization
                (template_username (req_config r)) (template_password (req_config r))
                (eventsWatchUri this) realm nonce
                (zero_padded 8 (req_count retry)) (Hex.of_bytes random))
    ∧ (req_count r = 0%N → zero_padded 8 (req_count retry) = "00000001").
Proof.
  intros Hn Hr Ha. split; [exact nonceCount_padded|].
  destruct (step_rejected_answered this w i r err random realm nonce Hr Ha)
    as (w' & Hstep & _ & _ & Hsent & Hin & _).
  eexists w', _. split; [exact Hstep|].
  rewrite Hsent, Hin, !last_snoc. simpl.
  repeat split; simpl.
  - rewrite <- nonceCount_padded by done. apply nonceCount_length.
  - rewrite lookup_insert_eq. unfold digest_value.
    by rewrite nonceCount_padded.
  - intros ->. reflexivity.
Qed.

Lemma nonce_count_of_retry_witness :
  (req_count Scenario.first_request + 1 < 10 ^ 8)%N
  ∧ ∃ w' retry,
      step Scenario.this Scenario.w0
        (Rejected 0 Scenario.unauthorized Scenario.random) = Some w'
      ∧ last (sent w') = Some retry
      ∧ req_count retry = 1%N
      ∧ zero_padded 8 (req_count retry) = "00000001".
Proof.
  assert (req_count Scenario.first_request + 1 < 10 ^ 8)%N as Hn
    by (vm_compute; reflexivity).
  split; [exact Hn|].
  destruct (nonce_count_of_retry Scenario.this Scenario.w0 0 Scenario.first_request
              Scenario.unauthorized Scenario.random "Login to X" "abc123"
              Hn eq_refl eq_refl)
    as (_ & w' & retry & Hstep & Hlast & _ & Hc & _ & _ & H1).
  exists w', retry. repeat split; [exact Hstep|exact Hlast|exact Hc|].
  apply H1. reflexivity.
Defined.

(** Nothing bounds the chain of immediate retries: as long as every
    attempt is answered by a challenge, the counter keeps growing, one by
    one, and no timer is ever set. *)
Lemma retries_unbounded (this : DahuaEvents) (err : AxiosError) (random : list Z)
    (realm nonce : string) (k : nat) : ∀ (w : World) (r : Request),
  answerable err = Some (realm, nonce) →
  inflight w = [r] →
  ∃ w' r', run this w (repeat (Rejected 0 err random) k) = Some w'
           ∧ inflight w' = [r']
           ∧ req_count r' = (req_count r + N.of_nat k)%N
           ∧ timers w' = timers w
           ∧ now w' = now w.
Proof.
  induction k as [|k IH]; intros w r Ha Hin.
  - exists w, r. simpl. repeat split; [exact Hin|lia].
  - assert (inflight w !! 0 = Some r) as Hr by (by rewrite Hin).
    destruct (step_rejected_answered this w 0 r err random realm nonce Hr Ha)
      as (w1 & Hstep & _ & _ & _ & Hin1 & Htm1 & _ & Hnow1 & _).
    rewrite Hin in Hin1. simpl in Hin1.
    destruct (IH w1 _ Ha Hin1) as (w' & r' & Hrun & Hin' & Hc & Htm & Hnow).
    exists w', r'. cbn [repeat run]. rewrite Hstep. simpl.
    repeat split; [exact Hrun|exact Hin'| |congruence|congruence].
    rewrite Hc. simpl. lia.
Qed.

(** Without the bound the statement fails, at the hundred-millionth
    retry: the slice keeps the eight low-order digits, and the step from
    99999999 is not an increment. *)
Lemma nonce_count_overflow :
  Digest.nonceCount 100000000 = "00000000"
  ∧ zero_padded 8 100000000 = "100000000"
  ∧ Digest.nonceCount 100000000 ≠ zero_padded 8 100000000
  ∧ Digest.nonceCount 99999999 = "99999999".
Proof. repeat split; try (vm_compute; reflexivity). vm_compute. discriminate. Qed.

(** ** Reconnecting *)

Lemma reconnect_message (this : DahuaEvents) :
  {| name := RECONNECTING_EVENT_NAME;
     payload := PText ("Reconnecting to " +:+ host this +:+ " in "
                       +:+ seconds_toString RECONNECT_INTERNAL_MS +:+ "s.") |}
  = reconnecting this.
Proof. reflexivity. Qed.

(** A timer fires only once it is due; firing removes it and issues the
    request it was set for. *)
Lemma timer_fires (this : DahuaEvents) (w : World) (t : nat) (tm : Timer)
    (w' : World) :
  timers w !! t = Some tm →
  step this w (TimerFires t) = Some w' →
  (due tm ≤ now w)%N
  ∧ sent w' = sent w ++ [{| req_config := timer_config tm;
                            req_count := timer_count tm;
                            req_headers := read_headers (headers (timer_config tm)) w;
                            req_time := now w |}]
  ∧ timers w' = delete t (timers w)
  ∧ emitted w' = emitted w
  ∧ heap w' = heap w.
Proof.
  intros Ht. simpl. rewrite Ht. simpl.
  destruct (N.leb_spec (due tm) (now w)) as [Hdue|]; [|discriminate].
  intros [= <-]. split; [exact Hdue|]. repeat split; reflexivity.
Qed.

(** C6.  When an open stream ends or signals an error, the engine emits
    one trace and exactly one reconnecting signal, requests nothing, and
    sets exactly one timer, due 10000 ms after that moment whatever
    happened before; when that timer fires, no less than 10000 ms have
    passed, and what it does is one connection attempt with the same
    configuration and the counter at 0. *)
Theorem reconnect_after_stream_end (this : DahuaEvents) (w : World) (s : nat)
    (st : Stream) (inp : Input) :
  streams w !! s = Some st →
  ended st = false →
  (inp = StreamEnd s ∨ ∃ data, inp = StreamError s data) →
  ∃ w' msg,
    step this w inp = Some w'
    ∧ emitted w' = emitted w ++ [trace msg; reconnecting this]
    ∧ timers w' = timers w ++ [reconnect_timer (stream_config st) (now w)]
    ∧ sent w' = sent w
    ∧ inflight w' = inflight w
    ∧ ∀ w2 t w3,
        timers w2 !! t = Some (reconnect_timer (stream_config st) (now w)) →
        step this w2 (TimerFires t) = Some w3 →
        (now w + 10000 ≤ now w2)%N
        ∧ sent w3 = sent w2 ++ [{| req_config := stream_config st;
                                   req_count := 0;
                                   req_headers :=
                                     read_headers (headers (stream_config st)) w2;
                                   req_time := now w2 |}]
        ∧ timers w3 = delete t (timers w2).
Proof.
  intros Hs He Hinp.
  assert (∀ w2 t w3,
            timers w2 !! t = Some (reconnect_timer (stream_config st) (now w)) →
            step this w2 (TimerFires t) = Some w3 →
            (now w + 10000 ≤ now w2)%N
            ∧ sent w3 = sent w2 ++ [{| req_config := stream_config st;
                                       req_count := 0;
                                       req_headers :=
                                         read_headers (headers (stream_config st)) w2;
                                       req_time := now w2 |}]
            ∧ timers w3 = delete t (timers w2)) as Hfire.
  { intros w2 t w3 Ht Hstep.
    destruct (timer_fires this w2 t _ w3 Ht Hstep) as (Hdue & Hsent & Htm & _).
    auto. }
  destruct Hinp as [->|[data ->]]; simpl; rewrite Hs; simpl; rewrite He.
  - eexists _, _. split; [reflexivity|].
    unfold on_end, reconnect, setTimeout. simpl.
    rewrite reconnect_message, <- app_assoc. auto.
  - eexists _, _. split; [reflexivity|].
    unfold on_error, reconnect, setTimeout. simpl.
    rewrite reconnect_message, <- app_assoc. auto.
Qed.

Lemma reconnect_after_stream_end_witness :
  streams Scenario.open_stream !! 0 = Some Scenario.stream
  ∧ ended Scenario.stream = false
  ∧ ∃ w' msg,
      step Scenario.this Scenario.open_stream (StreamEnd 0) = Some w'
      ∧ emitted w' = emitted Scenario.open_stream
                     ++ [trace msg; reconnecting Scenario.this]
      ∧ timers w' = [reconnect_timer Scenario.config 0].
Proof.
  assert (streams Scenario.open_stream !! 0 = Some Scenario.stream) as Hs
    by (vm_compute; reflexivity).
  split; [exact Hs|]. split; [reflexivity|].
  destruct (reconnect_after_stream_end Scenario.this Scenario.open_stream 0
              Scenario.stream (StreamEnd 0) Hs eq_refl (or_introl eq_refl))
    as (w' & msg & Hstep & Hem & Htm & _).
  exists w', msg. repeat split; [exact Hstep|exact Hem|exact Htm].
Defined.

(** ** The shared headers object across reconnects *)

Lemma parseEventData_world (data : string) (w : World) :
  let w' := (parseEventData data w).2 in
  heap w' = heap w ∧ sent w' = sent w ∧ inflight w' = inflight w
  ∧ streams w' = streams w ∧ timers w' = timers w ∧ now w' = now w.
Proof.
  unfold parseEventData. destruct (parse_try data) as [v [e|]]; simpl; auto 10.
Qed.

Lemma on_data_world (this : DahuaEvents) (data : string) (w : World) :
  let w' := on_data this data w in
  heap w' = heap w ∧ sent w' = sent w ∧ inflight w' = inflight w
  ∧ streams w' = streams w ∧ timers w' = timers w ∧ now w' = now w.
Proof.
  unfold on_data.
  pose proof (parseEventData_world data
                (emit DEBUG_EVENT_NAME
                   (PText ("Response recieved on host: " +:+ host this +:+ ": " +:+ data))
                   w)) as H.
  destruct (parseEventData data _) as [event w2]. simpl in *. exact H.
Qed.

(** A listener runs only on a stream that is known and has not ended. *)
Ltac open_stream Hstep st Hs :=
  match type of Hstep with
  | context [streams ?w !! ?s] =>
      destruct (streams w !! s) as [st|] eqn:Hs; [|discriminate];
      simpl in Hstep; destruct (ended st); [discriminate|];
      injection Hstep as <-
  end.

Lemma shares_headers_init (h user pass : string) (useHttp : bool)
    (events : list string) :
  shares_headers (new_DahuaEvents h user pass useHttp events).1
                 (new_DahuaEvents h user pass useHttp events).2.
Proof.
  unfold shares_headers. simpl. repeat split; repeat constructor.
Qed.

Lemma step_shares_headers (this : DahuaEvents) (w w' : World) (inp : Input) :
  shares_headers this w → step this w inp = Some w' → shares_headers this w'.
Proof.
  intros (Hin & Hst & Htm) Hstep.
  destruct inp as [i res|i err random|s data|s|s data|s|dt|t];
    [|idtac|..]; [simpl in Hstep|idtac|simpl in Hstep..].
  - destruct (inflight w !! i) as [r|] eqn:Hr; simplify_eq/=.
    repeat split; simpl; auto using Forall_delete.
    apply Forall_app; split; [done|]. repeat constructor. simpl.
    exact (Forall_lookup_1 _ _ _ _ Hin Hr).
  - assert (is_Some (inflight w !! i)) as [r Hr].
    { simpl in Hstep. destruct (inflight w !! i); [eauto|discriminate]. }
    pose proof (Forall_lookup_1 _ _ _ _ Hin Hr) as Hcfg. simpl in Hcfg.
    destruct (answerable err) as [[realm nonce]|] eqn:Ha.
    + destruct (step_rejected_answered this w i r err random realm nonce Hr Ha)
        as (w1 & Hstep1 & _ & _ & _ & Hin1 & Htm1 & Hst1 & _).
      rewrite Hstep1 in Hstep. injection Hstep as <-.
      unfold shares_headers. rewrite Hin1, Htm1, Hst1.
      repeat split; auto.
      apply Forall_app; split; [by apply Forall_delete|]. by repeat constructor.
    + destruct (step_rejected_other this w i r err random Hr Ha)
        as (w1 & Hstep1 & _ & Htm1 & _ & Hin1 & Hst1 & _).
      rewrite Hstep1 in Hstep. injection Hstep as <-.
      unfold shares_headers. rewrite Hin1, Htm1, Hst1.
      repeat split; auto using Forall_delete.
      apply Forall_app; split; [done|]. by repeat constructor.
  - open_stream Hstep st Hs. unfold shares_headers.
    destruct (on_data_world this data w) as (_ & _ & -> & -> & -> & _).
    by repeat split.
  - destruct (streams w !! s) as [st|]; simplify_eq/=.
    repeat split; simpl; auto using Forall_delete.
  - open_stream Hstep st Hs.
    pose proof (Forall_lookup_1 _ _ _ _ Hst Hs) as Hcfg. simpl in Hcfg.
    repeat split; simpl; auto.
    + apply Forall_alter; [done|]. by intros st' _ Hst'.
    + apply Forall_app; split; [done|]. by repeat constructor.
  - open_stream Hstep st Hs.
    pose proof (Forall_lookup_1 _ _ _ _ Hst Hs) as Hcfg. simpl in Hcfg.
    repeat split; simpl; auto.
    + apply Forall_alter; [done|]. by intros st' _ Hst'.
    + apply Forall_app; split; [done|]. by repeat constructor.
  - injection Hstep as <-. by repeat split.
  - destruct (timers w !! t) as [tm|] eqn:Ht; [|discriminate]. simpl in Hstep.
    destruct (due tm <=? now w)%N; [|discriminate]. injection Hstep as <-.
    pose proof (Forall_lookup_1 _ _ _ _ Htm Ht) as [Hcfg _]. simpl in Hcfg.
    repeat split; simpl; auto using Forall_delete.
    apply Forall_app; split; [done|]. by repeat constructor.
Qed.

Lemma run_shares_headers (this : DahuaEvents) (inputs : list Input) :
  ∀ w w', shares_headers this w → run this w inputs = Some w' →
          shares_headers this w'.
Proof.
  induction inputs as [|inp inputs IH]; intros w w' Hw Hrun; simpl in Hrun.
  - by injection Hrun as <-.
  - destruct (step this w inp) as [w1|] eqn:Hstep; [|discriminate].
    simpl in Hrun. eauto using step_shares_headers.
Qed.

(** Only an answered challenge writes to the heap. *)
Lemma step_quiet_heap (this : DahuaEvents) (w w' : World) (inp : Input) :
  quiet inp → step this w inp = Some w' → heap w' = heap w.
Proof.
  intros Hq Hstep.
  destruct inp as [i res|i err random|s data|s|s data|s|dt|t];
    [|idtac|..]; [simpl in Hstep|idtac|simpl in Hstep..].
  - destruct (inflight w !! i) as [r|]; simplify_eq/=. reflexivity.
  - assert (is_Some (inflight w !! i)) as [r Hr].
    { simpl in Hstep. destruct (inflight w !! i); [eauto|discriminate]. }
    destruct (step_rejected_other this w i r err random Hr Hq)
      as (w1 & Hstep1 & _ & _ & _ & _ & _ & Hheap & _).
    rewrite Hstep1 in Hstep. by injection Hstep as <-.
  - open_stream Hstep st Hs.
    by destruct (on_data_world this data w) as (-> & _).
  - destruct (streams w !! s) as [st|]; simplify_eq/=. reflexivity.
  - by open_stream Hstep st Hs.
  - by open_stream Hstep st Hs.
  - by injection Hstep as <-.
  - destruct (timers w !! t) as [tm|]; [|discriminate]. simpl in Hstep.
    destruct (due tm <=? now w)%N; [|discriminate]. by injection Hstep as <-.
Qed.

Lemma run_quiet_heap (this : DahuaEvents) (inputs : list Input) :
  ∀ w w', Forall quiet inputs → run this w inputs = Some w' → heap w' = heap w.
Proof.
  induction inputs as [|inp inputs IH]; intros w w' Hq Hrun; simpl in Hrun.
  - by injection Hrun as <-.
  - destruct (step this w inp) as [w1|] eqn:Hstep; [|discriminate].
    simpl in Hrun. inversion Hq as [|? ? Hq1 Hq2]; subst.
    rewrite (IH _ _ Hq2 Hrun). eauto using step_quiet_heap.
Qed.

(** C7.  The challenge itself is used once, by the handler of the 401
    that carries it, but the Authorization header computed from it is
    stored in the shared headers object and no reconnect clears it: as
    long as no later 401 is answered, the connection attempt a reconnect
    timer starts has the counter 0 and carries the Authorization header
    computed from that earlier challenge. *)
Theorem authorization_outlives_reconnect (h user pass : string) (useHttp : bool)
    (events : list string) (before : list Input) (w0 : World) (i : nat)
    (r : Request) (err : AxiosError) (random : list Z) (realm nonce : string)
    (w1 : World) (between : list Input) (w2 : World) (t : nat) (w3 : World) :
  let this := (new_DahuaEvents h user pass useHttp events).1 in
  run this (new_DahuaEvents h user pass useHttp events).2 before = Some w0 →
  inflight w0 !! i = Some r →
  answerable err = Some (realm, nonce) →
  step this w0 (Rejected i err random) = Some w1 →
  Forall quiet between →
  run this w1 between = Some w2 →
  step this w2 (TimerFires t) = Some w3 →
  ∃ rq, last (sent w3) = Some rq
        ∧ req_count rq = 0%N
        ∧ req_time rq = now w2
        ∧ req_headers rq !! "authorization"
          = Some (digest_value this (req_config r) (req_count r) realm nonce random).
Proof.
  intros this Hw0 Hr Ha Hw1 Hq Hw2 Hw3.
  pose proof (run_shares_headers this before _ _
                (shares_headers_init h user pass useHttp events) Hw0) as Hsh0.
  pose proof (step_shares_headers this _ _ _ Hsh0 Hw1) as Hsh1.
  pose proof (run_shares_headers this between _ _ Hsh1 Hw2) as (_ & _ & Htm).
  destruct (step_rejected_answered this w0 i r err random realm nonce Hr Ha)
    as (w1' & Hw1' & Hheap & _).
  rewrite Hw1 in Hw1'. injection Hw1' as <-.
  pose proof (run_quiet_heap this between _ _ Hq Hw2) as Hheap2.
  assert (is_Some (timers w2 !! t)) as [tm Ht].
  { simpl in Hw3. destruct (timers w2 !! t); [eauto|discriminate]. }
  destruct (timer_fires this w2 t tm w3 Ht Hw3) as (_ & Hsent & _).
  destruct (Forall_lookup_1 _ _ _ _ Htm Ht) as [Hcfg Hcount].
  eexists. rewrite Hsent, last_snoc. split; [reflexivity|]. simpl.
  repeat split; [exact Hcount|].
  rewrite Hcfg. unfold read_headers. rewrite Hheap2, Hheap.
  rewrite lookup_insert_eq. simpl. by rewrite lookup_insert_eq.
Qed.

Lemma authorization_outlives_reconnect_witness :
  run Scenario.this Scenario.w0 [] = Some Scenario.w0
  ∧ step Scenario.this Scenario.w0 (Rejected 0 Scenario.unauthorized Scenario.random)
    = Some Scenario.after_challenge
  ∧ run Scenario.this Scenario.after_challenge Scenario.until_due
    = Some Scenario.reconnect_due
  ∧ step Scenario.this Scenario.reconnect_due (TimerFires 0)
    = Some Scenario.reconnected
  ∧ ∃ rq, last (sent Scenario.reconnected) = Some rq
          ∧ req_count rq = 0%N
          ∧ req_time rq = 10000%N
          ∧ req_headers rq !! "authorization"
            = Some (digest_value Scenario.this Scenario.config 0
                      "Login to X" "abc123" Scenario.random).
Proof.
  assert (step Scenario.this Scenario.w0
            (Rejected 0 Scenario.unauthorized Scenario.random)
          = Some Scenario.after_challenge) as H1 by (vm_compute; reflexivity).
  assert (run Scenario.this Scenario.after_challenge Scenario.until_due
          = Some Scenario.reconnect_due) as H2 by (vm_compute; reflexivity).
  assert (step Scenario.this Scenario.reconnect_due (TimerFires 0)
          = Some Scenario.reconnected) as H3 by (vm_compute; reflexivity).
  assert (Forall quiet Scenario.until_due) as Hq by (repeat constructor).
  split; [reflexivity|]. split; [exact H1|].
  split; [exact H2|]. split; [exact H3|].
  exact (authorization_outlives_reconnect "10.0.0.5" "admin" "pass" false
           ["VideoMotion"] [] Scenario.w0 0 Scenario.first_request
           Scenario.unauthorized Scenario.random "Login to X" "abc123"
           Scenario.after_challenge Scenario.until_due Scenario.reconnect_due 0
           Scenario.reconnected eq_refl eq_refl eq_refl H1 Hq H2 H3).
Defined.

(** The specification's statement fails in the scenario: the attempt
    made 10000 ms after the stream ended carries an [authorization]
    header. *)
Lemma stale_authorization_sent :
  ¬ fresh_attempts_unauthenticated Scenario.this Scenario.w0.
Proof.
  intros Hspec.
  assert (run Scenario.this Scenario.w0
            (Rejected 0 Scenario.unauthorized Scenario.random :: Scenario.until_due)
          = Some Scenario.reconnect_due) as H1 by (vm_compute; reflexivity).
  assert (step Scenario.this Scenario.reconnect_due (TimerFires 0)
          = Some Scenario.reconnected) as H2 by (vm_compute; reflexivity).
  assert (last (sent Scenario.reconnected) = Some Scenario.fresh_attempt) as H3
    by (vm_compute; reflexivity).
  pose proof (Hspec _ _ _ _ _ H1 H2 H3) as Habs.
  vm_compute in Habs. discriminate.
Qed.

(** ** The event record parser *)

Lemma parse_line_skips (l : string) (v : Parsed.t) :
  JS.includes ";"%char l = false → parse_line l v = (v, None).
Proof. intros H. unfold parse_line. by rewrite H. Qed.

Lemma parse_line_complete (l : string) (v f : Parsed.t) :
  JS.includes ";"%char l = true → fields_of l = Some f →
  parse_line l v = (f, None).
Proof.
  intros Hq Hf. unfold parse_line, fields_of in *. rewrite Hq.
  destruct (JS.split ";"%char l) as [|a0 [|a1 [|a2 rest]]]; try discriminate.
  simpl. by injection Hf as <-.
Qed.

(** When every record line has its three fields the loop ends normally,
    with the fields of the last record line, or with the variables it
    started from when there is none. *)
Lemma forEach_complete (lines : list string) : ∀ v : Parsed.t,
  Forall (fun l => is_Some (fields_of l))
         (filter (fun l => JS.includes ";"%char l = true) lines) →
  ∃ res, forEach parse_line lines v = (res, None)
         ∧ match last (filter (fun l => JS.includes ";"%char l = true) lines) with
           | Some l => fields_of l = Some res
           | None => res = v
           end.
Proof.
  induction lines as [|x rest IH]; intros v Hall; [by exists v|].
  rewrite filter_cons in Hall |- *. simpl.
  destruct (decide (JS.includes ";"%char x = true)) as [Hq|Hq].
  - inversion Hall as [|? ? [f Hf] Hrest]; subst.
    rewrite (parse_line_complete x v f Hq Hf).
    destruct (IH f Hrest) as (res & Hres & Hlast).
    exists res. split; [exact Hres|].
    rewrite last_cons.
    destruct (last (filter _ rest)); [exact Hlast|by subst].
  - rewrite (parse_line_skips x v) by by destruct (JS.includes _ x).
    exact (IH v Hall).
Qed.

Lemma parseEventData_try (data : string) (w : World) :
  (parseEventData data w).1 = (parse_try data).1.
Proof. unfold parseEventData. by destruct (parse_try data) as [v [e|]]. Qed.

(** C3.  On a buffer whose only line has one [;], the loop is left by an
    exception after two assignments, and the object returned keeps them:
    it is not the sentinel.  When an earlier line was complete, its index
    stays as well. *)
Theorem partial_record_survives_exception (w : World) :
  parse_try "Code=X;action=Start"
  = (Parsed.mk "Start" (JInt (-999)) "X", Some (reading_of_undefined "substr"))
  ∧ (parseEventData "Code=X;action=Start" w).1 = Parsed.mk "Start" (JInt (-999)) "X"
  ∧ (parseEventData "Code=X;action=Start" w).1 ≠ sentinel
  ∧ (parseEventData Scenario.truncated_last w).1 = Parsed.mk "Stop" (JInt 3) "B".
Proof.
  rewrite !parseEventData_try.
  repeat split; try (vm_compute; reflexivity).
  vm_compute. discriminate.
Qed.

(** C4.  For a buffer with two or more record lines, each of which has at
    least three [;]-separated pieces, one call returns exactly the
    eventType, action and index of the last record line, and raises
    nothing inside. *)
Theorem last_record_wins (data : string) (w : World) :
  2 ≤ length (qualifying_lines data) →
  Forall (fun l => is_Some (fields_of l)) (qualifying_lines data) →
  last_line_wins data
  ∧ (parse_try data).2 = None
  ∧ parseEventData data w = ((parse_try data).1, w).
Proof.
  intros Hlen Hall. unfold last_line_wins, parseEventData, parse_try, qualifying_lines in *.
  destruct (forEach_complete (JS.split LF data) sentinel Hall) as (res & -> & Hlast).
  simpl. repeat split.
  destruct (last (filter _ (JS.split LF data))) as [l|] eqn:Hl; [by exists l|].
  apply last_None in Hl. rewrite Hl in Hlen. simpl in Hlen. lia.
Qed.

Lemma last_record_wins_witness :
  2 ≤ length (qualifying_lines Scenario.two_records)
  ∧ Forall (fun l => is_Some (fields_of l)) (qualifying_lines Scenario.two_records)
  ∧ (parse_try Scenario.two_records).1 = Parsed.mk "Stop" (JInt 1) "VideoBlind"
  ∧ last_line_wins Scenario.two_records.
Proof.
  assert (qualifying_lines Scenario.two_records
          = ["Code=VideoMotion;action=Start;index=3"; "Code=VideoBlind;action=Stop;index=1"])
    as Hq by (vm_compute; reflexivity).
  assert (2 ≤ length (qualifying_lines Scenario.two_records)) as Hlen
    by (rewrite Hq; simpl; lia).
  assert (Forall (fun l => is_Some (fields_of l)) (qualifying_lines Scenario.two_records))
    as Hall by (rewrite Hq; repeat constructor; by eexists).
  split; [exact Hlen|]. split; [exact Hall|]. split; [vm_compute; reflexivity|].
  exact (proj1 (last_record_wins Scenario.two_records empty_world Hlen Hall)).
Defined.

(** Without that condition the statement fails: when the first of two
    record lines lacks its index, the loop ends there and the complete
    last line is never read. *)
Lemma last_record_lost :
  2 ≤ length (qualifying_lines Scenario.truncated_first)
  ∧ last (qualifying_lines Scenario.truncated_first) = Some "Code=B;action=Stop;index=1"
  ∧ fields_of "Code=B;action=Stop;index=1" = Some (Parsed.mk "Stop" (JInt 1) "B")
  ∧ (parse_try Scenario.truncated_first).1 = Parsed.mk "Start" (JInt (-999)) "A"
  ∧ ¬ last_line_wins Scenario.truncated_first.
Proof.
  assert (last (qualifying_lines Scenario.truncated_first)
          = Some "Code=B;action=Stop;index=1") as Hlast by (vm_compute; reflexivity).
  split; [vm_compute; lia|]. split; [exact Hlast|].
  split; [vm_compute; reflexivity|]. split; [vm_compute; reflexivity|].
  intros (l & Hl & Hf). rewrite Hlast in Hl. injection Hl as <-.
  vm_compute in Hf. discriminate.
Qed.

(** ** The data listener *)

Lemma signals_named_snoc (n : string) (l : list Emission) (e : Emission) :
  Forall (fun x => name x ≠ n) l → name e = n →
  signals_named n (l ++ [e]) = [e].
Proof.
  intros Hl He. unfold signals_named. rewrite filter_app.
  replace (filter (fun x => name x = n) l) with (@nil Emission).
  - simpl. rewrite filter_cons. by destruct (decide (name e = n)).
  - induction Hl as [|x l Hx _ IH]; [reflexivity|].
    rewrite filter_cons. by destruct (decide (name x = n)).
Qed.

(** What the listener adds to the signals: traces, then the alarm built
    from what the parser returned. *)
Lemma on_data_emitted (this : DahuaEvents) (data : string) (w : World) :
  ∃ traces,
    emitted (on_data this data w)
    = emitted w ++ traces ++ [alarm (stamped (parse_try data).1 (host this))]
    ∧ Forall (fun e => name e = DEBUG_EVENT_NAME) traces
    ∧ ((parse_try data).2 = None →
       traces = [trace ("Response recieved on host: " +:+ host this +:+ ": " +:+ data)]).
Proof.
  unfold on_data, parseEventData.
  destruct (parse_try data) as [v [e|]]; simpl.
  - eexists [_; _]. rewrite <- !app_assoc. simpl.
    split; [reflexivity|]. split; [by repeat constructor|discriminate].
  - eexists [_]. rewrite <- !app_assoc. simpl.
    split; [reflexivity|]. split; [by repeat constructor|reflexivity].
Qed.

Lemma step_data (this : DahuaEvents) (w : World) (s : nat) (st : Stream)
    (data : string) :
  streams w !! s = Some st → ended st = false →
  step this w (StreamData s data) = Some (on_data this data w).
Proof. intros Hs He. simpl. rewrite Hs. simpl. by rewrite He. Qed.

(** C8.  A chunk that is the single line
    [Code=VideoMotion;action=Start;index=0] makes the listener publish
    one trace and exactly one alarm, with eventType VideoMotion, action
    Start, index 0 and the host of the instance; these are the three
    pieces of the line without their first 5, 7 and 6 characters, the
    last one converted to a number. *)
Theorem motion_start_alarm (this : DahuaEvents) (w : World) (s : nat) (st : Stream) :
  let line := "Code=VideoMotion;action=Start;index=0" in
  streams w !! s = Some st →
  ended st = false →
  ∃ w', step this w (StreamData s line) = Some w'
        ∧ emitted w' = emitted w ++
            [trace ("Response recieved on host: " +:+ host this +:+ ": " +:+ line);
             alarm (DahuaAlarm.mk "VideoMotion" "Start" (JInt 0) (host this))]
        ∧ JS.split ";"%char line = ["Code=VideoMotion"; "action=Start"; "index=0"]
        ∧ JS.substr 5 "Code=VideoMotion" = "VideoMotion"
        ∧ JS.substr 7 "action=Start" = "Start"
        ∧ Num.Number (JS.substr 6 "index=0") = JInt 0.
Proof.
  intros line Hs He. exists (on_data this line w).
  split; [exact (step_data this w s st line Hs He)|].
  split; [|repeat split; vm_compute; reflexivity].
  destruct (on_data_emitted this line w) as (traces & -> & _ & Htr).
  rewrite Htr by (vm_compute; reflexivity).
  reflexivity.
Qed.

Lemma motion_start_alarm_witness :
  streams Scenario.open_stream !! 0 = Some Scenario.stream
  ∧ ended Scenario.stream = false
  ∧ ∃ w', step Scenario.this Scenario.open_stream
            (StreamData 0 "Code=VideoMotion;action=Start;index=0") = Some w'
          ∧ signals_named ALARM_EVENT_NAME (emitted w')
            = [alarm (DahuaAlarm.mk "VideoMotion" "Start" (JInt 0) "10.0.0.5")].
Proof.
  assert (streams Scenario.open_stream !! 0 = Some Scenario.stream) as Hs
    by (vm_compute; reflexivity).
  split; [exact Hs|]. split; [reflexivity|].
  destruct (motion_start_alarm Scenario.this Scenario.open_stream 0 Scenario.stream
              Hs eq_refl) as (w' & Hstep & Hem & _).
  exists w'. split; [exact Hstep|].
  rewrite Hem. vm_compute. reflexivity.
Defined.

(** C9.  Every chunk delivered to the data listener of an open stream
    makes it publish exactly one alarm, after one or two traces and
    nothing else; the alarm carries what the parser returned and the host
    of the instance, so for a chunk without any record line it is the
    sentinel [action=""], [index=-999], [eventType=""] with that host. *)
Theorem one_alarm_per_chunk (this : DahuaEvents) (w : World) (s : nat) (st : Stream)
    (data : string) :
  streams w !! s = Some st →
  ended st = false →
  ∃ w' traces a,
    step this w (StreamData s data) = Some w'
    ∧ emitted w' = emitted w ++ traces ++ [alarm a]
    ∧ Forall (fun e => name e = DEBUG_EVENT_NAME) traces
    ∧ signals_named ALARM_EVENT_NAME (traces ++ [alarm a]) = [alarm a]
    ∧ a = stamped (parseEventData data w).1 (host this)
    ∧ (qualifying_lines data = [] →
       a = DahuaAlarm.mk "" "" (JInt (-999)) (host this)).
Proof.
  intros Hs He.
  destruct (on_data_emitted this data w) as (traces & Hem & Htr & _).
  exists (on_data this data w), traces, (stamped (parse_try data).1 (host this)).
  split; [exact (step_data this w s st data Hs He)|].
  split; [exact Hem|]. split; [exact Htr|].
  split; [|split].
  - apply signals_named_snoc; [|reflexivity].
    eapply Forall_impl; [exact Htr|]. intros e ->. discriminate.
  - by rewrite parseEventData_try.
  - intros Hq. unfold parse_try, qualifying_lines in *.
    destruct (forEach_complete (JS.split LF data) sentinel) as (res & -> & Hlast).
    { rewrite Hq. constructor. }
    rewrite Hq in Hlast. simpl in Hlast. by subst.
Qed.

Lemma one_alarm_per_chunk_witness :
  streams Scenario.open_stream !! 0 = Some Scenario.stream
  ∧ ended Scenario.stream = false
  ∧ qualifying_lines ("--myboundary" +:+ String LF "Content-Type: text/plain") = []
  ∧ ∃ w', step Scenario.this Scenario.open_stream
            (StreamData 0 ("--myboundary" +:+ String LF "Content-Type: text/plain"))
          = Some w'
          ∧ signals_named ALARM_EVENT_NAME (emitted w')
            = [alarm (DahuaAlarm.mk "" "" (JInt (-999)) "10.0.0.5")].
Proof.
  assert (streams Scenario.open_stream !! 0 = Some Scenario.stream) as Hs
    by (vm_compute; reflexivity).
  assert (qualifying_lines ("--myboundary" +:+ String LF "Content-Type: text/plain") = [])
    as Hq by (vm_compute; reflexivity).
  split; [exact Hs|]. split; [reflexivity|]. split; [exact Hq|].
  destruct (one_alarm_per_chunk Scenario.this Scenario.open_stream 0 Scenario.stream
              ("--myboundary" +:+ String LF "Content-Type: text/plain") Hs eq_refl)
    as (w' & traces & a & Hstep & Hem & Htr & Hone & _ & Ha).
  exists w'. split; [exact Hstep|].
  rewrite Hem, (Ha Hq). unfold signals_named in *.
  rewrite filter_app. rewrite (Ha Hq) in Hone. rewrite Hone.
  vm_compute. reflexivity.
Defined.

(** C10.  There is a record line, [Code=X;action=Start;index=abc], whose
    index text is not numeric: the parser ends normally and returns for
    the index the value NaN, which is neither an integer nor the
    sentinel, and the listener publishes the alarm with that index. *)
Theorem non_numeric_index_is_published :
  ∃ line,
    JS.includes ";"%char line = true
    ∧ JS.index (JS.split ";"%char line) 2 = Some "index=abc"
    ∧ parse_try line = (Parsed.mk "Start" NaN "X", None)
    ∧ (∀ z, Parsed.index (parse_try line).1 ≠ JInt z)
    ∧ Parsed.index (parse_try line).1 ≠ Parsed.index sentinel
    ∧ ∀ (this : DahuaEvents) (w : World),
        emitted (on_data this line w)
        = emitted w ++
            [trace ("Response recieved on host: " +:+ host this +:+ ": " +:+ line);
             alarm (DahuaAlarm.mk "X" "Start" NaN (host this))].
Proof.
  exists "Code=X;action=Start;index=abc".
  assert (parse_try "Code=X;action=Start;index=abc" = (Parsed.mk "Start" NaN "X", None))
    as Hp by (vm_compute; reflexivity).
  split; [vm_compute; reflexivity|]. split; [vm_compute; reflexivity|].
  split; [exact Hp|].
  split; [rewrite Hp; discriminate|]. split; [rewrite Hp; discriminate|].
  intros this w.
  destruct (on_data_emitted this "Code=X;action=Start;index=abc" w)
    as (traces & -> & _ & Htr).
  rewrite Htr, Hp by (by rewrite Hp). reflexivity.
Qed.

(** * Further properties of the engine *)

(** ** One activity per target *)

Lemma open_count_app (l1 l2 : list Stream) :
  open_count (l1 ++ l2) = open_count l1 + open_count l2.
Proof. induction l1 as [|s l1 IH]; simpl; [reflexivity|]. rewrite IH. lia. Qed.

Lemma open_count_delete (l : list Stream) : ∀ (s : nat) (st : Stream),
  l !! s = Some st →
  open_count (delete s l) + (if ended st then 0 else 1) = open_count l.
Proof.
  induction l as [|x l IH]; intros [|s] st Hs; simplify_eq/=; [lia|].
  rewrite <- (IH s st Hs). lia.
Qed.

Lemma open_count_end (l : list Stream) : ∀ (s : nat) (st : Stream),
  l !! s = Some st → ended st = false →
  open_count (alter (fun st => {| stream_config := stream_config st; ended := true |}) s l) + 1
  = open_count l.
Proof.
  induction l as [|x l IH]; intros [|s] st Hs He; simplify_eq/=.
  - rewrite He. lia.
  - rewrite <- (IH s st Hs He). lia.
Qed.

Lemma open_count_none (l : list Stream) (s : nat) (st : Stream) :
  open_count l = 0 → l !! s = Some st → ended st = true.
Proof.
  revert s. induction l as [|x l IH]; intros [|s] H0 Hs; simplify_eq/=.
  - destruct (ended st); [reflexivity|discriminate].
  - apply (IH s); [lia|exact Hs].
Qed.

Lemma length_delete_lookup {A} (l : list A) (i : nat) (x : A) :
  l !! i = Some x → length (delete i l) + 1 = length l.
Proof.
  intros H. rewrite length_delete by eauto.
  apply lookup_lt_Some in H. lia.
Qed.

(** Every step hands the activity on: what was pending is replaced by
    exactly one successor, unless a stream is closed before it ended. *)
Lemma step_pending (this : DahuaEvents) (w w' : World) (inp : Input) :
  step this w inp = Some w' → close_after_end w inp = true →
  pending w' = pending w.
Proof.
  intros Hstep Hclose. unfold pending.
  destruct inp as [i res|i err random|s data|s|s data|s|dt|t];
    [|idtac|..]; [simpl in Hstep|idtac|simpl in Hstep..].
  - destruct (inflight w !! i) as [r|] eqn:Hr; simplify_eq/=.
    rewrite open_count_app. simpl.
    pose proof (length_delete_lookup _ _ _ Hr). lia.
  - assert (is_Some (inflight w !! i)) as [r Hr].
    { simpl in Hstep. destruct (inflight w !! i); [eauto|discriminate]. }
    pose proof (length_delete_lookup _ _ _ Hr) as Hlen.
    destruct (answerable err) as [[realm nonce]|] eqn:Ha.
    + destruct (step_rejected_answered this w i r err random realm nonce Hr Ha)
        as (w1 & Hstep1 & _ & _ & _ & Hin1 & Htm1 & Hst1 & _).
      rewrite Hstep1 in Hstep. injection Hstep as <-.
      rewrite Hin1, Htm1, Hst1, length_app. simpl. lia.
    + destruct (step_rejected_other this w i r err random Hr Ha)
        as (w1 & Hstep1 & _ & Htm1 & _ & Hin1 & Hst1 & _).
      rewrite Hstep1 in Hstep. injection Hstep as <-.
      rewrite Hin1, Htm1, Hst1, length_app. simpl. lia.
  - open_stream Hstep st Hs.
    by destruct (on_data_world this data w) as (_ & _ & -> & -> & -> & _).
  - simpl in Hclose.
    destruct (streams w !! s) as [st|] eqn:Hs; simplify_eq/=.
    pose proof (open_count_delete _ _ _ Hs) as Hd. rewrite Hclose in Hd. lia.
  - destruct (streams w !! s) as [st|] eqn:Hs; [|discriminate]. simpl in Hstep.
    destruct (ended st) eqn:He; [discriminate|]. injection Hstep as <-.
    simpl. rewrite length_app. simpl.
    pose proof (open_count_end _ _ _ Hs He). lia.
  - destruct (streams w !! s) as [st|] eqn:Hs; [|discriminate]. simpl in Hstep.
    destruct (ended st) eqn:He; [discriminate|]. injection Hstep as <-.
    simpl. rewrite length_app. simpl.
    pose proof (open_count_end _ _ _ Hs He). lia.
  - by injection Hstep as <-.
  - destruct (timers w !! t) as [tm|] eqn:Ht; [|discriminate]. simpl in Hstep.
    destruct (due tm <=? now w)%N; [|discriminate]. injection Hstep as <-.
    simpl. rewrite length_app. simpl.
    pose proof (length_delete_lookup _ _ _ Ht). lia.
Qed.

Lemma run_pending (this : DahuaEvents) (inputs : list Input) : ∀ w w',
  run this w inputs = Some w' → orderly this w inputs → pending w' = pending w.
Proof.
  induction inputs as [|inp inputs IH]; intros w w' Hrun Hord; simpl in *.
  - by injection Hrun as <-.
  - destruct Hord as [Hclose Hord].
    destruct (step this w inp) as [w1|] eqn:Hstep; [|discriminate].
    simpl in Hrun. rewrite (IH _ _ Hrun Hord).
    exact (step_pending this w w1 inp Hstep Hclose).
Qed.

(** X1.  From the constructor on, as long as no stream is closed before
    it has ended or failed, exactly one thing is pending for the target
    at any time: one request in flight, or one open stream, or one
    reconnect timer.  There is never a second connection, and never
    none. *)
Theorem one_activity_per_target (h user pass : string) (useHttp : bool)
    (events : list string) (inputs : list Input) (w : World) :
  let this := (new_DahuaEvents h user pass useHttp events).1 in
  let w0 := (new_DahuaEvents h user pass useHttp events).2 in
  run this w0 inputs = Some w →
  orderly this w0 inputs →
  pending w = 1.
Proof.
  intros this w0 Hrun Hord.
  rewrite (run_pending this inputs w0 w Hrun Hord). reflexivity.
Qed.

Lemma one_activity_per_target_witness :
  run Scenario.this Scenario.w0
    (Rejected 0 Scenario.unauthorized Scenario.random :: Scenario.until_due)
  = Some Scenario.reconnect_due
  ∧ pending Scenario.reconnect_due = 1
  ∧ length (timers Scenario.reconnect_due) = 1.
Proof.
  assert (run Scenario.this Scenario.w0
            (Rejected 0 Scenario.unauthorized Scenario.random :: Scenario.until_due)
          = Some Scenario.reconnect_due) as Hrun by (vm_compute; reflexivity).
  split; [exact Hrun|]. split; [|vm_compute; reflexivity].
  apply (one_activity_per_target "10.0.0.5" "admin" "pass" false ["VideoMotion"]
           (Rejected 0 Scenario.unauthorized Scenario.random :: Scenario.until_due)
           Scenario.reconnect_due Hrun).
  vm_compute. repeat split.
Defined.

(** ** A close without end *)

(** Once nothing is pending, nothing happens any more: no input makes
    the engine issue a request or set a timer. *)
Lemma step_idle (this : DahuaEvents) (w w' : World) (inp : Input) :
  pending w = 0 → step this w inp = Some w' →
  pending w' = 0 ∧ sent w' = sent w.
Proof.
  unfold pending. intros H0 Hstep.
  assert (inflight w = []) as Hin by (apply length_zero_iff_nil; lia).
  assert (timers w = []) as Htm by (apply length_zero_iff_nil; lia).
  assert (open_count (streams w) = 0) as Hop by lia.
  destruct inp as [i res|i err random|s data|s|s data|s|dt|t]; simpl in Hstep.
  - rewrite Hin in Hstep. discriminate.
  - rewrite Hin in Hstep. discriminate.
  - destruct (streams w !! s) as [st|] eqn:Hs; [|discriminate]. simpl in Hstep.
    by rewrite (open_count_none _ _ _ Hop Hs) in Hstep.
  - destruct (streams w !! s) as [st|] eqn:Hs; simplify_eq/=.
    split; [|reflexivity]. rewrite Hin, Htm. simpl.
    pose proof (open_count_delete _ _ _ Hs). lia.
  - destruct (streams w !! s) as [st|] eqn:Hs; [|discriminate]. simpl in Hstep.
    by rewrite (open_count_none _ _ _ Hop Hs) in Hstep.
  - destruct (streams w !! s) as [st|] eqn:Hs; [|discriminate]. simpl in Hstep.
    by rewrite (open_count_none _ _ _ Hop Hs) in Hstep.
  - injection Hstep as <-. simpl. split; [lia|reflexivity].
  - rewrite Htm in Hstep. discriminate.
Qed.

Lemma run_idle (this : DahuaEvents) (inputs : list Input) : ∀ w w',
  pending w = 0 → run this w inputs = Some w' →
  pending w' = 0 ∧ sent w' = sent w.
Proof.
  induction inputs as [|inp inputs IH]; intros w w' H0 Hrun; simpl in Hrun.
  - injection Hrun as <-. auto.
  - destruct (step this w inp) as [w1|] eqn:Hstep; [|discriminate].
    simpl in Hrun.
    destruct (step_idle this w w1 inp H0 Hstep) as [H1 Hs1].
    destruct (IH w1 w' H1 Hrun) as [H2 Hs2]. split; [exact H2|congruence].
Qed.

(** X2.  The ['close'] listener only emits a trace.  When the stream of
    the only activity is closed without having ended or failed, nothing
    is pending afterwards, and whatever happens next the engine never
    issues another request: it does not reconnect. *)
Theorem close_without_end_stalls (this : DahuaEvents) (w : World) (s : nat)
    (st : Stream) (inputs : list Input) (w2 : World) :
  streams w !! s = Some st →
  ended st = false →
  pending w = 1 →
  ∃ w1, step this w (StreamClose s) = Some w1
        ∧ emitted w1 = emitted w
                       ++ [trace ("Socket connection closed for host: " +:+ host this)]
        ∧ pending w1 = 0
        ∧ (run this w1 inputs = Some w2 →
           sent w2 = sent w ∧ inflight w2 = [] ∧ timers w2 = []).
Proof.
  intros Hs He H1. simpl. rewrite Hs. simpl.
  eexists. split; [reflexivity|]. split; [reflexivity|].
  assert (pending (on_close this (set_streams (delete s (streams w)) w)) = 0) as H0.
  { unfold pending in *. simpl.
    pose proof (open_count_delete _ _ _ Hs) as Hd. rewrite He in Hd. lia. }
  split; [exact H0|]. intros Hrun.
  destruct (run_idle this inputs _ _ H0 Hrun) as [H2 Hsent].
  split; [exact Hsent|]. unfold pending in H2.
  split; apply length_zero_iff_nil; lia.
Qed.

Lemma close_without_end_stalls_witness :
  streams Scenario.open_stream !! 0 = Some Scenario.stream
  ∧ ended Scenario.stream = false
  ∧ pending Scenario.open_stream = 1
  ∧ ∃ w1, step Scenario.this Scenario.open_stream (StreamClose 0) = Some w1
          ∧ pending w1 = 0.
Proof.
  assert (streams Scenario.open_stream !! 0 = Some Scenario.stream) as Hs
    by (vm_compute; reflexivity).
  assert (pending Scenario.open_stream = 1) as H1 by (vm_compute; reflexivity).
  split; [exact Hs|]. split; [reflexivity|]. split; [exact H1|].
  destruct (close_without_end_stalls Scenario.this Scenario.open_stream 0
              Scenario.stream [] Scenario.open_stream Hs eq_refl H1)
    as (w1 & Hstep & _ & H0 & _).
  exists w1. split; [exact Hstep|exact H0].
Defined.

(** ** What the requests carry *)

(** A step sends nothing, or the request of a timer with the headers as
    they are, or the answer to a challenge with the new header. *)
Lemma step_sent (this : DahuaEvents) (w w' : World) (inp : Input) :
  shares_headers this w → step this w inp = Some w' →
  (sent w' = sent w ∧ heap w' = heap w)
  ∨ (∃ r, sent w' = sent w ++ [r] ∧ heap w' = heap w ∧ req_count r = 0%N
          ∧ req_headers r = read_headers (HEADERS this) w)
  ∨ (∃ r v, sent w' = sent w ++ [r] ∧ ¬ quiet inp
            ∧ req_headers r = <["authorization" := v]> (read_headers (HEADERS this) w)
            ∧ heap w' = <[HEADERS this := req_headers r]> (heap w)).
Proof.
  intros (Hin & Hst & Htm) Hstep.
  destruct inp as [i res|i err random|s data|s|s data|s|dt|t];
    [|idtac|..]; [simpl in Hstep|idtac|simpl in Hstep..].
  - destruct (inflight w !! i) as [r|]; simplify_eq/=. by left.
  - assert (is_Some (inflight w !! i)) as [r Hr].
    { simpl in Hstep. destruct (inflight w !! i); [eauto|discriminate]. }
    destruct (answerable err) as [[realm nonce]|] eqn:Ha.
    + destruct (step_rejected_answered this w i r err random realm nonce Hr Ha)
        as (w1 & Hstep1 & Hheap & _ & Hsent & _).
      rewrite Hstep1 in Hstep. injection Hstep as <-.
      right. right. eexists _, _. split; [exact Hsent|].
      split; [simpl; by rewrite Ha|]. split; [reflexivity|exact Hheap].
    + destruct (step_rejected_other this w i r err random Hr Ha)
        as (w1 & Hstep1 & _ & _ & Hsent & _ & _ & Hheap & _).
      rewrite Hstep1 in Hstep. injection Hstep as <-. by left.
  - open_stream Hstep st Hs.
    destruct (on_data_world this data w) as (-> & -> & _). by left.
  - destruct (streams w !! s) as [st|]; simplify_eq/=. by left.
  - open_stream Hstep st Hs. by left.
  - open_stream Hstep st Hs. by left.
  - injection Hstep as <-. by left.
  - destruct (timers w !! t) as [tm|] eqn:Ht; [|discriminate]. simpl in Hstep.
    destruct (due tm <=? now w)%N; [|discriminate]. injection Hstep as <-.
    destruct (Forall_lookup_1 _ _ _ _ Htm Ht) as [Hcfg Hcount].
    right. left. eexists. split; [reflexivity|]. simpl.
    rewrite Hcfg, Hcount. auto.
Qed.

Lemma run_unchallenged (this : DahuaEvents) (inputs : list Input) : ∀ w w',
  shares_headers this w →
  Forall quiet inputs → run this w inputs = Some w' →
  Forall (fun r => req_count r = 0%N ∧ req_headers r = read_headers (HEADERS this) w)
         (sent w) →
  Forall (fun r => req_count r = 0%N ∧ req_headers r = read_headers (HEADERS this) w)
         (sent w').
Proof.
  induction inputs as [|inp inputs IH]; intros w w' Hsh Hq Hrun Hall; simpl in Hrun.
  - by injection Hrun as <-.
  - destruct (step this w inp) as [w1|] eqn:Hstep; [|discriminate].
    simpl in Hrun. inversion Hq as [|? ? Hq1 Hq2]; subst.
    pose proof (step_shares_headers this w w1 inp Hsh Hstep) as Hsh1.
    pose proof (step_quiet_heap this w w1 inp Hq1 Hstep) as Hheap.
    assert (read_headers (HEADERS this) w1 = read_headers (HEADERS this) w) as Hread
      by (unfold read_headers; by rewrite Hheap).
    rewrite <- Hread. apply (IH w1 w' Hsh1 Hq2 Hrun). rewrite Hread.
    destruct (step_sent this w w1 inp Hsh Hstep)
      as [[-> _]|[(r & -> & _ & Hc & Hh)|(r & v & _ & Hnq & _)]].
    + exact Hall.
    + apply Forall_app. split; [exact Hall|]. by repeat constructor.
    + contradiction.
Qed.

(** The credentials under [auth] are those of the constructor, in every
    configuration the engine holds and in every request it has sent. *)
Lemma signed_with_init (h user pass : string) (useHttp : bool)
    (events : list string) :
  signed_with {| username := user; password := pass |}
    (new_DahuaEvents h user pass useHttp events).2.
Proof.
  unfold signed_with. simpl. repeat split; repeat constructor.
Qed.

Lemma step_signed_with (this : DahuaEvents) (c : AxiosBasicCredentials)
    (w w' : World) (inp : Input) :
  signed_with c w → step this w inp = Some w' → signed_with c w'.
Proof.
  intros (Hse & Hin & Hst & Htm) Hstep.
  destruct inp as [i res|i err random|s data|s|s data|s|dt|t];
    [|idtac|..]; [simpl in Hstep|idtac|simpl in Hstep..].
  - destruct (inflight w !! i) as [r|] eqn:Hr; simplify_eq/=.
    repeat split; simpl; auto using Forall_delete.
    apply Forall_app; split; [done|]. repeat constructor. simpl.
    exact (Forall_lookup_1 _ _ _ _ Hin Hr).
  - assert (is_Some (inflight w !! i)) as [r Hr].
    { simpl in Hstep. destruct (inflight w !! i); [eauto|discriminate]. }
    pose proof (Forall_lookup_1 _ _ _ _ Hin Hr) as Hcfg. simpl in Hcfg.
    destruct (answerable err) as [[realm nonce]|] eqn:Ha.
    + destruct (step_rejected_answered this w i r err random realm nonce Hr Ha)
        as (w1 & Hstep1 & _ & _ & Hse1 & Hin1 & Htm1 & Hst1 & _).
      rewrite Hstep1 in Hstep. injection Hstep as <-.
      unfold signed_with. rewrite Hse1, Hin1, Htm1, Hst1.
      repeat split; auto.
      * apply Forall_app; split; [done|]. by repeat constructor.
      * apply Forall_app; split; [by apply Forall_delete|]. by repeat constructor.
    + destruct (step_rejected_other this w i r err random Hr Ha)
        as (w1 & Hstep1 & _ & Htm1 & Hse1 & Hin1 & Hst1 & _).
      rewrite Hstep1 in Hstep. injection Hstep as <-.
      unfold signed_with. rewrite Hse1, Htm1, Hin1, Hst1.
      repeat split; auto using Forall_delete.
      apply Forall_app; split; [done|]. by repeat constructor.
  - open_stream Hstep st Hs. unfold signed_with.
    destruct (on_data_world this data w) as (_ & -> & -> & -> & -> & _).
    by repeat split.
  - destruct (streams w !! s) as [st|]; simplify_eq/=.
    repeat split; simpl; auto using Forall_delete.
  - open_stream Hstep st Hs.
    pose proof (Forall_lookup_1 _ _ _ _ Hst Hs) as Hcfg. simpl in Hcfg.
    repeat split; simpl; auto.
    + apply Forall_alter; [done|]. by intros st' _ Hst'.
    + apply Forall_app; split; [done|]. by repeat constructor.
  - open_stream Hstep st Hs.
    pose proof (Forall_lookup_1 _ _ _ _ Hst Hs) as Hcfg. simpl in Hcfg.
    repeat split; simpl; auto.
    + apply Forall_alter; [done|]. by intros st' _ Hst'.
    + apply Forall_app; split; [done|]. by repeat constructor.
  - injection Hstep as <-. by repeat split.
  - destruct (timers w !! t) as [tm|] eqn:Ht; [|discriminate]. simpl in Hstep.
    destruct (due tm <=? now w)%N; [|discriminate]. injection Hstep as <-.
    pose proof (Forall_lookup_1 _ _ _ _ Htm Ht) as Hcfg. simpl in Hcfg.
    repeat split; simpl; auto using Forall_delete.
    + apply Forall_app; split; [done|]. by repeat constructor.
    + apply Forall_app; split; [done|]. by repeat constructor.
Qed.

Lemma run_signed_with (this : DahuaEvents) (c : AxiosBasicCredentials)
    (inputs : list Input) :
  ∀ w w', signed_with c w → run this w inputs = Some w' → signed_with c w'.
Proof.
  induction inputs as [|inp inputs IH]; intros w w' Hw Hrun; simpl in Hrun.
  - by injection Hrun as <-.
  - destruct (step this w inp) as [w1|] eqn:Hstep; [|discriminate].
    simpl in Hrun. eauto using step_signed_with.
Qed.

(** X3.  Until a challenge has been answered, every request the engine
    hands to axios, the first one and each one after a reconnect delay,
    starts with the counter 0 and a headers object that holds [Accept]
    alone: the engine makes up no [authorization] value.  What the
    request does carry is the user and the password of the constructor
    under [auth], the option from which axios builds a Basic
    authorization of its own. *)
Theorem unchallenged_requests (h user pass : string) (useHttp : bool)
    (events : list string) (inputs : list Input) (w : World) :
  let this := (new_DahuaEvents h user pass useHttp events).1 in
  let w0 := (new_DahuaEvents h user pass useHttp events).2 in
  Forall quiet inputs →
  run this w0 inputs = Some w →
  Forall (fun r => req_count r = 0%N ∧ req_headers r = accept_only
                   ∧ req_headers r !! "authorization" = None
                   ∧ auth (req_config r)
                     = Some {| username := user; password := pass |}) (sent w).
Proof.
  intros this w0 Hq Hrun.
  pose proof (run_unchallenged this inputs w0 w
                (shares_headers_init h user pass useHttp events) Hq Hrun) as Hall.
  destruct (run_signed_with this _ inputs w0 w
              (signed_with_init h user pass useHttp events) Hrun) as (Hauth & _).
  assert (Forall (fun r => req_count r = 0%N
                           ∧ req_headers r = read_headers (HEADERS this) w0) (sent w))
    as Hall' by (apply Hall; by repeat constructor).
  rewrite Forall_forall in Hall', Hauth. apply Forall_forall. intros r Hr.
  destruct (Hall' r Hr) as [Hc Hh].
  split; [exact Hc|]. rewrite Hh. split; [reflexivity|]. split; [reflexivity|].
  exact (Hauth r Hr).
Qed.

Lemma unchallenged_requests_witness :
  Forall quiet [Rejected 0 {| response := None; request := true;
                              message := "connect ECONNREFUSED 10.0.0.5:443" |} [];
                Elapse 10000; TimerFires 0]
  ∧ ∃ w, run Scenario.this Scenario.w0
           [Rejected 0 {| response := None; request := true;
                          message := "connect ECONNREFUSED 10.0.0.5:443" |} [];
            Elapse 10000; TimerFires 0] = Some w
         ∧ length (sent w) = 2
         ∧ Forall (fun r => req_count r = 0%N ∧ req_headers r = accept_only
                            ∧ req_headers r !! "authorization" = None
                            ∧ auth (req_config r)
                              = Some {| username := "admin"; password := "pass" |})
                  (sent w).
Proof.
  assert (Forall quiet [Rejected 0 {| response := None; request := true;
                                      message := "connect ECONNREFUSED 10.0.0.5:443" |} [];
                        Elapse 10000; TimerFires 0]) as Hq by (by repeat constructor).
  split; [exact Hq|].
  destruct (run Scenario.this Scenario.w0
              [Rejected 0 {| response := None; request := true;
                             message := "connect ECONNREFUSED 10.0.0.5:443" |} [];
               Elapse 10000; TimerFires 0]) as [w|] eqn:Hrun;
    [|vm_compute in Hrun; discriminate].
  exists w. split; [reflexivity|]. split.
  - vm_compute in Hrun. injection Hrun as <-. reflexivity.
  - exact (unchallenged_requests "10.0.0.5" "admin" "pass" false ["VideoMotion"]
             _ w Hq Hrun).
Defined.

Lemma step_headers_grow (this : DahuaEvents) (w w' : World) (inp : Input) :
  shares_headers this w → headers_grow this w → step this w inp = Some w' →
  headers_grow this w'.
Proof.
  intros Hsh (Hacc & Hall & before & after & Hsent & Hb & Ha & Hheap) Hstep.
  destruct (step_sent this w w' inp Hsh Hstep)
    as [[Hs Hh]|[(r & Hs & Hh & _ & Hr)|(r & v & Hs & _ & Hr & Hh)]].
  - assert (read_headers (HEADERS this) w' = read_headers (HEADERS this) w) as Hread
      by (unfold read_headers; by rewrite Hh).
    unfold headers_grow. rewrite Hread, Hs.
    split; [exact Hacc|]. split; [exact Hall|]. by exists before, after.
  - assert (read_headers (HEADERS this) w' = read_headers (HEADERS this) w) as Hread
      by (unfold read_headers; by rewrite Hh).
    unfold headers_grow. rewrite Hread, Hs.
    split; [exact Hacc|].
    split; [apply Forall_app; split; [exact Hall|]; repeat constructor; by rewrite Hr|].
    destruct after as [|a after].
    + destruct (read_headers (HEADERS this) w !! "authorization") as [x|] eqn:Hauth.
      * exists before, [r]. rewrite app_nil_r in Hsent. rewrite Hsent.
        repeat split; auto.
        repeat constructor. unfold authorized. rewrite Hr, Hauth. eauto.
      * exists (before ++ [r]), []. rewrite app_nil_r in Hsent |- *. rewrite Hsent.
        repeat split; auto.
        apply Forall_app. split; [exact Hb|]. repeat constructor.
        unfold authorized. rewrite Hr, Hauth. by intros [? ?].
    + exists before, ((a :: after) ++ [r]). rewrite Hsent, app_assoc.
      repeat split; auto.
      apply Forall_app. split; [exact Ha|]. repeat constructor.
      unfold authorized. rewrite Hr. by apply Hheap.
  - assert (read_headers (HEADERS this) w' = req_headers r) as Hread
      by (unfold read_headers; rewrite Hh; by rewrite lookup_insert_eq).
    unfold headers_grow. rewrite Hread, Hs.
    assert (req_headers r !! "Accept" = Some "multipart/x-mixed-replace") as Hacc'
      by (rewrite Hr; by rewrite lookup_insert_ne).
    assert (authorized r) as Hauth
      by (unfold authorized; rewrite Hr, lookup_insert_eq; eauto).
    split; [exact Hacc'|].
    split; [apply Forall_app; split; [exact Hall|]; by repeat constructor|].
    exists before, (after ++ [r]). rewrite Hsent, app_assoc.
    repeat split; auto.
    apply Forall_app. split; [exact Ha|]. by repeat constructor.
Qed.

Lemma run_headers_grow (this : DahuaEvents) (inputs : list Input) : ∀ w w',
  shares_headers this w → headers_grow this w → run this w inputs = Some w' →
  headers_grow this w'.
Proof.
  induction inputs as [|inp inputs IH]; intros w w' Hsh Hg Hrun; simpl in Hrun.
  - by injection Hrun as <-.
  - destruct (step this w inp) as [w1|] eqn:Hstep; [|discriminate].
    simpl in Hrun.
    eauto using step_shares_headers, step_headers_grow.
Qed.

Lemma headers_grow_init (h user pass : string) (useHttp : bool)
    (events : list string) :
  headers_grow (new_DahuaEvents h user pass useHttp events).1
               (new_DahuaEvents h user pass useHttp events).2.
Proof.
  split; [reflexivity|]. split; [by repeat constructor|].
  eexists [_], []. split; [reflexivity|].
  split; [|split; [constructor|done]].
  repeat constructor. by intros [? ?].
Qed.

(** X4.  Whatever happens, every request the engine sends carries
    [Accept: multipart/x-mixed-replace]; and once a request has carried
    an [authorization] header, every later request carries one too: the
    header is never taken back. *)
Theorem headers_never_dropped (h user pass : string) (useHttp : bool)
    (events : list string) (inputs : list Input) (w : World) :
  let this := (new_DahuaEvents h user pass useHttp events).1 in
  let w0 := (new_DahuaEvents h user pass useHttp events).2 in
  run this w0 inputs = Some w →
  Forall (fun r => req_headers r !! "Accept" = Some "multipart/x-mixed-replace")
         (sent w)
  ∧ ∀ earlier r later,
      sent w = earlier ++ r :: later → authorized r → Forall authorized later.
Proof.
  intros this w0 Hrun.
  destruct (run_headers_grow this inputs w0 w
              (shares_headers_init h user pass useHttp events)
              (headers_grow_init h user pass useHttp events) Hrun)
    as (_ & Hall & before & after & Hsent & Hb & Ha & _).
  split; [exact Hall|].
  intros earlier r later Hsplit Hr.
  rewrite Hsent in Hsplit.
  assert (∀ (l1 l2 l3 l4 : list Request) x,
            l1 ++ l2 = l3 ++ x :: l4 → Forall (fun r => ¬ authorized r) l1 →
            Forall authorized l2 → authorized x → Forall authorized l4) as Hcut.
  { induction l1 as [|y l1 IH]; intros l2 l3 l4 x Heq H1 H2 Hx; simpl in Heq.
    - subst l2. apply Forall_app in H2 as [_ H2]. by inversion H2.
    - inversion H1 as [|? ? Hy H1']; subst.
      destruct l3 as [|z l3]; simpl in Heq; injection Heq as -> Heq.
      + contradiction.
      + exact (IH _ _ _ _ Heq H1' H2 Hx). }
  exact (Hcut before after earlier later r Hsplit Hb Ha Hr).
Qed.

Lemma headers_never_dropped_witness :
  run Scenario.this Scenario.w0
    (Rejected 0 Scenario.unauthorized Scenario.random :: Scenario.until_due
     ++ [TimerFires 0])
  = Some Scenario.reconnected
  ∧ length (sent Scenario.reconnected) = 3
  ∧ Forall (fun r => req_headers r !! "Accept" = Some "multipart/x-mixed-replace")
           (sent Scenario.reconnected).
Proof.
  assert (run Scenario.this Scenario.w0
            (Rejected 0 Scenario.unauthorized Scenario.random :: Scenario.until_due
             ++ [TimerFires 0])
          = Some Scenario.reconnected) as Hrun by (vm_compute; reflexivity).
  split; [exact Hrun|]. split; [vm_compute; reflexivity|].
  exact (proj1 (headers_never_dropped "10.0.0.5" "admin" "pass" false ["VideoMotion"]
                  _ Scenario.reconnected Hrun)).
Defined.

(** ** Data never disturbs the connection *)

Lemma signals_named_others (n : string) (l extra : list Emission) :
  Forall (fun e => name e ≠ n) extra →
  signals_named n (l ++ extra) = signals_named n l.
Proof.
  intros Hex. unfold signals_named. rewrite filter_app.
  replace (filter (fun e => name e = n) extra) with (@nil Emission);
    [by rewrite app_nil_r|].
  induction Hex as [|x l' Hx _ IH]; [reflexivity|].
  rewrite filter_cons. destruct (decide (name x = n)); [contradiction|exact IH].
Qed.

(** X5.  Whatever a chunk contains, also when the parser is left by an
    exception, the data listener only publishes: it sends no request,
    sets no timer, leaves the stream open and the headers alone, and
    emits neither an error nor a reconnecting signal. *)
Theorem data_never_disturbs (this : DahuaEvents) (w w' : World) (s : nat)
    (data : string) :
  step this w (StreamData s data) = Some w' →
  sent w' = sent w ∧ inflight w' = inflight w ∧ timers w' = timers w
  ∧ streams w' = streams w ∧ heap w' = heap w ∧ now w' = now w
  ∧ signals_named ERROR_EVENT_NAME (emitted w')
    = signals_named ERROR_EVENT_NAME (emitted w)
  ∧ signals_named RECONNECTING_EVENT_NAME (emitted w')
    = signals_named RECONNECTING_EVENT_NAME (emitted w).
Proof.
  intros Hstep. simpl in Hstep. open_stream Hstep st Hs.
  destruct (on_data_world this data w) as (Hh & Hse & Hin & Hst & Htm & Hnow).
  destruct (on_data_emitted this data w) as (traces & Hem & Htr & _).
  repeat split; try done; rewrite Hem; apply signals_named_others;
    (apply Forall_app; split;
     [eapply Forall_impl; [exact Htr|]; intros e ->; discriminate
     |repeat constructor; discriminate]).
Qed.

Lemma data_never_disturbs_witness :
  (parse_try "Code=VideoMotion;action=St").2 = Some (reading_of_undefined "substr")
  ∧ ∃ w', step Scenario.this Scenario.open_stream
            (StreamData 0 "Code=VideoMotion;action=St") = Some w'
          ∧ timers w' = [] ∧ streams w' = [Scenario.stream].
Proof.
  split; [vm_compute; reflexivity|].
  destruct (step Scenario.this Scenario.open_stream
              (StreamData 0 "Code=VideoMotion;action=St")) as [w'|] eqn:Hstep;
    [|vm_compute in Hstep; discriminate].
  exists w'. split; [reflexivity|].
  destruct (data_never_disturbs Scenario.this Scenario.open_stream w' 0 _ Hstep)
    as (_ & _ & Htm & Hst & _).
  rewrite Htm, Hst. split; vm_compute; reflexivity.
Defined.

(** ** Numbers written in decimal are read back *)

Lemma rev_app_rev_app (s : string) : ∀ t u : string,
  String.rev_app (String.rev_app s t) u = String.rev_app t (s +:+ u).
Proof.
  induction s as [|a s IH]; intros t u; [reflexivity|].
  simpl. rewrite IH. reflexivity.
Qed.

Lemma rev_rev (s : string) : String.rev (String.rev s) = s.
Proof. unfold String.rev. rewrite rev_app_rev_app. apply app_nil_r_s. Qed.

Lemma rev_app_eq (s : string) : ∀ t : string,
  String.rev_app s t = String.rev s +:+ t.
Proof.
  unfold String.rev. induction s as [|a s IH]; intros t; [reflexivity|].
  simpl. rewrite IH, (IH (String a "")), app_assoc_s. reflexivity.
Qed.

Lemma rev_append (s t : string) :
  String.rev (s +:+ t) = String.rev t +:+ String.rev s.
Proof.
  induction s as [|a s IH]; [by rewrite app_nil_l_s, app_nil_r_s|].
  rewrite app_cons_s. unfold String.rev at 1 3. simpl.
  rewrite !rev_app_eq, IH, app_assoc_s. reflexivity.
Qed.

Lemma all_space_rev (w : string) : all_space w = true → all_space (String.rev w) = true.
Proof.
  induction w as [|a w IH]; [reflexivity|]. simpl.
  intros [Ha Hw]%andb_true_iff.
  unfold String.rev. simpl. rewrite rev_app_eq.
  assert (∀ x y, all_space x = true → all_space y = true →
                 all_space (x +:+ y) = true) as Happ.
  { induction x as [|b x IHx]; intros y Hx Hy; [exact Hy|].
    rewrite app_cons_s. simpl in *. apply andb_true_iff in Hx as [Hb Hx].
    rewrite Hb. simpl. by apply IHx. }
  apply Happ; [by apply IH|]. simpl. by rewrite Ha.
Qed.

Lemma digits_only_app (x y : string) :
  digits_only (x +:+ y) = digits_only x && digits_only y.
Proof.
  induction x as [|b x IH]; [reflexivity|].
  rewrite app_cons_s. simpl. by destruct (Num.digit_val 10 b).
Qed.

Lemma digits_only_rev (d : string) : digits_only d = true → digits_only (String.rev d) = true.
Proof.
  induction d as [|a d IH]; [reflexivity|]. simpl.
  destruct (Num.digit_val 10 a) eqn:Ha; [|discriminate]. intros Hd.
  unfold String.rev. simpl. rewrite rev_app_eq, digits_only_app.
  rewrite (IH Hd). simpl. by rewrite Ha.
Qed.

Lemma digit_facts (c : ascii) (d : N) :
  Num.digit_val 10 c = Some d →
  JS.is_space c = false ∧ Ascii.eqb c "I"%char = false
  ∧ Ascii.eqb c "+"%char = false ∧ Ascii.eqb c "-"%char = false
  ∧ Ascii.eqb c "."%char = false ∧ Ascii.eqb c ";"%char = false
  ∧ Ascii.eqb c "x"%char || Ascii.eqb c "X"%char = false
  ∧ Ascii.eqb c "o"%char || Ascii.eqb c "O"%char = false
  ∧ Ascii.eqb c "b"%char || Ascii.eqb c "B"%char = false.
Proof.
  destruct c as [[] [] [] [] [] [] [] []]; intros H; vm_compute in H;
    try discriminate; vm_compute; repeat split.
Qed.

Lemma trim_start_space (w x : string) :
  all_space w = true → Num.trim_start (w +:+ x) = Num.trim_start x.
Proof.
  induction w as [|a w IH]; [reflexivity|]. rewrite app_cons_s. simpl.
  intros [Ha Hw]%andb_true_iff. rewrite Ha. by apply IH.
Qed.

Lemma trim_start_digit (d x : string) :
  digits_only d = true → d ≠ "" → Num.trim_start (d +:+ x) = d +:+ x.
Proof.
  destruct d as [|c d]; [done|]. simpl.
  destruct (Num.digit_val 10 c) eqn:Hc; [|discriminate]. intros _ _.
  rewrite app_cons_s. simpl.
  by destruct (digit_facts c _ Hc) as (-> & _).
Qed.

(** White space around a number is dropped. *)
Lemma trim_wrapped (w1 d w2 : string) :
  all_space w1 = true → all_space w2 = true → digits_only d = true → d ≠ "" →
  Num.trim (w1 +:+ d +:+ w2) = d.
Proof.
  intros H1 H2 Hd Hne. unfold Num.trim.
  rewrite (trim_start_space _ _ H1), (trim_start_digit _ _ Hd Hne).
  rewrite rev_append, (trim_start_space _ _ (all_space_rev _ H2)).
  assert (String.rev d ≠ "") as Hne'.
  { intros H. apply Hne. by rewrite <- (rev_rev d), H. }
  pose proof (trim_start_digit (String.rev d) "" (digits_only_rev d Hd) Hne') as Ht.
  rewrite !app_nil_r_s in Ht. rewrite Ht. apply rev_rev.
Qed.

Lemma digit_char_val (n : N) : (n < 10)%N → Num.digit_val 10 (Num.digit_char n) = Some n.
Proof.
  intros Hn.
  assert (n = 0 ∨ n = 1 ∨ n = 2 ∨ n = 3 ∨ n = 4 ∨ n = 5 ∨ n = 6 ∨ n = 7
          ∨ n = 8 ∨ n = 9)%N as H by lia.
  repeat (destruct H as [->|H]; [reflexivity|]). by subst.
Qed.

Lemma toString_digits_only (n : N) : digits_only (Num.toString n) = true.
Proof.
  induction n as [n IH] using (well_founded_induction N.lt_wf_0).
  rewrite NumFacts.toString_unfold.
  destruct (N.ltb_spec n 10) as [Hlt|Hge].
  - simpl. by rewrite (digit_char_val n Hlt).
  - rewrite digits_only_app, IH by (apply N.div_lt; lia). simpl.
    rewrite digit_char_val; [reflexivity|]. apply N.mod_lt. lia.
Qed.

Lemma toString_nonempty (n : N) : Num.toString n ≠ "".
Proof.
  rewrite NumFacts.toString_unfold.
  destruct (n <? 10)%N; [discriminate|].
  destruct (Num.toString (n / 10)); rewrite ?app_nil_l_s, ?app_cons_s; discriminate.
Qed.

(** Reading the digits of [n] adds [n] to what was read before. *)
Lemma digits_toString (n : N) : ∀ (rest : string) (acc : N) (len : nat),
  Num.digits 10 (Num.toString n +:+ rest) acc len
  = Num.digits 10 rest
      (acc * 10 ^ N.of_nat (String.length (Num.toString n)) + n)%N
      (len + String.length (Num.toString n)).
Proof.
  induction n as [n IH] using (well_founded_induction N.lt_wf_0).
  intros rest acc len. rewrite NumFacts.toString_unfold.
  destruct (N.ltb_spec n 10) as [Hlt|Hge].
  - rewrite app_cons_s, app_nil_l_s. simpl.
    rewrite (digit_char_val n Hlt). f_equal; lia.
  - rewrite app_assoc_s, IH by (apply N.div_lt; lia).
    rewrite app_cons_s, app_nil_l_s. simpl.
    rewrite digit_char_val by (apply N.mod_lt; lia).
    rewrite length_app_s. simpl.
    pose proof (N.div_mod n 10) as Hdm.
    f_equal; [|lia].
    replace (N.of_nat (String.length (Num.toString (n / 10)) + 1))
      with (N.succ (N.of_nat (String.length (Num.toString (n / 10))))) by lia.
    rewrite N.pow_succ_r'. lia.
Qed.

(** The round trip: a non-negative integer written in decimal, with or
    without white space around it, is read back by [Number]. *)
Lemma Number_toString (w1 w2 : string) (n : N) :
  all_space w1 = true → all_space w2 = true →
  Num.Number (w1 +:+ Num.toString n +:+ w2) = JInt (Z.of_N n).
Proof.
  intros H1 H2. unfold Num.Number.
  rewrite (trim_wrapped w1 _ w2 H1 H2 (toString_digits_only n) (toString_nonempty n)).
  assert (Num.unsigned_decimal (Num.toString n) = JInt (Z.of_N n)) as Hdec.
  { unfold Num.unsigned_decimal.
    pose proof (digits_toString n "" 0%N 0) as Hd.
    rewrite app_nil_r_s in Hd. simpl in Hd.
    pose proof (toString_digits_only n) as Hdig.
    pose proof (toString_nonempty n) as Hne.
    destruct (Num.toString n) as [|c r] eqn:Hs; [done|].
    simpl in Hdig. destruct (Num.digit_val 10 c) eqn:Hc; [|discriminate].
    destruct (digit_facts c _ Hc) as (_ & HI & _).
    change (String.eqb (String c r) "Infinity")
      with (if Ascii.eqb c "I"%char then String.eqb r "nfinity" else false).
    rewrite HI, Hd. simpl. unfold Num.scale. simpl.
    f_equal. lia. }
  pose proof (toString_digits_only n) as Hdig.
  pose proof (toString_nonempty n) as Hne.
  rewrite <- Hdec.
  destruct (Num.toString n) as [|c r]; [done|].
  simpl in Hdig. destruct (Num.digit_val 10 c) eqn:Hc; [|discriminate].
  destruct r as [|p r'].
  - destruct c as [[] [] [] [] [] [] [] []]; vm_compute in Hc;
      try discriminate; reflexivity.
  - simpl in Hdig. destruct (Num.digit_val 10 p) eqn:Hp; [|discriminate].
    destruct (digit_facts p _ Hp) as (_ & _ & _ & _ & _ & _ & Hx & Ho & Hb).
    destruct c as [[] [] [] [] [] [] [] []]; vm_compute in Hc;
      try discriminate; try reflexivity.
    cbv beta iota. by rewrite Hx, Ho, Hb.
Qed.

(** ** Records as the camera writes them *)

Lemma split_cons_shape (c : ascii) (s : string) : ∃ h t, JS.split c s = h :: t.
Proof.
  induction s as [|a s (h & t & IH)]; simpl; [eauto|].
  destruct (Ascii.eqb a c); [eauto|]. rewrite IH. eauto.
Qed.

(** Cutting a string at a separator cuts the list of its pieces. *)
Lemma split_app_sep (c : ascii) (s t : string) :
  JS.split c (s +:+ String c t) = JS.split c s ++ JS.split c t.
Proof.
  induction s as [|a s IH].
  - rewrite app_nil_l_s. simpl. by rewrite Ascii.eqb_refl.
  - rewrite app_cons_s. simpl. destruct (Ascii.eqb a c); [by rewrite IH|].
    rewrite IH. by destruct (split_cons_shape c s) as (h & tl & ->).
Qed.

(** Splitting what was joined gives the lines back. *)
Lemma split_join (c : ascii) (lines : list string) :
  lines ≠ [] → Forall (fun l => JS.includes c l = false) lines →
  JS.split c (JS.join (String c "") lines) = lines.
Proof.
  induction lines as [|x [|y rest] IH]; intros Hne Hall; [done|..].
  - inversion Hall; subst. simpl. by apply split_without.
  - inversion Hall as [|? ? Hx Hrest]; subst.
    change (JS.join (String c "") (x :: y :: rest))
      with (x +:+ String c "" +:+ JS.join (String c "") (y :: rest)).
    rewrite app_cons_s, app_nil_l_s, split_app_sep.
    rewrite (split_without c x Hx), IH by done. reflexivity.
Qed.

Lemma digits_only_free (c : ascii) (s : string) :
  Num.digit_val 10 c = None → digits_only s = true → JS.includes c s = false.
Proof.
  intros Hc. induction s as [|a s IH]; [reflexivity|]. simpl.
  destruct (Num.digit_val 10 a) eqn:Ha; [|discriminate]. intros Hs.
  destruct (Ascii.eqb_spec a c) as [->|_]; [congruence|by apply IH].
Qed.

Lemma all_space_free (c : ascii) (s : string) :
  JS.is_space c = false → all_space s = true → JS.includes c s = false.
Proof.
  intros Hc. induction s as [|a s IH]; [reflexivity|]. simpl.
  intros [Ha Hs]%andb_true_iff.
  destruct (Ascii.eqb_spec a c) as [->|_]; [congruence|by apply IH].
Qed.

Lemma record_line_fields (e a : string) (n : N) (pad : string)
    (trailer : option string) :
  JS.includes ";"%char e = false → JS.includes ";"%char a = false →
  all_space pad = true →
  JS.includes ";"%char (record_line e a n pad trailer) = true
  ∧ fields_of (record_line e a n pad trailer)
    = Some (Parsed.mk a (JInt (Z.of_N n)) e).
Proof.
  intros He Ha Hpad. unfold record_line.
  replace ("Code=" +:+ e +:+ ";action=" +:+ a +:+ ";index=" +:+ Num.toString n +:+ pad
           +:+ match trailer with Some t => ";" +:+ t | None => "" end)
    with (("Code=" +:+ e)
          +:+ String ";"%char
                (("action=" +:+ a)
                 +:+ String ";"%char
                       (("index=" +:+ Num.toString n +:+ pad)
                        +:+ match trailer with Some t => ";" +:+ t | None => "" end)))
    by (rewrite !app_assoc_s; reflexivity).
  split.
  { rewrite includes_app. simpl. apply orb_true_r. }
  unfold fields_of. rewrite !split_app_sep.
  rewrite (split_without _ ("Code=" +:+ e))
    by (rewrite includes_app; simpl; exact He).
  rewrite (split_without _ ("action=" +:+ a))
    by (rewrite includes_app; simpl; exact Ha).
  assert (JS.includes ";"%char ("index=" +:+ Num.toString n +:+ pad) = false) as Hidx.
  { rewrite !includes_app.
    rewrite (digits_only_free ";"%char _ eq_refl (toString_digits_only n)).
    by rewrite (all_space_free ";"%char _ eq_refl Hpad). }
  assert (∃ tl, JS.split ";"%char
                  (("index=" +:+ Num.toString n +:+ pad)
                   +:+ match trailer with Some t => ";" +:+ t | None => "" end)
                = ("index=" +:+ Num.toString n +:+ pad) :: tl) as [tl ->].
  { destruct trailer as [t|].
    - change (";" +:+ t) with (String ";"%char t).
      rewrite split_app_sep, (split_without _ _ Hidx). simpl. eauto.
    - rewrite app_nil_r_s, (split_without _ _ Hidx). eauto. }
  simpl. f_equal. f_equal.
  change (JS.substr 6 ("index=" +:+ Num.toString n +:+ pad))
    with ("" +:+ Num.toString n +:+ pad).
  by apply Number_toString.
Qed.

Lemma parse_record (pre post : list string) (e a : string) (n : N)
    (pad : string) (trailer : option string) (w : World) :
  Forall plain_line pre → Forall plain_line post →
  plain_line e → plain_line a →
  all_space pad = true → JS.includes LF pad = false →
  (∀ t, trailer = Some t → JS.includes LF t = false) →
  parseEventData
    (JS.join (String LF "") (pre ++ record_line e a n pad trailer :: post)) w
  = (Parsed.mk a (JInt (Z.of_N n)) e, w).
Proof.
  intros Hpre Hpost [He HeL] [Ha HaL] Hpad HpadL Htr.
  destruct (record_line_fields e a n pad trailer He Ha Hpad) as [Hq Hf].
  assert (JS.includes LF (record_line e a n pad trailer) = false) as HL.
  { unfold record_line. rewrite !includes_app, HeL, HaL, HpadL.
    rewrite (digits_only_free LF _ eq_refl (toString_digits_only n)).
    destruct trailer as [t|]; [|reflexivity].
    change (";" +:+ t) with (String ";"%char t). simpl. by rewrite (Htr t eq_refl). }
  assert (∀ ls, Forall plain_line ls →
                filter (fun l => JS.includes ";"%char l = true) ls = []) as Hnone.
  { induction 1 as [|x ls [Hx _] _ IH]; [reflexivity|].
    rewrite filter_cons, IH. destruct (decide _); [congruence|reflexivity]. }
  unfold parseEventData, parse_try.
  rewrite split_join.
  - destruct (forEach_complete (pre ++ record_line e a n pad trailer :: post) sentinel)
      as (res & -> & Hlast).
    + rewrite filter_app, filter_cons, (Hnone _ Hpre), (Hnone _ Hpost).
      destruct (decide _); [|congruence]. repeat constructor. by rewrite Hf.
    + rewrite filter_app, filter_cons, (Hnone _ Hpre), (Hnone _ Hpost) in Hlast.
      destruct (decide _); [|congruence]. simpl in Hlast. congruence.
  - by destruct pre.
  - apply Forall_app. split; [eapply Forall_impl; [exact Hpre|by intros ? [_ ?]]|].
    constructor; [exact HL|]. eapply Forall_impl; [exact Hpost|by intros ? [_ ?]].
Qed.

(** X6.  A buffer made of lines without [;] around one record line
    [Code=<eventType>;action=<action>;index=<n>], with or without a
    carriage return after the index and a [;data=...] trailer, is parsed
    to exactly that event type, that action and that index, without
    exception: what the camera writes is what the engine reads, for
    every event type and action free of [;] and every channel number up
    to 2^53, the range in which [Number] returns the integer that is
    written. *)
Theorem record_round_trip (pre post : list string) (e a : string) (n : N)
    (pad : string) (trailer : option string) (w : World) :
  (n ≤ 2 ^ 53)%N →
  Forall plain_line pre → Forall plain_line post →
  plain_line e → plain_line a →
  all_space pad = true → JS.includes LF pad = false →
  (∀ t, trailer = Some t → JS.includes LF t = false) →
  parseEventData
    (JS.join (String LF "") (pre ++ record_line e a n pad trailer :: post)) w
  = (Parsed.mk a (JInt (Z.of_N n)) e, w).
Proof. intros _. exact (parse_record pre post e a n pad trailer w). Qed.

Lemma record_round_trip_witness :
  Forall plain_line ["--myboundary"; ""; "Content-Type: text/plain"; "";
                     "Content-Length:77"; ""]
  ∧ Forall plain_line [Digest.quoted "SmartMotionEnable" +:+ " : false"; "}"]
  ∧ parseEventData
      (JS.join (String LF "")
         (["--myboundary"; ""; "Content-Type: text/plain"; ""; "Content-Length:77"; ""]
          ++ record_line "VideoMotion" "Stop" 5 (String "013"%char "") (Some "data={")
          :: [Digest.quoted "SmartMotionEnable" +:+ " : false"; "}"]))
      empty_world
    = (Parsed.mk "Stop" (JInt 5) "VideoMotion", empty_world).
Proof.
  assert (Forall plain_line ["--myboundary"; ""; "Content-Type: text/plain"; "";
                             "Content-Length:77"; ""]) as Hpre
    by (repeat constructor).
  assert (Forall plain_line [Digest.quoted "SmartMotionEnable" +:+ " : false"; "}"])
    as Hpost by (repeat constructor).
  split; [exact Hpre|]. split; [exact Hpost|].
  apply (record_round_trip _ _ "VideoMotion" "Stop" 5 (String "013"%char "")
           (Some "data={") empty_world ltac:(vm_compute; discriminate) Hpre Hpost);
    try (split; reflexivity); try reflexivity.
  intros t [= <-]. reflexivity.
Defined.

(** ** The nonce count beyond eight digits *)

Lemma substr_app (m : nat) : ∀ s t : string,
  m ≤ String.length s → JS.substr m (s +:+ t) = JS.substr m s +:+ t.
Proof.
  induction m as [|m IH]; intros s t Hm; [by destruct s|].
  destruct s as [|a s]; simpl in Hm; [lia|].
  rewrite app_cons_s. simpl. apply IH. lia.
Qed.

Lemma substr_all (s : string) : JS.substr (String.length s) s = "".
Proof. induction s as [|a s IH]; [reflexivity|exact IH]. Qed.

Lemma slice_last_snoc (k : nat) (s : string) (c : ascii) :
  JS.slice_last (S k) (s +:+ String c "") = JS.slice_last k s +:+ String c "".
Proof.
  unfold JS.slice_last. rewrite length_app_s. simpl.
  replace (String.length s + 1 - S k) with (String.length s - k) by lia.
  apply substr_app. lia.
Qed.

Lemma slice_last_cons (k : nat) (a : ascii) (s : string) :
  k ≤ String.length s → JS.slice_last k (String a s) = JS.slice_last k s.
Proof.
  intros Hk. unfold JS.slice_last. simpl.
  replace (S (String.length s) - k) with (S (String.length s - k)) by lia.
  reflexivity.
Qed.

Lemma zeros_length (k : nat) : String.length (zeros k) = k.
Proof. induction k as [|k IH]; simpl; [reflexivity|by rewrite IH]. Qed.

Lemma zeros_snoc (k : nat) : zeros (S k) = zeros k +:+ "0".
Proof.
  induction k as [|k IH]; [reflexivity|].
  change (zeros (S (S k))) with (String "0"%char (zeros (S k))).
  rewrite IH at 1. reflexivity.
Qed.

(** The last [k] characters of the padded decimal are the [k] low-order
    digits. *)
Lemma low_digits_step (k : nat) (n : N) :
  JS.slice_last (S k) (zeros (S k) +:+ Num.toString n)
  = JS.slice_last k (zeros k +:+ Num.toString (n / 10))
    +:+ String (Num.digit_char (n mod 10)) "".
Proof.
  rewrite (NumFacts.toString_unfold n).
  destruct (N.ltb_spec n 10) as [Hlt|Hge].
  - rewrite slice_last_snoc, N.div_small, N.mod_small by lia.
    by rewrite zeros_snoc.
  - rewrite <- app_assoc_s, slice_last_snoc. f_equal.
    change (zeros (S k) +:+ Num.toString (n / 10))
      with (String "0"%char (zeros k +:+ Num.toString (n / 10))).
    apply slice_last_cons. rewrite length_app_s, zeros_length. lia.
Qed.

Lemma low_digits_mod (k : nat) : ∀ n : N,
  JS.slice_last k (zeros k +:+ Num.toString n)
  = JS.slice_last k (zeros k +:+ Num.toString (n mod 10 ^ N.of_nat k)).
Proof.
  induction k as [|k IH]; intros n.
  - unfold JS.slice_last. by rewrite !Nat.sub_0_r, !substr_all.
  - rewrite !low_digits_step.
    replace (N.of_nat (S k)) with (N.succ (N.of_nat k)) by lia.
    rewrite N.pow_succ_r'.
    rewrite (N.Div0.mod_mul_r n 10 (10 ^ N.of_nat k)).
    assert (n mod 10 < 10)%N as Hlt by (apply N.mod_lt; lia).
    replace ((n mod 10 + 10 * ((n / 10) mod 10 ^ N.of_nat k)) / 10)%N
      with ((n / 10) mod 10 ^ N.of_nat k)%N.
    2:{ rewrite (N.mul_comm 10), N.div_add by lia.
        by rewrite (N.div_small _ _ Hlt). }
    replace ((n mod 10 + 10 * ((n / 10) mod 10 ^ N.of_nat k)) mod 10)%N
      with (n mod 10)%N.
    2:{ rewrite (N.mul_comm 10), N.Div0.mod_add.
        by rewrite (N.mod_small _ _ Hlt). }
    rewrite (IH (n / 10)%N), (IH ((n / 10) mod 10 ^ N.of_nat k)%N).
    by rewrite N.Div0.mod_mod.
Qed.

(** X7.  For every counter the nonce count has exactly eight characters:
    the zero-padded decimal of the counter modulo 10^8.  Counters that
    differ by a multiple of 10^8 therefore give the same [nc]. *)
Theorem nonce_count_wraps (n : N) :
  String.length (Digest.nonceCount n) = 8
  ∧ Digest.nonceCount n = zero_padded 8 (n mod 10 ^ 8)
  ∧ Digest.nonceCount (n + 10 ^ 8) = Digest.nonceCount n.
Proof.
  assert (∀ m, Digest.nonceCount m = zero_padded 8 (m mod 10 ^ 8)) as Hmod.
  { intros m. rewrite <- nonceCount_padded by (apply N.mod_lt; lia).
    exact (low_digits_mod 8 m). }
  split; [apply nonceCount_length|]. split; [apply Hmod|].
  rewrite !Hmod. f_equal.
  rewrite <- (N.mul_1_l (10 ^ 8)) at 1. apply N.Div0.mod_add.
Qed.

(** ** Reading the challenge *)

Lemma last_not_space_snoc (p : string) :
  last_not_space p = true →
  ∃ A c, p = A +:+ String c "" ∧ JS.is_space c = false.
Proof.
  induction p as [|a p IH]; [discriminate|].
  destruct p as [|b p'].
  - simpl. intros H. exists "", a. split; [reflexivity|].
    by destruct (JS.is_space a).
  - intros H. destruct (IH H) as (A & c & -> & Hc).
    exists (String a A), c. by rewrite app_cons_s.
Qed.

Lemma split_commas_body (p rest cur ws : string) :
  last_not_space p = true → JS.includes ","%char p = false →
  JS.split_commas_go (p +:+ rest) cur ws false
  = JS.split_commas_go rest (cur +:+ ws +:+ p) "" false.
Proof.
  intros Hl Hc. destruct (last_not_space_snoc p Hl) as (A & c & -> & Hsp).
  rewrite includes_app in Hc. apply orb_false_iff in Hc as [HA Hc].
  simpl in Hc. destruct (Ascii.eqb c ","%char) eqn:Hcc; [discriminate|].
  rewrite app_assoc_s, app_cons_s, app_nil_l_s.
  exact (split_commas_piece A cur ws c rest HA Hcc Hsp).
Qed.

(** A tight field is read as it stands, whether or not a separator was
    just passed. *)
Lemma split_commas_tight (p rest : string) (after : bool) :
  tight p = true →
  JS.split_commas_go (p +:+ rest) "" "" after = JS.split_commas_go rest p "" false.
Proof.
  unfold tight. intros [[Hc Hf]%andb_true_iff Hl]%andb_true_iff.
  apply negb_true_iff in Hc.
  destruct p as [|c p]; [discriminate|]. apply negb_true_iff in Hf.
  simpl in Hc. destruct (Ascii.eqb c ","%char) eqn:Hcc; [discriminate|].
  rewrite app_cons_s. simpl. rewrite Hcc, Hf.
  destruct p as [|b p'].
  - by destruct after.
  - assert (JS.split_commas_go (String b p' +:+ rest) (String c "") "" false
            = JS.split_commas_go rest (String c "" +:+ "" +:+ String b p') "" false)
      as Hbody by (apply split_commas_body; assumption).
    by destruct after.
Qed.

Lemma split_commas_separator (b x cur : string) : ∀ ws : string,
  all_space b = true →
  JS.split_commas_go (b +:+ String ","%char x) cur ws false
  = cur :: JS.split_commas_go x "" "" true.
Proof.
  induction b as [|a b IH]; intros ws Hb; [reflexivity|].
  simpl in Hb. apply andb_true_iff in Hb as [Ha Hb].
  rewrite app_cons_s. simpl.
  destruct (Ascii.eqb_spec a ","%char) as [->|_]; [discriminate|].
  rewrite Ha. by apply IH.
Qed.

Lemma split_commas_skip (a x : string) :
  all_space a = true →
  JS.split_commas_go (a +:+ x) "" "" true = JS.split_commas_go x "" "" true.
Proof.
  induction a as [|c a IH]; intros Ha; [reflexivity|].
  simpl in Ha. apply andb_true_iff in Ha as [Hc Ha].
  rewrite app_cons_s. simpl.
  destruct (Ascii.eqb_spec c ","%char) as [->|_]; [discriminate|].
  rewrite Hc. by apply IH.
Qed.

Lemma split_commas_fields (more : list (string * string * string)) :
  ∀ (first : string) (after : bool),
  tight first = true → well_spaced more →
  JS.split_commas_go (spaced_fields first more) "" "" after
  = first :: map snd more.
Proof.
  induction more as [|[[b a] p] more IH]; intros first after Hf Hm.
  - simpl. rewrite <- (app_nil_r_s first) at 1.
    rewrite (split_commas_tight first "" after Hf). simpl.
    by rewrite app_nil_r_s.
  - inversion Hm as [|? ? (Hb & Ha & Hp) Hm']; subst. simpl in *.
    rewrite (split_commas_tight first _ after Hf).
    change ("," +:+ a +:+ spaced_fields p more)
      with (String ","%char (a +:+ spaced_fields p more)).
    rewrite (split_commas_separator b _ first "" Hb).
    rewrite (split_commas_skip a _ Ha).
    by rewrite (IH p true Hp Hm').
Qed.

(** X8.  The split of line 122 does what the comment above it says: the
    fields of a header come out as they are, whatever white space stands
    before and after the commas. *)
Theorem split_commas_tolerant (first : string)
    (more : list (string * string * string)) :
  tight first = true → well_spaced more →
  JS.split_commas (spaced_fields first more) = first :: map snd more.
Proof. intros Hf Hm. exact (split_commas_fields more first false Hf Hm). Qed.

Lemma split_commas_tolerant_witness :
  tight ("Digest realm=" +:+ Digest.quoted "Login to ND021811019863") = true
  ∧ JS.split_commas
      (spaced_fields ("Digest realm=" +:+ Digest.quoted "Login to ND021811019863")
         [("", " ", "qop=" +:+ Digest.quoted "auth");
          (" ", "  ", "nonce=" +:+ Digest.quoted "211955164");
          (String "009"%char "", "", "opaque=" +:+ Digest.quoted "9a206a55")])
    = ["Digest realm=" +:+ Digest.quoted "Login to ND021811019863";
       "qop=" +:+ Digest.quoted "auth";
       "nonce=" +:+ Digest.quoted "211955164";
       "opaque=" +:+ Digest.quoted "9a206a55"].
Proof.
  split; [reflexivity|].
  apply (split_commas_tolerant
           ("Digest realm=" +:+ Digest.quoted "Login to ND021811019863")
           [("", " ", "qop=" +:+ Digest.quoted "auth");
            (" ", "  ", "nonce=" +:+ Digest.quoted "211955164");
            (String "009"%char "", "", "opaque=" +:+ Digest.quoted "9a206a55")]);
    [reflexivity|].
  repeat constructor.
Defined.

Lemma split_field (k v : string) (cut : option string) :
  JS.includes "="%char k = false → JS.includes "="%char v = false →
  JS.index (JS.split "="%char (field k v cut)) 1 = Some v.
Proof.
  intros Hk Hv. unfold field.
  change ("=" +:+ v +:+ match cut with Some x => "=" +:+ x | None => "" end)
    with (String "="%char (v +:+ match cut with Some x => "=" +:+ x | None => "" end)).
  rewrite split_app_sep, (split_without _ _ Hk).
  destruct cut as [x|].
  - change ("=" +:+ x) with (String "="%char x).
    by rewrite split_app_sep, (split_without _ _ Hv).
  - by rewrite app_nil_r_s, (split_without _ _ Hv).
Qed.

Lemma parse_challenge_fields (k0 v0 k2 v2 : string) (c0 c2 : option string)
    (b1 a1 f1 b2 a2 : string) (more : list (string * string * string)) :
  JS.includes "="%char k0 = false → JS.includes "="%char v0 = false →
  JS.includes "="%char k2 = false → JS.includes "="%char v2 = false →
  tight (field k0 v0 c0) = true →
  well_spaced ((b1, a1, f1) :: (b2, a2, field k2 v2 c2) :: more) →
  Digest.parse_challenge
    (spaced_fields (field k0 v0 c0) ((b1, a1, f1) :: (b2, a2, field k2 v2 c2) :: more))
  = inr (JS.remove_all dquote v0, JS.remove_all dquote v2).
Proof.
  intros Hk0 Hv0 Hk2 Hv2 Ht Hm. unfold Digest.parse_challenge.
  unfold JS.split_commas. rewrite (split_commas_fields _ _ false Ht Hm).
  cbn [map snd].
  change (JS.index (?x :: _) 0) with (Some x).
  cbv beta iota. rewrite (split_field k0 v0 c0 Hk0 Hv0).
  change (JS.index (_ :: _ :: ?x :: _) 2) with (Some x).
  cbv beta iota. by rewrite (split_field k2 v2 c2 Hk2 Hv2).
Qed.

(** X9.  The handler reads the realm and the nonce by position, not by
    name: whatever the names of the fields, whatever the second field,
    whatever follows the third, and whatever white space surrounds the
    commas, the realm is the value of the first field and the nonce the
    value of the third, each with every double quote removed, so quoted
    and unquoted values read alike. *)
Theorem challenge_read_by_position (k0 v0 k2 v2 : string)
    (b1 a1 f1 b2 a2 : string) (more : list (string * string * string)) :
  JS.includes "="%char k0 = false → JS.includes "="%char v0 = false →
  JS.includes "="%char k2 = false → JS.includes "="%char v2 = false →
  tight (field k0 v0 None) = true →
  well_spaced ((b1, a1, f1) :: (b2, a2, field k2 v2 None) :: more) →
  Digest.parse_challenge
    (spaced_fields (field k0 v0 None)
       ((b1, a1, f1) :: (b2, a2, field k2 v2 None) :: more))
  = inr (JS.remove_all dquote v0, JS.remove_all dquote v2).
Proof. apply parse_challenge_fields. Qed.

(** A challenge that names the nonce before the quality of protection is
    answered with the wrong nonce. *)
Lemma challenge_read_by_position_witness :
  tight (field "Digest realm" (Digest.quoted "Login to X") None) = true
  ∧ Digest.parse_challenge
      (spaced_fields (field "Digest realm" (Digest.quoted "Login to X") None)
         [("", " ", field "nonce" (Digest.quoted "abc123") None);
          ("", " ", field "qop" "auth" None)])
    = inr ("Login to X", "auth").
Proof.
  split; [reflexivity|].
  apply (challenge_read_by_position "Digest realm" (Digest.quoted "Login to X")
           "qop" "auth" "" " " (field "nonce" (Digest.quoted "abc123") None) "" " " []);
    try reflexivity.
  repeat constructor.
Defined.

(** X10.  A value is read up to its first [=]: a nonce that contains the
    character, as base64 text does at its end, is cut there. *)
Theorem nonce_cut_at_equals (k0 v0 k2 v2 lost : string)
    (b1 a1 f1 b2 a2 : string) (more : list (string * string * string)) :
  JS.includes "="%char k0 = false → JS.includes "="%char v0 = false →
  JS.includes "="%char k2 = false → JS.includes "="%char v2 = false →
  tight (field k0 v0 None) = true →
  well_spaced ((b1, a1, f1) :: (b2, a2, field k2 v2 (Some lost)) :: more) →
  Digest.parse_challenge
    (spaced_fields (field k0 v0 None)
       ((b1, a1, f1) :: (b2, a2, field k2 v2 (Some lost)) :: more))
  = inr (JS.remove_all dquote v0, JS.remove_all dquote v2).
Proof. apply parse_challenge_fields. Qed.

Lemma nonce_cut_at_equals_witness :
  field "nonce" (String dquote "MTYwNA") (Some ("=" +:+ String dquote ""))
  = "nonce=" +:+ Digest.quoted "MTYwNA=="
  ∧ Digest.parse_challenge
      (spaced_fields (field "Digest realm" (Digest.quoted "Login to X") None)
         [("", "", field "qop" (Digest.quoted "auth") None);
          ("", "", field "nonce" (String dquote "MTYwNA")
                     (Some ("=" +:+ String dquote "")))])
    = inr ("Login to X", "MTYwNA").
Proof.
  split; [reflexivity|].
  apply (nonce_cut_at_equals "Digest realm" (Digest.quoted "Login to X")
           "nonce" (String dquote "MTYwNA") ("=" +:+ String dquote "")
           "" "" (field "qop" (Digest.quoted "auth") None) "" "" []);
    try reflexivity.
  repeat constructor.
Defined.

(** The number of fields is the number of commas plus one. *)
Lemma split_commas_go_length (s : string) : ∀ (cur ws : string) (after : bool),
  length (JS.split_commas_go s cur ws after) = S (count_char ","%char s).
Proof.
  induction s as [|a s IH]; intros cur ws after; [reflexivity|]. simpl.
  destruct (Ascii.eqb a ","%char); simpl; [by rewrite IH|].
  destruct (JS.is_space a); [destruct after|]; by rewrite IH.
Qed.

Lemma parse_challenge_short (www : string) :
  count_char ","%char www < 2 → ∃ e, Digest.parse_challenge www = inl e.
Proof.
  intros Hc. unfold Digest.parse_challenge, JS.split_commas.
  pose proof (split_commas_go_length www "" "" false) as Hlen.
  destruct (JS.split_commas_go www "" "" false) as [|f0 [|f1 [|f2 rest]]];
    simpl in Hlen; try lia; simpl.
  - destruct (JS.index (JS.split "="%char f0) 1); eauto.
  - destruct (JS.index (JS.split "="%char f0) 1); eauto.
Qed.

(** X11.  A 401 whose challenge has fewer than two commas, a Basic
    challenge for one, is never answered: reading its third field
    raises, the failure is reported with one error signal, and the next
    attempt waits for the reconnect delay. *)
Theorem short_challenge_not_answered (this : DahuaEvents) (w : World) (i : nat)
    (r : Request) (err : AxiosError) (resp : AxiosResponse) (www : string)
    (random : list Z) :
  inflight w !! i = Some r →
  response err = Some resp →
  www_authenticate resp = Some www →
  count_char ","%char www < 2 →
  ∃ w', step this w (Rejected i err random) = Some w'
        ∧ reported_and_delayed this w i r w'.
Proof.
  intros Hr Hresp Hwww Hc.
  apply (step_rejected_other this w i r err random Hr).
  unfold answerable. rewrite Hresp, Hwww.
  destruct (status resp =? 401)%N; [|reflexivity].
  by destruct (parse_challenge_short www Hc) as [e ->].
Qed.

Lemma short_challenge_not_answered_witness :
  count_char ","%char ("Basic realm=" +:+ Digest.quoted "Login to X") < 2
  ∧ ∃ w', step Scenario.this Scenario.w0
            (Rejected 0
               {| response := Some {| status := 401; statusText := "Unauthorized";
                                      response_headers :=
                                        [("www-authenticate",
                                          "Basic realm=" +:+ Digest.quoted "Login to X")];
                                      data_statusMessage := Some "Unauthorized" |};
                  request := true;
                  message := "Request failed with status code 401" |} [])
          = Some w'
          ∧ reported_and_delayed Scenario.this Scenario.w0 0 Scenario.first_request w'.
Proof.
  assert (count_char ","%char ("Basic realm=" +:+ Digest.quoted "Login to X") < 2)
    as Hc by (vm_compute; lia).
  split; [exact Hc|].
  apply (short_challenge_not_answered Scenario.this Scenario.w0 0
           Scenario.first_request
           {| response := Some {| status := 401; statusText := "Unauthorized";
                                  response_headers :=
                                    [("www-authenticate",
                                      "Basic realm=" +:+ Digest.quoted "Login to X")];
                                  data_statusMessage := Some "Unauthorized" |};
              request := true;
              message := "Request failed with status code 401" |}
           {| status := 401; statusText := "Unauthorized";
              response_headers :=
                [("www-authenticate", "Basic realm=" +:+ Digest.quoted "Login to X")];
              data_statusMessage := Some "Unauthorized" |}
           ("Basic realm=" +:+ Digest.quoted "Login to X") []);
    [vm_compute; reflexivity|reflexivity|reflexivity|exact Hc].
Defined.

(** * The platform *)

(** ** The validator *)

Lemma invalidCameraCredentials_spec (cc : CameraCredentials.t) :
  (invalidCameraCredentials cc).2 = negb (complete cc)
  ∧ (complete cc = true → (invalidCameraCredentials cc).1 = [])
  ∧ (complete cc = false → Exists is_error_line (invalidCameraCredentials cc).1).
Proof.
  unfold invalidCameraCredentials, complete.
  destruct (truthy (CameraCredentials.host cc)),
           (truthy (CameraCredentials.user cc)),
           (truthy (CameraCredentials.pass cc)); simpl;
    repeat split; try done; intros _; by constructor.
Qed.

Lemma check_camera_spec (camera : CameraConfig.t) :
  (check_camera camera).2 = negb (camera_ok camera)
  ∧ (camera_ok camera = true → (check_camera camera).1 = [])
  ∧ (camera_ok camera = false → Exists is_error_line (check_camera camera).1).
Proof.
  unfold check_camera, camera_ok.
  destruct (truthy (CameraConfig.cameraName camera)); simpl;
    [|repeat split; try done; intros _; by constructor].
  destruct (index_unset (CameraConfig.index camera)); simpl;
    [repeat split; try done; intros _; by constructor|].
  destruct (CameraConfig.triggerEventTypes camera) as [[|t types]|]; simpl;
    try (repeat split; try done; intros _; by constructor).
  destruct (CameraConfig.cameraCredentials camera) as [cc|]; simpl.
  - apply invalidCameraCredentials_spec.
  - repeat split; done.
Qed.

Lemma check_cameras_spec (cameras : list CameraConfig.t) : ∀ error : bool,
  (check_cameras cameras error).2 = error || negb (forallb camera_ok cameras)
  ∧ (forallb camera_ok cameras = true → (check_cameras cameras error).1 = [])
  ∧ (forallb camera_ok cameras = false →
     Exists is_error_line (check_cameras cameras error).1).
Proof.
  induction cameras as [|camera rest IH]; intros error; simpl.
  - rewrite orb_false_r. repeat split; done.
  - destruct (check_camera_spec camera) as (H2 & Hok & Hbad).
    destruct (check_camera camera) as [l1 e1]. simpl in *. subst e1.
    destruct (IH (error || negb (camera_ok camera))) as (IH2 & IHok & IHbad).
    destruct (check_cameras rest _) as [l2 e2]. simpl in *. subst e2.
    destruct (camera_ok camera); simpl in *.
    + rewrite orb_false_r. split; [reflexivity|]. split.
      * intros Hr. by rewrite (Hok eq_refl), (IHok Hr).
      * intros Hr. apply Exists_app. right. by apply IHbad.
    + rewrite orb_true_r. split; [reflexivity|]. split; [done|].
      intros _. apply Exists_app. left. by apply Hbad.
Qed.

Lemma isInvalidConfig_spec (config : DahuaCameraConfig.t) :
  (isInvalidConfig config).2 = negb (config_ok config)
  ∧ (config_ok config = true → (isInvalidConfig config).1 = [])
  ∧ (config_ok config = false → Exists is_error_line (isInvalidConfig config).1).
Proof.
  unfold isInvalidConfig, config_ok.
  destruct (truthy_port _); cbn [negb andb];
    [|repeat split; try done; intros _; by constructor].
  destruct (DahuaCameraConfig.cameras config) as [[|c cs]|];
    try (repeat split; try done; intros _; by constructor).
  cbv beta iota.
  destruct (check_cameras_spec (c :: cs) false) as (H2 & Hok & Hbad).
  destruct (check_cameras (c :: cs) false) as [l e].
  cbn [fst snd orb] in H2, Hok, Hbad. subst e.
  pose proof (invalidCameraCredentials_spec
                (CameraCredentials.mk (DahuaCameraConfig.host config)
                   (DahuaCameraConfig.user config) (DahuaCameraConfig.pass config)
                   false)) as (T2 & Tok & Tbad).
  unfold complete in T2, Tok, Tbad.
  cbn [CameraCredentials.host CameraCredentials.user CameraCredentials.pass]
    in T2, Tok, Tbad.
  destruct (truthy (DahuaCameraConfig.host config)
            || truthy (DahuaCameraConfig.user config)
            || truthy (DahuaCameraConfig.pass config)) eqn:Hany.
  - destruct (invalidCameraCredentials _) as [tl te].
    cbn [fst snd] in T2, Tok, Tbad |- *. subst te.
    destruct (truthy (DahuaCameraConfig.host config)
              && truthy (DahuaCameraConfig.user config)
              && truthy (DahuaCameraConfig.pass config)) eqn:Hall; cbn [negb].
    + rewrite (Tok eq_refl), andb_true_r. cbn [app fst snd].
      repeat split; auto.
    + rewrite andb_false_r. cbn [negb fst snd].
      repeat split; try done; intros _; by apply Tbad.
  - cbn [fst snd app]. rewrite andb_true_r. repeat split; auto.
Qed.

(** X12.  The validator accepts a configuration exactly when it has a
    port, at least one camera, every camera has a name, an index that is
    a number (0 counts, NaN does not), at least one event type and
    credentials that are complete if present, and the platform's own
    host, user and password are all there or all absent.  It accepts
    without a word and rejects with at least one error line. *)
Theorem validator_accepts (config : DahuaCameraConfig.t) :
  (isInvalidConfig config).2 = negb (config_ok config)
  ∧ (config_ok config = true → (isInvalidConfig config).1 = [])
  ∧ (config_ok config = false → Exists is_error_line (isInvalidConfig config).1).
Proof. exact (isInvalidConfig_spec config). Qed.

Lemma validator_accepts_witness :
  config_ok Installation.config = true
  ∧ isInvalidConfig Installation.config = ([], false)
  ∧ config_ok Installation.orphaned = true.
Proof.
  split; [reflexivity|].
  destruct (validator_accepts Installation.config) as (H2 & H1 & _).
  specialize (H1 eq_refl).
  destruct (isInvalidConfig Installation.config) as [l b].
  simpl in H1, H2. subst l b. split; reflexivity.
Defined.

(** ** The platform: from an alarm to the motion hook *)

Lemma config_ok_cameras (config : DahuaCameraConfig.t) :
  config_ok config = true →
  ∃ c cs, DahuaCameraConfig.cameras config = Some (c :: cs)
          ∧ Forall (fun c => camera_ok c = true) (c :: cs).
Proof.
  unfold config_ok. intros H.
  apply andb_prop in H as [H _]. apply andb_prop in H as [_ H].
  destruct (DahuaCameraConfig.cameras config) as [[|c cs]|]; try discriminate.
  exists c, cs. split; [reflexivity|].
  apply Forall_forall. intros x Hx. apply list_elem_of_In in Hx.
  by apply (proj1 (forallb_forall _ _) H).
Qed.

Lemma camera_ok_name (camera : CameraConfig.t) :
  camera_ok camera = true →
  ∃ name, CameraConfig.cameraName camera = Some name ∧ name ≠ "".
Proof.
  unfold camera_ok. intros H.
  repeat (apply andb_prop in H as [H _]).
  destruct (CameraConfig.cameraName camera) as [name|]; [|discriminate].
  exists name. split; [reflexivity|]. intros ->. discriminate.
Qed.

Lemma camera_ok_types (camera : CameraConfig.t) :
  camera_ok camera = true →
  ∃ t ts, CameraConfig.triggerEventTypes camera = Some (t :: ts).
Proof.
  unfold camera_ok. intros H.
  apply andb_prop in H as [H _]. apply andb_prop in H as [_ H].
  destruct (CameraConfig.triggerEventTypes camera) as [[|t ts]|]; try discriminate.
  by exists t, ts.
Qed.

Lemma find_camera_spec (config : DahuaCameraConfig.t) (alarm : DahuaAlarm.t)
    (l : list CameraConfig.t) :
  Forall (fun c => camera_ok c = true) l →
  find_camera (DahuaCameraConfig.host config) l alarm
  = inr (find (meant_for config alarm) l ≫= CameraConfig.cameraName).
Proof.
  induction 1 as [|c l Hc _ IH]; [reflexivity|].
  destruct (camera_ok_types c Hc) as (t & ts & Ht).
  cbn [find_camera find]. unfold meant_for at 1, camera_matches.
  rewrite Ht. cbn [default].
  destruct (strict_eqb _ _); cbn [andb]; [|exact IH].
  destruct (CameraConfig.cameraCredentials c) as [cc|].
  - destruct (same_host _ _); cbn [andb]; [|exact IH].
    destruct (includes_string _ _); [reflexivity|exact IH].
  - destruct (truthy _ && same_host _ _); cbn [andb]; [|exact IH].
    destruct (includes_string _ _); [reflexivity|exact IH].
Qed.

Lemma getCameraName_spec (config : DahuaCameraConfig.t) (alarm : DahuaAlarm.t) :
  config_ok config = true →
  getCameraName config alarm
  = inr (find (meant_for config alarm) (cameras_of config)
           ≫= CameraConfig.cameraName).
Proof.
  intros Hok. destruct (config_ok_cameras config Hok) as (c & cs & Hcs & Hall).
  unfold getCameraName, cameras_of. rewrite Hcs. cbn [default].
  by apply find_camera_spec.
Qed.

Lemma found_name (config : DahuaCameraConfig.t) (alarm : DahuaAlarm.t)
    (name : string) :
  config_ok config = true →
  find (meant_for config alarm) (cameras_of config) ≫= CameraConfig.cameraName
  = Some name →
  name ≠ "".
Proof.
  intros Hok Hf. destruct (config_ok_cameras config Hok) as (c & cs & Hcs & Hall).
  unfold cameras_of in Hf. rewrite Hcs in Hf. cbn [default] in Hf.
  destruct (find _ _) as [camera|] eqn:Hfind; [|discriminate].
  apply find_some in Hfind as [Hin _].
  apply list_elem_of_In in Hin.
  rewrite Forall_forall in Hall.
  destruct (camera_ok_name camera (Hall _ Hin)) as (n & Hn & Hne).
  simpl in Hf. congruence.
Qed.

(** X13.  On a configuration the validator accepts, the lookup of the
    camera of an alarm never raises and returns the name of the first
    camera the alarm is meant for (same index, same host, event type
    among its trigger types), or null when there is none; a name it
    returns is never empty, so the caller's test of it never hides a
    match. *)
Theorem camera_lookup (config : DahuaCameraConfig.t) (alarm : DahuaAlarm.t) :
  config_ok config = true →
  getCameraName config alarm
  = inr (find (meant_for config alarm) (cameras_of config)
           ≫= CameraConfig.cameraName)
  ∧ ∀ name, getCameraName config alarm = inr (Some name) → name ≠ "".
Proof.
  intros Hok. split; [by apply getCameraName_spec|].
  intros name. rewrite (getCameraName_spec _ _ Hok). intros [= H].
  by apply (found_name config alarm).
Qed.

Lemma camera_lookup_witness :
  config_ok Installation.config = true
  ∧ getCameraName Installation.config
      (DahuaAlarm.mk "VideoMotion" "Start" (JInt 0) "10.0.0.9")
    = inr (Some "Garage").
Proof.
  split; [reflexivity|].
  exact (proj1 (camera_lookup Installation.config
                  (DahuaAlarm.mk "VideoMotion" "Start" (JInt 0) "10.0.0.9")
                  eq_refl)).
Defined.

Lemma strict_eqb_NaN (x : option JSNumber) : strict_eqb x NaN = false.
Proof. by destruct x as [[]|]. Qed.

Lemma find_camera_NaN (h : option string) (alarm : DahuaAlarm.t)
    (l : list CameraConfig.t) :
  DahuaAlarm.index alarm = NaN → find_camera h l alarm = inr None.
Proof.
  intros Hn. induction l as [|c l IH]; [reflexivity|].
  cbn [find_camera]. by rewrite Hn, strict_eqb_NaN.
Qed.

(** X14.  An alarm whose index is NaN (the parser publishes one for a
    record whose index is not a number) is mapped to no camera: whatever
    the cameras of the configuration are, valid or not, the listener
    does nothing and does not raise. *)
Theorem nan_index_reaches_no_camera (show : JSNumber → string)
    (config : DahuaCameraConfig.t) (alarm : DahuaAlarm.t) :
  is_Some (DahuaCameraConfig.cameras config) →
  DahuaAlarm.index alarm = NaN →
  alertMotion show config alarm = silent.
Proof.
  intros [l Hl] Hn. unfold alertMotion, getCameraName.
  by rewrite Hl, (find_camera_NaN _ _ _ Hn).
Qed.

Lemma nan_index_reaches_no_camera_witness :
  alertMotion Installation.show Installation.config
    (DahuaAlarm.mk "VideoMotion" "Start" NaN "10.0.0.5")
  = silent.
Proof.
  apply nan_index_reaches_no_camera; [by eexists|reflexivity].
Defined.

Lemma parse_try_no_record (data : string) :
  qualifying_lines data = [] → parse_try data = (sentinel, None).
Proof.
  unfold qualifying_lines, parse_try. intros Hq.
  destruct (forEach_complete (JS.split LF data) sentinel) as (res & Hres & Hlast).
  { rewrite Hq. constructor. }
  rewrite Hq in Hlast. simpl in Hlast. by rewrite Hres, Hlast.
Qed.

Lemma alertMotion_other_action (show : JSNumber → string)
    (config : DahuaCameraConfig.t) (alarm : DahuaAlarm.t) :
  config_ok config = true →
  DahuaAlarm.action alarm ≠ "Start" → DahuaAlarm.action alarm ≠ "Stop" →
  alertMotion show config alarm = silent.
Proof.
  intros Hok H1 H2. unfold alertMotion.
  rewrite (getCameraName_spec _ _ Hok).
  destruct (_ ≫= _) as [name|]; [|reflexivity].
  destruct (String.eqb name ""); [reflexivity|].
  apply String.eqb_neq in H1, H2. by rewrite H1, H2.
Qed.

(** X15.  A chunk without any record line still publishes an alarm (the
    sentinel), and on a configuration the validator accepts the platform
    ignores it: no log line, no request to the motion hook, no
    exception. *)
Theorem no_record_no_motion (show : JSNumber → string)
    (config : DahuaCameraConfig.t) (this : DahuaEvents) (data : string)
    (w : World) :
  config_ok config = true →
  qualifying_lines data = [] →
  ∃ traces a,
    emitted (on_data this data w) = emitted w ++ traces ++ [alarm a]
    ∧ Forall (fun e => name e = DEBUG_EVENT_NAME) traces
    ∧ alertMotion show config a = silent.
Proof.
  intros Hok Hq.
  destruct (on_data_emitted this data w) as (traces & Hem & Htr & _).
  exists traces, (stamped (parse_try data).1 (host this)).
  split; [exact Hem|]. split; [exact Htr|].
  rewrite (parse_try_no_record _ Hq).
  by apply alertMotion_other_action.
Qed.

Lemma no_record_no_motion_witness :
  ∃ traces a,
    emitted (on_data Scenario.this "--myboundary" empty_world)
    = emitted empty_world ++ traces ++ [alarm a]
    ∧ Forall (fun e => name e = DEBUG_EVENT_NAME) traces
    ∧ alertMotion Installation.show Installation.config a = silent.
Proof.
  apply (no_record_no_motion Installation.show Installation.config Scenario.this
           "--myboundary" empty_world); reflexivity.
Defined.

Lemma alertMotion_found (show : JSNumber → string)
    (config : DahuaCameraConfig.t) (alarm : DahuaAlarm.t) (name : string)
    (start : bool) :
  getCameraName config alarm = inr (Some name) → name ≠ "" →
  DahuaAlarm.action alarm = (if start then "Start" else "Stop") →
  ∃ msg,
    alertMotion show config alarm
    = {| effects := [Log LogDebug msg;
                     Post (if start then motionUrl config name
                           else resetMotionUrl config name)];
         raised := None |}.
Proof.
  intros Hg Hn Ha. unfold alertMotion. rewrite Hg, Ha.
  apply String.eqb_neq in Hn. rewrite Hn.
  destruct start; simpl; by eexists.
Qed.

(** X16.  From the wire to the motion hook: a chunk holding one record
    line for event type [e], action Start or Stop and index [n], coming
    from the connection to host [h], makes the platform post exactly one
    request, to the motion address (Start) or the reset address (Stop)
    of the first camera configured with index [n], host [h] and [e]
    among its trigger types. *)
Theorem record_reaches_hook (show : JSNumber → string)
    (config : DahuaCameraConfig.t) (this : DahuaEvents) (w : World)
    (pre post : list string) (e : string) (start : bool) (n : N)
    (pad : string) (trailer : option string)
    (camera : CameraConfig.t) (cname : string) :
  let a := if start then "Start" else "Stop" in
  config_ok config = true →
  Forall plain_line pre → Forall plain_line post → plain_line e →
  all_space pad = true → JS.includes LF pad = false →
  (∀ t, trailer = Some t → JS.includes LF t = false) →
  find (meant_for config (DahuaAlarm.mk e a (JInt (Z.of_N n)) (host this)))
       (cameras_of config) = Some camera →
  CameraConfig.cameraName camera = Some cname →
  ∃ traces al msg,
    emitted (on_data this
               (JS.join (String LF "") (pre ++ record_line e a n pad trailer :: post)) w)
    = emitted w ++ traces ++ [alarm al]
    ∧ alertMotion show config al
      = {| effects := [Log LogDebug msg;
                       Post (if start then motionUrl config cname
                             else resetMotionUrl config cname)];
           raised := None |}.
Proof.
  intros a Hok Hpre Hpost He Hpad HpadL Htr Hfind Hname.
  set (data := JS.join _ _).
  destruct (on_data_emitted this data w) as (traces & Hem & _ & _).
  assert (plain_line a) as Ha by (destruct start; split; reflexivity).
  pose proof (parse_record pre post e a n pad trailer w Hpre Hpost He Ha Hpad
                HpadL Htr) as Hp.
  fold data in Hp.
  assert ((parse_try data).1 = Parsed.mk a (JInt (Z.of_N n)) e) as Hv.
  { rewrite <- (parseEventData_try data w). by rewrite Hp. }
  set (al := stamped (parse_try data).1 (host this)) in *.
  assert (al = DahuaAlarm.mk e a (JInt (Z.of_N n)) (host this)) as Hal.
  { unfold al. by rewrite Hv. }
  assert (getCameraName config al = inr (Some cname)) as Hg.
  { rewrite (getCameraName_spec _ _ Hok), Hal, Hfind. exact (f_equal inr Hname). }
  destruct (alertMotion_found show config al cname start Hg) as [msg Hmsg].
  - apply (found_name config al _ Hok).
    by rewrite Hal, Hfind.
  - by rewrite Hal.
  - by exists traces, al, msg.
Qed.

Lemma record_reaches_hook_witness :
  ∃ traces al msg,
    emitted (on_data Scenario.this
               (JS.join (String LF "")
                  (["--myboundary"; "Content-Type: text/plain"; ""]
                   ++ record_line "VideoMotion" "Start" 1 (String "013"%char "")
                        (Some "data={")
                   :: ["}"])) empty_world)
    = emitted empty_world ++ traces ++ [alarm al]
    ∧ alertMotion Installation.show Installation.config al
      = {| effects := [Log LogDebug msg;
                       Post "http://localhost:8080/motion?Yard"];
           raised := None |}.
Proof.
  apply (record_reaches_hook Installation.show Installation.config Scenario.this
           empty_world ["--myboundary"; "Content-Type: text/plain"; ""] ["}"]
           "VideoMotion" true 1 (String "013"%char "") (Some "data={")
           Installation.yard "Yard");
    try reflexivity; try (by repeat constructor).
  intros t [= <-]. reflexivity.
Defined.

(** ** The address of the motion hook *)

Lemma all_chars_app (p : ascii → bool) (s t : string) :
  all_chars p (s +:+ t) = all_chars p s && all_chars p t.
Proof.
  induction s as [|c s IH]; [reflexivity|].
  rewrite app_cons_s. simpl. by rewrite IH, andb_assoc.
Qed.

Lemma encodeURI_app (s t : string) :
  URI.encodeURI (s +:+ t) = URI.encodeURI s +:+ URI.encodeURI t.
Proof.
  induction s as [|c s IH]; [reflexivity|].
  rewrite app_cons_s. simpl. by rewrite IH, app_assoc_s.
Qed.

Lemma encodeURI_kept (s : string) :
  all_chars URI.kept s = true → URI.encodeURI s = s.
Proof.
  induction s as [|c s IH]; [reflexivity|]. simpl.
  intros [Hc Hs]%andb_prop. unfold URI.encode_unit. rewrite Hc, (IH Hs).
  reflexivity.
Qed.

Lemma digit_kept (c : ascii) (d : N) :
  Num.digit_val 10 c = Some d → URI.kept c = true.
Proof.
  destruct c as [[] [] [] [] [] [] [] []]; vm_compute; congruence.
Qed.

Lemma digits_only_kept (s : string) :
  digits_only s = true → all_chars URI.kept s = true.
Proof.
  induction s as [|c s IH]; [reflexivity|]. simpl.
  destruct (Num.digit_val 10 c) as [d|] eqn:Hd; [|discriminate].
  intros Hs. by rewrite (digit_kept c d Hd), (IH Hs).
Qed.

Lemma template_port_kept (config : DahuaCameraConfig.t) :
  all_chars URI.kept (template_port config) = true.
Proof.
  unfold template_port.
  destruct (DahuaCameraConfig.homebridgeCameraFfmpegHttpPort config) as [n|];
    [|reflexivity].
  apply digits_only_kept, toString_digits_only.
Qed.

Lemma encodeURI_address (config : DahuaCameraConfig.t) (path name : string) :
  all_chars URI.kept path = true →
  URI.encodeURI ("http://localhost:" +:+ template_port config +:+ path +:+ name)
  = "http://localhost:" +:+ template_port config +:+ path +:+ URI.encodeURI name.
Proof.
  intros Hp.
  rewrite !encodeURI_app.
  rewrite (encodeURI_kept "http://localhost:") by reflexivity.
  by rewrite (encodeURI_kept _ (template_port_kept config)), (encodeURI_kept _ Hp).
Qed.

(** X17.  A camera name made of characters [encodeURI] keeps (letters,
    digits and [; / ? : @ & = + $ , # - _ . ! ~ * ' ( )]) is put into the
    two addresses of the motion hook as it is, after the port in decimal:
    also a [#], [&] or [?] of the name reaches the address unescaped. *)
Theorem motion_url_plain (config : DahuaCameraConfig.t) (port : N)
    (name : string) :
  DahuaCameraConfig.homebridgeCameraFfmpegHttpPort config = Some port →
  all_chars URI.kept name = true →
  motionUrl config name
  = "http://localhost:" +:+ Num.toString port +:+ "/motion?" +:+ name
  ∧ resetMotionUrl config name
    = "http://localhost:" +:+ Num.toString port +:+ "/motion/reset?" +:+ name.
Proof.
  intros Hport Hname. unfold motionUrl, resetMotionUrl.
  rewrite !encodeURI_address by reflexivity.
  rewrite (encodeURI_kept _ Hname).
  unfold template_port. by rewrite Hport.
Qed.

Lemma motion_url_plain_witness :
  motionUrl Installation.config "Yard#1" = "http://localhost:8080/motion?Yard#1"
  ∧ resetMotionUrl Installation.config "Yard#1"
    = "http://localhost:8080/motion/reset?Yard#1".
Proof.
  exact (motion_url_plain Installation.config 8080 "Yard#1" eq_refl eq_refl).
Defined.

Lemma encode_unit_escaped (c : ascii) :
  all_chars escaped_char (URI.encode_unit c) = true.
Proof.
  destruct c as [[] [] [] [] [] [] [] []]; vm_compute; reflexivity.
Qed.

Lemma encodeURI_escaped (s : string) :
  all_chars escaped_char (URI.encodeURI s) = true.
Proof.
  induction s as [|c s IH]; [reflexivity|]. simpl.
  by rewrite all_chars_app, encode_unit_escaped, IH.
Qed.

Lemma first_unit_encode (c : ascii) (rest : string) :
  Unescape.first_unit (URI.encode_unit c +:+ rest) = Some c.
Proof.
  destruct c as [[] [] [] [] [] [] [] []]; reflexivity.
Qed.

Lemma encode_unit_nonempty (c : ascii) : URI.encode_unit c ≠ "".
Proof.
  destruct c as [[] [] [] [] [] [] [] []]; vm_compute; discriminate.
Qed.

Lemma app_inv_head_s (p s t : string) : p +:+ s = p +:+ t → s = t.
Proof.
  induction p as [|c p IH]; [done|].
  rewrite !app_cons_s. intros [= H]. by apply IH.
Qed.

Lemma encodeURI_inj (s : string) : ∀ t,
  URI.encodeURI s = URI.encodeURI t → s = t.
Proof.
  induction s as [|c s IH]; intros [|d t]; simpl; intros H.
  - reflexivity.
  - exfalso. destruct (URI.encode_unit d) as [|x u] eqn:Hd.
    + by apply (encode_unit_nonempty d).
    + rewrite app_cons_s in H. discriminate.
  - exfalso. destruct (URI.encode_unit c) as [|x u] eqn:Hc.
    + by apply (encode_unit_nonempty c).
    + rewrite app_cons_s in H. discriminate.
  - assert (c = d) as ->.
    { pose proof (first_unit_encode c (URI.encodeURI s)) as H1.
      rewrite H, first_unit_encode in H1. congruence. }
    f_equal. apply IH. by apply (app_inv_head_s (URI.encode_unit d)).
Qed.

(** X18.  Whatever the camera name, the two addresses of the motion hook
    consist of characters [encodeURI] keeps and of percent signs only (no
    space, no quote, no code unit from 128 on), and both carry the name
    after the same prefix, escaped. *)
Theorem motion_url_escaped (config : DahuaCameraConfig.t) (name : string) :
  all_chars escaped_char (motionUrl config name) = true
  ∧ all_chars escaped_char (resetMotionUrl config name) = true
  ∧ motionUrl config name
    = "http://localhost:" +:+ template_port config +:+ "/motion?"
      +:+ URI.encodeURI name
  ∧ resetMotionUrl config name
    = "http://localhost:" +:+ template_port config +:+ "/motion/reset?"
      +:+ URI.encodeURI name.
Proof.
  unfold motionUrl, resetMotionUrl.
  split; [apply encodeURI_escaped|]. split; [apply encodeURI_escaped|].
  split; by apply encodeURI_address.
Qed.

Lemma before_hash_clean (s t : string) :
  JS.includes "#"%char s = false → before_hash (s +:+ t) = s +:+ before_hash t.
Proof.
  induction s as [|c s IH]; [reflexivity|]. simpl.
  rewrite !app_cons_s. simpl.
  destruct (Ascii.eqb c "#"%char); [discriminate|].
  intros H. by rewrite (IH H).
Qed.

Lemma before_hash_encode_unit (c : ascii) (rest : string) :
  before_hash (URI.encode_unit c +:+ rest)
  = if Ascii.eqb c "#"%char then "" else URI.encode_unit c +:+ before_hash rest.
Proof.
  destruct c as [[] [] [] [] [] [] [] []]; reflexivity.
Qed.

Lemma before_hash_encodeURI (s : string) :
  before_hash (URI.encodeURI s) = URI.encodeURI (before_hash s).
Proof.
  induction s as [|c s IH]; [reflexivity|]. simpl.
  rewrite before_hash_encode_unit.
  destruct (Ascii.eqb c "#"%char); [reflexivity|]. simpl. by rewrite IH.
Qed.

Lemma template_port_no_hash (config : DahuaCameraConfig.t) :
  JS.includes "#"%char (template_port config) = false.
Proof.
  unfold template_port.
  destruct (DahuaCameraConfig.homebridgeCameraFfmpegHttpPort config) as [n|];
    [|reflexivity].
  exact (digits_only_free "#"%char _ eq_refl (toString_digits_only n)).
Qed.

Lemma before_hash_address (config : DahuaCameraConfig.t) (path name : string) :
  all_chars URI.kept path = true → JS.includes "#"%char path = false →
  before_hash
    (URI.encodeURI ("http://localhost:" +:+ template_port config +:+ path +:+ name))
  = "http://localhost:" +:+ template_port config +:+ path
    +:+ URI.encodeURI (before_hash name).
Proof.
  intros Hk Hp. rewrite (encodeURI_address config path name Hk).
  rewrite (before_hash_clean "http://localhost:") by reflexivity.
  rewrite (before_hash_clean _ _ (template_port_no_hash config)).
  by rewrite (before_hash_clean _ _ Hp), before_hash_encodeURI.
Qed.

(** X19.  Different camera names give different strings to [axios.post],
    for the motion and for the reset address: the escaping loses nothing
    of the name.  That is a statement about the strings.  [encodeURI]
    keeps a [#], and up to their first [#] two addresses agree exactly
    when the two names agree up to their first [#]: names that differ
    only after a [#] give addresses that differ only after it. *)
Theorem motion_url_distinct (config : DahuaCameraConfig.t) (n1 n2 : string) :
  n1 ≠ n2 →
  motionUrl config n1 ≠ motionUrl config n2
  ∧ resetMotionUrl config n1 ≠ resetMotionUrl config n2
  ∧ (before_hash (motionUrl config n1) = before_hash (motionUrl config n2)
     ↔ before_hash n1 = before_hash n2)
  ∧ (before_hash (resetMotionUrl config n1) = before_hash (resetMotionUrl config n2)
     ↔ before_hash n1 = before_hash n2).
Proof.
  intros Hne. unfold motionUrl, resetMotionUrl.
  split; [|split].
  1, 2: intros H; apply Hne, encodeURI_inj;
    rewrite !encodeURI_app in H;
    repeat (apply app_inv_head_s in H); exact H.
  rewrite !before_hash_address by reflexivity.
  split; (split; [|by intros ->]); intros H;
    repeat (apply app_inv_head_s in H); by apply encodeURI_inj.
Qed.

Lemma motion_url_distinct_witness :
  "Cam #1" ≠ "Cam #2"
  ∧ motionUrl Installation.config "Cam #1" ≠ motionUrl Installation.config "Cam #2"
  ∧ before_hash (motionUrl Installation.config "Cam #1")
    = before_hash (motionUrl Installation.config "Cam #2").
Proof.
  split; [discriminate|].
  destruct (motion_url_distinct Installation.config "Cam #1" "Cam #2"
              ltac:(discriminate)) as (H1 & _ & H2 & _).
  split; [exact H1|]. apply H2. reflexivity.
Defined.

(** ** One connection per host *)

Lemma key_eqb_eq (a b : option string) : key_eqb a b = true ↔ a = b.
Proof.
  destruct a as [x|], b as [y|]; simpl; try (split; congruence).
  rewrite String.eqb_eq. split; congruence.
Qed.

Lemma key_eqb_refl (a : option string) : key_eqb a a = true.
Proof. by apply key_eqb_eq. Qed.

Lemma key_eqb_ne (a b : option string) : a ≠ b → key_eqb a b = false.
Proof.
  intros H. destruct (key_eqb a b) eqn:E; [|reflexivity].
  by apply key_eqb_eq in E.
Qed.

Lemma map_get_set_eq (k : option string) (v : DahuaEventsConfig) (m : HostMap) :
  map_get k (map_set k v m) = Some v.
Proof.
  induction m as [|[k' v'] m IH]; simpl.
  - by rewrite key_eqb_refl.
  - destruct (key_eqb k' k) eqn:E; simpl; by rewrite E.
Qed.

Lemma map_get_set_ne (k k' : option string) (v : DahuaEventsConfig) (m : HostMap) :
  k ≠ k' → map_get k' (map_set k v m) = map_get k' m.
Proof.
  intros Hne. induction m as [|[k0 v0] m IH]; simpl.
  - by rewrite (key_eqb_ne _ _ Hne).
  - destruct (key_eqb k0 k) eqn:E; simpl.
    + apply key_eqb_eq in E as ->. by rewrite (key_eqb_ne _ _ Hne).
    + by rewrite IH.
Qed.

Lemma map_set_set (k : option string) (v1 v2 : DahuaEventsConfig) (m : HostMap) :
  map_set k v2 (map_set k v1 m) = map_set k v2 m.
Proof.
  induction m as [|[k0 v0] m IH]; simpl.
  - by rewrite key_eqb_refl.
  - destruct (key_eqb k0 k) eqn:E; simpl; rewrite E; [reflexivity|by rewrite IH].
Qed.

Lemma keys_set_elem (x k : option string) (v : DahuaEventsConfig) (m : HostMap) :
  x ∈ map fst (map_set k v m) → x = k ∨ x ∈ map fst m.
Proof.
  induction m as [|[k0 v0] m IH]; simpl.
  - intros ->%list_elem_of_singleton. by left.
  - destruct (key_eqb k0 k); simpl; [by right|].
    intros [->|H]%elem_of_cons; [right; apply list_elem_of_here|].
    destruct (IH H) as [->|H']; [by left|right; by apply list_elem_of_further].
Qed.

Lemma keys_set_NoDup (k : option string) (v : DahuaEventsConfig) (m : HostMap) :
  NoDup (map fst m) → NoDup (map fst (map_set k v m)).
Proof.
  induction m as [|[k0 v0] m IH]; simpl.
  - intros _. apply NoDup_singleton.
  - intros [Hk0 Hm]%NoDup_cons.
    destruct (key_eqb k0 k) eqn:E; simpl.
    + by apply NoDup_cons.
    + apply NoDup_cons. split; [|by apply IH].
      intros [->|H]%keys_set_elem; [|done].
      by rewrite key_eqb_refl in E.
Qed.

Lemma map_get_elem (k : option string) (v : DahuaEventsConfig) (m : HostMap) :
  map_get k m = Some v → (k, v) ∈ m.
Proof.
  induction m as [|[k0 v0] m IH]; simpl; [discriminate|].
  destruct (key_eqb k0 k) eqn:E.
  - apply key_eqb_eq in E as ->. intros [= ->]. apply list_elem_of_here.
  - intros H. by apply list_elem_of_further, IH.
Qed.

Lemma elem_key (k : option string) (v : DahuaEventsConfig) (m : HostMap) :
  (k, v) ∈ m → k ∈ map fst m.
Proof.
  induction m as [|[k0 v0] m IH]; [by intros ?%elem_of_nil|]. simpl.
  intros [[= -> ->]|H]%elem_of_cons; [apply list_elem_of_here|].
  by apply list_elem_of_further, IH.
Qed.

Lemma elem_map_get (k : option string) (v : DahuaEventsConfig) (m : HostMap) :
  NoDup (map fst m) → (k, v) ∈ m → map_get k m = Some v.
Proof.
  induction m as [|[k0 v0] m IH]; [by intros _ ?%elem_of_nil|]. simpl.
  intros [Hk0 Hm]%NoDup_cons [[= -> ->]|H]%elem_of_cons.
  - by rewrite key_eqb_refl.
  - destruct (key_eqb k0 k) eqn:E; [|by apply IH].
    apply key_eqb_eq in E as ->. exfalso. by apply Hk0, (elem_key _ v).
Qed.

Lemma includes_string_elem (x : string) (s : list string) :
  includes_string x s = true ↔ x ∈ s.
Proof.
  unfold includes_string. induction s as [|y s IH]; simpl.
  - split; [discriminate|by intros ?%elem_of_nil].
  - rewrite orb_true_iff, IH, String.eqb_eq, elem_of_cons. tauto.
Qed.

Lemma set_add_elem (s : list string) (x t : string) :
  t ∈ set_add s x ↔ t ∈ s ∨ t = x.
Proof.
  unfold set_add. destruct (includes_string x s) eqn:E.
  - apply includes_string_elem in E. split; [by left|]. by intros [H| ->].
  - rewrite elem_of_app, list_elem_of_singleton. tauto.
Qed.

Lemma set_add_NoDup (s : list string) (x : string) :
  NoDup s → NoDup (set_add s x).
Proof.
  intros Hs. unfold set_add. destruct (includes_string x s) eqn:E; [done|].
  apply NoDup_app. split; [done|]. split; [|apply NoDup_singleton].
  intros t Ht ->%list_elem_of_singleton.
  apply includes_string_elem in Ht. congruence.
Qed.

Lemma add_all_elem (types : list string) : ∀ (s : list string) (t : string),
  t ∈ add_all types s ↔ t ∈ s ∨ t ∈ types.
Proof.
  unfold add_all. induction types as [|x types IH]; intros s t; simpl.
  - rewrite elem_of_nil. tauto.
  - rewrite IH, set_add_elem, elem_of_cons. tauto.
Qed.

Lemma add_all_NoDup (types : list string) : ∀ s : list string,
  NoDup s → NoDup (add_all types s).
Proof.
  unfold add_all. induction types as [|x types IH]; intros s Hs; simpl; [done|].
  by apply IH, set_add_NoDup.
Qed.

Lemma camera_ok_credentials (camera : CameraConfig.t) (cc : CameraCredentials.t) :
  camera_ok camera = true →
  CameraConfig.cameraCredentials camera = Some cc →
  truthy (CameraCredentials.host cc) = true.
Proof.
  unfold camera_ok, complete. intros H Hcc. rewrite Hcc in H.
  apply andb_prop in H as [_ H].
  apply andb_prop in H as [H _]. by apply andb_prop in H as [H _].
Qed.

Lemma grouped_init (config : DahuaCameraConfig.t) :
  grouped config [] (initial_hosts config).
Proof.
  unfold grouped, initial_hosts.
  destruct (truthy (DahuaCameraConfig.host config)) eqn:Hh.
  - split; [apply NoDup_singleton|].
    split; [intros _; unfold map_has; simpl; by rewrite key_eqb_refl|].
    split; [|by intros c ?%elem_of_nil].
    intros k hc. simpl.
    destruct (key_eqb _ k) eqn:E; [|discriminate].
    apply key_eqb_eq in E as <-. intros [= <-]. simpl.
    split; [reflexivity|]. split; [exact Hh|]. split; [apply NoDup_nil_2|].
    by intros t ?%elem_of_nil.
  - split; [apply NoDup_nil_2|]. split; [discriminate|].
    split; [discriminate|by intros c ?%elem_of_nil].
Qed.

(** The callback as one update of the map: the entry of the camera's
    host, made on the spot if it has to be, gets the camera's types. *)
Lemma group_camera_spec (config : DahuaCameraConfig.t) (camera : CameraConfig.t)
    (m : HostMap) :
  camera_ok camera = true →
  (has_credentials camera = false →
   map_has (DahuaCameraConfig.host config) m = true) →
  ∃ hc0,
    match map_get (host_of config camera) m with
    | Some hc => hc0 = hc
    | None => ∃ cc, CameraConfig.cameraCredentials camera = Some cc
                    ∧ hc0 = {| events := []; server := cc |}
    end
    ∧ group_camera (DahuaCameraConfig.host config) camera m
      = inr (map_set (host_of config camera)
               {| events := add_all (types_of camera) (events hc0);
                  server := server hc0 |} m).
Proof.
  intros Hok Hhost.
  destruct (camera_ok_types camera Hok) as (t & ts & Ht).
  unfold group_camera, host_of, types_of, has_credentials, map_has in *.
  rewrite Ht. cbn [default].
  destruct (CameraConfig.cameraCredentials camera) as [cc|].
  - destruct (map_get (CameraCredentials.host cc) m) as [hc|] eqn:Hg; cbn [negb].
    + exists hc. by split.
    + exists {| events := []; server := cc |}.
      split; [by exists cc|]. cbn [events server].
      by rewrite map_set_set.
  - specialize (Hhost eq_refl).
    destruct (map_get (DahuaCameraConfig.host config) m) as [hc|]; [|discriminate].
    exists hc. by split.
Qed.

Lemma group_camera_grouped (config : DahuaCameraConfig.t)
    (processed : list CameraConfig.t) (camera : CameraConfig.t) (m : HostMap) :
  camera_ok camera = true →
  (has_credentials camera = false →
   truthy (DahuaCameraConfig.host config) = true) →
  grouped config processed m →
  ∃ m', group_camera (DahuaCameraConfig.host config) camera m = inr m'
        ∧ grouped config (processed ++ [camera]) m'.
Proof.
  intros Hok Hhost (Hnd & Hplat & Hent & Hcam).
  destruct (group_camera_spec config camera m Hok) as (hc0 & Hhc0 & Hg).
  { intros Hc. by apply Hplat, Hhost. }
  eexists. split; [exact Hg|].
  set (k := host_of config camera) in *.
  set (hc1 := {| events := add_all (types_of camera) (events hc0);
                 server := server hc0 |}) in *.
  assert (CameraCredentials.host (server hc0) = k ∧ truthy k = true
          ∧ NoDup (events hc0)
          ∧ ∀ t, t ∈ events hc0 →
              ∃ c, c ∈ processed ∧ host_of config c = k ∧ t ∈ types_of c)
    as (Hs0 & Hk & Hnd0 & Hev0).
  { destruct (map_get k m) as [hc|] eqn:Hget.
    - subst hc0. by apply Hent.
    - destruct Hhc0 as (cc & Hcc & ->). simpl.
      unfold k, host_of. rewrite Hcc.
      split; [reflexivity|]. split; [by apply (camera_ok_credentials camera)|].
      split; [apply NoDup_nil_2|]. by intros t ?%elem_of_nil. }
  split; [by apply keys_set_NoDup|].
  split.
  { intros Hh. unfold map_has.
    destruct (decide (k = DahuaCameraConfig.host config)) as [<-|Hne].
    - by rewrite map_get_set_eq.
    - rewrite (map_get_set_ne _ _ _ _ Hne). by apply Hplat. }
  split.
  - intros k' hc.
    destruct (decide (k = k')) as [<-|Hne].
    + rewrite map_get_set_eq. intros [= <-]. simpl.
      split; [exact Hs0|]. split; [exact Hk|].
      split; [by apply add_all_NoDup|].
      intros t [Ht|Ht]%add_all_elem.
      * destruct (Hev0 t Ht) as (c & Hc & Hck & Hct).
        exists c. split; [apply elem_of_app; by left|by split].
      * exists camera.
        split; [apply elem_of_app; right; by apply list_elem_of_singleton|by split].
    + rewrite (map_get_set_ne _ _ _ _ Hne). intros Hget.
      destruct (Hent k' hc Hget) as (H1 & H2 & H3 & H4).
      split; [exact H1|]. split; [exact H2|]. split; [exact H3|].
      intros t Ht. destruct (H4 t Ht) as (c & Hc & Hck & Hct).
      exists c. split; [apply elem_of_app; by left|by split].
  - intros c [Hc| ->%list_elem_of_singleton]%elem_of_app.
    + destruct (Hcam c Hc) as (hc & Hget & Hsub).
      destruct (decide (k = host_of config c)) as [Heq|Hne].
      * exists hc1. rewrite <- Heq, map_get_set_eq. split; [reflexivity|].
        intros t Ht. apply add_all_elem. left.
        rewrite <- Heq in Hget.
        destruct (map_get k m) as [hc'|]; [|discriminate].
        subst hc0. injection Hget as ->. by apply Hsub.
      * exists hc. by rewrite (map_get_set_ne _ _ _ _ Hne).
    + exists hc1. fold k. rewrite map_get_set_eq. split; [reflexivity|].
      intros t Ht. apply add_all_elem. by right.
Qed.

Lemma group_cameras_grouped (config : DahuaCameraConfig.t)
    (l : list CameraConfig.t) : ∀ (processed : list CameraConfig.t) (m : HostMap),
  Forall (fun c => camera_ok c = true) l →
  Forall (fun c => has_credentials c = false →
                   truthy (DahuaCameraConfig.host config) = true) l →
  grouped config processed m →
  ∃ m', group_cameras (DahuaCameraConfig.host config) l m = inr m'
        ∧ grouped config (processed ++ l) m'.
Proof.
  induction l as [|c l IH]; intros processed m Hok Hh Hg.
  - exists m. by rewrite app_nil_r.
  - apply Forall_cons in Hok as [Hc Hok]. apply Forall_cons in Hh as [Hhc Hh].
    destruct (group_camera_grouped config processed c m Hc Hhc Hg) as (m1 & H1 & Hg1).
    destruct (IH (processed ++ [c]) m1 Hok Hh Hg1) as (m' & H' & Hg').
    exists m'. simpl. rewrite H1. split; [exact H'|].
    by rewrite <- app_assoc in Hg'.
Qed.

Lemma isInvalidConfig_ok (config : DahuaCameraConfig.t) :
  config_ok config = true → isInvalidConfig config = ([], false).
Proof.
  intros Hok. destruct (isInvalidConfig_spec config) as (H2 & H1 & _).
  rewrite Hok in H2. specialize (H1 Hok).
  destruct (isInvalidConfig config) as [l b]. simpl in *. congruence.
Qed.

Lemma hosted_cameras (config : DahuaCameraConfig.t) :
  hosted config = true →
  Forall (fun c => has_credentials c = false →
                   truthy (DahuaCameraConfig.host config) = true)
         (cameras_of config).
Proof.
  unfold hosted. intros [H|H]%orb_prop.
  - apply Forall_forall. by intros c _ _.
  - apply Forall_forall. intros c Hc%list_elem_of_In Hno.
    rewrite forallb_forall in H. specialize (H c Hc). congruence.
Qed.

Lemma new_platform_grouped (config : DahuaCameraConfig.t) :
  config_ok config = true → hosted config = true →
  ∃ m, new_platform config = {| effects := map connect_host m; raised := None |}
       ∧ grouped config (cameras_of config) m.
Proof.
  intros Hok Hh. pose proof (hosted_cameras config Hh) as Hall.
  destruct (config_ok_cameras config Hok) as (c & cs & Hcs & Hcams).
  unfold new_platform. rewrite (isInvalidConfig_ok config Hok).
  unfold cameras_of in *. rewrite Hcs in *. cbn [default] in *.
  destruct (group_cameras_grouped config (c :: cs) [] (initial_hosts config)
              Hcams Hall (grouped_init config)) as (m & Hm & Hg).
  exists m. rewrite Hm. by split.
Qed.

(** X20.  On a configuration the validator accepts and in which every
    camera has a host (credentials of its own, or the platform's host),
    the constructor raises nothing, logs nothing and opens exactly one
    connection per distinct host: no two connections share a host, every
    camera's host has a connection that subscribes to all of the camera's
    trigger event types, and a connection subscribes, without
    repetition, only to event types some camera of its host asks for. *)
Theorem one_connection_per_host (config : DahuaCameraConfig.t) :
  config_ok config = true → hosted config = true →
  ∃ m : HostMap,
    new_platform config = {| effects := map connect_host m; raised := None |}
    ∧ NoDup (map fst m)
    ∧ (∀ c, c ∈ cameras_of config →
         ∃ hc, (host_of config c, hc) ∈ m
               ∧ ∀ t, t ∈ types_of c → t ∈ events hc)
    ∧ (∀ k hc, (k, hc) ∈ m →
         CameraCredentials.host (server hc) = k ∧ truthy k = true
         ∧ NoDup (events hc)
         ∧ ∀ t, t ∈ events hc →
             ∃ c, c ∈ cameras_of config ∧ host_of config c = k ∧ t ∈ types_of c).
Proof.
  intros Hok Hh.
  destruct (new_platform_grouped config Hok Hh) as (m & Hm & Hnd & _ & Hent & Hcam).
  exists m. split; [exact Hm|]. split; [exact Hnd|]. split.
  - intros c Hc. destruct (Hcam c Hc) as (hc & Hget & Hsub).
    exists hc. split; [by apply map_get_elem|exact Hsub].
  - intros k hc Hin. by apply Hent, elem_map_get.
Qed.

Lemma one_connection_per_host_witness :
  config_ok Installation.config = true
  ∧ hosted Installation.config = true
  ∧ ∃ m : HostMap,
      new_platform Installation.config
      = {| effects := map connect_host m; raised := None |}
      ∧ NoDup (map fst m)
      ∧ (∀ c, c ∈ cameras_of Installation.config →
           ∃ hc, (host_of Installation.config c, hc) ∈ m
                 ∧ ∀ t, t ∈ types_of c → t ∈ events hc)
      ∧ (∀ k hc, (k, hc) ∈ m →
           CameraCredentials.host (server hc) = k ∧ truthy k = true
           ∧ NoDup (events hc)
           ∧ ∀ t, t ∈ events hc →
               ∃ c, c ∈ cameras_of Installation.config
                    ∧ host_of Installation.config c = k ∧ t ∈ types_of c).
Proof.
  split; [reflexivity|]. split; [reflexivity|].
  exact (one_connection_per_host Installation.config eq_refl eq_refl).
Defined.

(** ** A camera without a host *)

Lemma group_cameras_orphan (config : DahuaCameraConfig.t)
    (l : list CameraConfig.t) : ∀ m : HostMap,
  truthy (DahuaCameraConfig.host config) = false →
  Forall (fun c => camera_ok c = true) l →
  forallb has_credentials l = false →
  (∀ k hc, map_get k m = Some hc → truthy k = true) →
  group_cameras (DahuaCameraConfig.host config) l m
  = inl (reading_of_undefined "events").
Proof.
  induction l as [|c l IH]; intros m Hh Hok Hcred Hkeys; [discriminate|].
  apply Forall_cons in Hok as [Hc Hok]. simpl in Hcred |- *.
  destruct (has_credentials c) eqn:Hhas.
  - destruct (group_camera_spec config c m Hc) as (hc0 & _ & Hg); [congruence|].
    rewrite Hg. apply IH; try done.
    intros k hc.
    destruct (decide (host_of config c = k)) as [<-|Hne].
    + intros _. unfold host_of, has_credentials in *.
      destruct (CameraConfig.cameraCredentials c) as [cc|] eqn:Hcc; [|discriminate].
      by apply (camera_ok_credentials c).
    + rewrite (map_get_set_ne _ _ _ _ Hne). apply Hkeys.
  - destruct (camera_ok_types c Hc) as (t & ts & Ht).
    unfold group_camera, has_credentials in *. rewrite Ht.
    destruct (CameraConfig.cameraCredentials c); [discriminate|].
    destruct (map_get (DahuaCameraConfig.host config) m) as [hc|] eqn:Hget;
      [|reflexivity].
    apply Hkeys in Hget. congruence.
Qed.

(** X21.  The validator does not ask for a host: on a configuration it
    accepts in which some camera has no credentials and the platform has
    no host either, the constructor is ended by a TypeError (it reads
    [events] of the entry it did not find) before any connection is
    opened, and nothing is logged. *)
Theorem camera_without_host_stops_constructor (config : DahuaCameraConfig.t) :
  config_ok config = true → hosted config = false →
  new_platform config
  = {| effects := []; raised := Some (reading_of_undefined "events") |}.
Proof.
  intros Hok Hh. unfold hosted in Hh. apply orb_false_elim in Hh as [Hhost Hcred].
  destruct (config_ok_cameras config Hok) as (c & cs & Hcs & Hcams).
  unfold new_platform. rewrite (isInvalidConfig_ok config Hok).
  unfold cameras_of in Hcred. rewrite Hcs in *. cbn [default] in Hcred.
  rewrite (group_cameras_orphan config (c :: cs) (initial_hosts config)
             Hhost Hcams Hcred); [reflexivity|].
  unfold initial_hosts. rewrite Hhost. discriminate.
Qed.

Lemma camera_without_host_stops_constructor_witness :
  (isInvalidConfig Installation.orphaned).2 = false
  ∧ new_platform Installation.orphaned
    = {| effects := []; raised := Some (reading_of_undefined "events") |}.
Proof.
  split; [reflexivity|].
  exact (camera_without_host_stops_constructor Installation.orphaned eq_refl eq_refl).
Defined.

(** ** Whose credentials a connection uses *)

Lemma first_credentials_snoc (k : option string) (l : list CameraConfig.t)
    (c : CameraConfig.t) :
  first_credentials k (l ++ [c])
  = match first_credentials k l with
    | Some cc => Some cc
    | None => first_credentials k [c]
    end.
Proof.
  induction l as [|x l IH]; simpl.
  - by destruct (CameraConfig.cameraCredentials c) as [cc|];
      [destruct (key_eqb _ k)|].
  - destruct (CameraConfig.cameraCredentials x) as [cc|]; [|exact IH].
    destruct (key_eqb _ k); [reflexivity|exact IH].
Qed.

Lemma served_init (config : DahuaCameraConfig.t) :
  served config [] (initial_hosts config).
Proof.
  intros k. unfold initial_hosts, credentials_for.
  destruct (truthy (DahuaCameraConfig.host config)); simpl; [|reflexivity].
  by destruct (key_eqb _ k).
Qed.

Lemma group_camera_served (config : DahuaCameraConfig.t)
    (processed : list CameraConfig.t) (camera : CameraConfig.t) (m m' : HostMap) :
  camera_ok camera = true →
  (has_credentials camera = false →
   map_has (DahuaCameraConfig.host config) m = true) →
  group_camera (DahuaCameraConfig.host config) camera m = inr m' →
  served config processed m →
  served config (processed ++ [camera]) m'.
Proof.
  intros Hok Hhost Hm' Hs k.
  destruct (group_camera_spec config camera m Hok Hhost) as (hc0 & Hhc0 & Hg).
  rewrite Hg in Hm'. injection Hm' as <-.
  specialize (Hs k). unfold credentials_for in *.
  rewrite first_credentials_snoc.
  destruct (decide (host_of config camera = k)) as [<-|Hne].
  - rewrite map_get_set_eq. simpl.
    destruct (map_get (host_of config camera) m) as [hc|] eqn:Hget.
    + subst hc0. simpl in Hs.
      destruct (truthy _ && key_eqb _ _); [exact Hs|]. by rewrite <- Hs.
    + destruct Hhc0 as (cc & Hcc & ->). simpl in Hs |- *.
      destruct (truthy _ && key_eqb _ _); [discriminate|]. rewrite <- Hs.
      unfold host_of. rewrite Hcc. by rewrite key_eqb_refl.
  - rewrite (map_get_set_ne _ _ _ _ Hne), Hs.
    destruct (truthy _ && key_eqb _ _); [reflexivity|].
    destruct (first_credentials k processed); [reflexivity|]. simpl.
    unfold host_of in Hne.
    destruct (CameraConfig.cameraCredentials camera) as [cc|]; [|reflexivity].
    by rewrite (key_eqb_ne _ _ Hne).
Qed.

Lemma group_cameras_served (config : DahuaCameraConfig.t)
    (l : list CameraConfig.t) : ∀ (processed : list CameraConfig.t) (m m' : HostMap),
  Forall (fun c => camera_ok c = true) l →
  Forall (fun c => has_credentials c = false →
                   truthy (DahuaCameraConfig.host config) = true) l →
  grouped config processed m → served config processed m →
  group_cameras (DahuaCameraConfig.host config) l m = inr m' →
  served config (processed ++ l) m'.
Proof.
  induction l as [|c l IH]; intros processed m m' Hok Hh Hg Hs Hm'.
  - injection Hm' as <-. by rewrite app_nil_r.
  - apply Forall_cons in Hok as [Hc Hok]. apply Forall_cons in Hh as [Hhc Hh].
    destruct (group_camera_grouped config processed c m Hc Hhc Hg) as (m1 & H1 & Hg1).
    simpl in Hm'. rewrite H1 in Hm'.
    assert (served config (processed ++ [c]) m1) as Hs1.
    { apply (group_camera_served config processed c m m1 Hc); try done.
      intros Hno. destruct Hg as (_ & Hplat & _). by apply Hplat, Hhc. }
    pose proof (IH (processed ++ [c]) m1 m' Hok Hh Hg1 Hs1 Hm') as H.
    by rewrite <- app_assoc in H.
Qed.

Lemma new_platform_served (config : DahuaCameraConfig.t) :
  config_ok config = true → hosted config = true →
  ∃ m, new_platform config = {| effects := map connect_host m; raised := None |}
       ∧ grouped config (cameras_of config) m
       ∧ served config (cameras_of config) m.
Proof.
  intros Hok Hh. pose proof (hosted_cameras config Hh) as Hall.
  destruct (config_ok_cameras config Hok) as (c & cs & Hcs & Hcams).
  unfold new_platform. rewrite (isInvalidConfig_ok config Hok).
  unfold cameras_of in *. rewrite Hcs in *. cbn [default] in *.
  destruct (group_cameras_grouped config (c :: cs) [] (initial_hosts config)
              Hcams Hall (grouped_init config)) as (m & Hm & Hg).
  exists m. rewrite Hm. split; [reflexivity|]. split; [exact Hg|].
  exact (group_cameras_served config (c :: cs) [] _ m Hcams Hall
           (grouped_init config) (served_init config) Hm).
Qed.

(** X22.  Each connection the constructor opens for a host uses the
    platform's own credentials when the host is the platform's, whatever
    credentials the cameras give for that host, and otherwise the
    credentials of the first camera in the list that names the host:
    user, password and protocol that later cameras give for the same
    host are not used. *)
Theorem first_credentials_win (config : DahuaCameraConfig.t) (e : Effect) :
  config_ok config = true → hosted config = true →
  e ∈ effects (new_platform config) →
  ∃ cc, connection_of e = Some cc
        ∧ credentials_for config (cameras_of config) (CameraCredentials.host cc)
          = Some cc.
Proof.
  intros Hok Hh He.
  destruct (new_platform_served config Hok Hh)
    as (m & Hm & (Hnd & _ & Hent & _) & Hs).
  rewrite Hm in He. simpl in He.
  apply list_elem_of_In, in_map_iff in He as ([k hc] & <- & Hin).
  apply list_elem_of_In in Hin.
  pose proof (elem_map_get k hc m Hnd Hin) as Hget.
  destruct (Hent k hc Hget) as (Hk & _).
  exists (server hc). split.
  - unfold connect_host. simpl. by destruct (server hc).
  - rewrite <- (Hs (CameraCredentials.host (server hc))), Hk, Hget. reflexivity.
Qed.

Lemma first_credentials_win_witness :
  config_ok Conflict.config = true
  ∧ hosted Conflict.config = true
  ∧ NewDahuaEvents (Some "10.0.0.5") (Some "admin") (Some "pass") false ["VideoMotion"]
    ∈ effects (new_platform Conflict.config)
  ∧ ∃ cc, connection_of
            (NewDahuaEvents (Some "10.0.0.5") (Some "admin") (Some "pass") false
               ["VideoMotion"]) = Some cc
          ∧ credentials_for Conflict.config (cameras_of Conflict.config)
              (CameraCredentials.host cc) = Some cc.
Proof.
  split; [reflexivity|]. split; [reflexivity|].
  split; [apply list_elem_of_here|].
  apply (first_credentials_win Conflict.config _ eq_refl eq_refl).
  apply list_elem_of_here.
Defined.

(** ** Challenges by name and by position *)

Lemma last_not_space_app (s t : string) :
  t ≠ "" → last_not_space (s +:+ t) = last_not_space t.
Proof.
  intros Ht. induction s as [|a s IH]; [reflexivity|].
  rewrite app_cons_s.
  change (last_not_space (String a (s +:+ t)))
    with (match s +:+ t with
          | EmptyString => negb (JS.is_space a)
          | String _ _ => last_not_space (s +:+ t)
          end).
  destruct (s +:+ t) eqn:E; [|first [exact IH|rewrite <- E; exact IH]].
  exfalso. destruct s; [by rewrite app_nil_l_s in E|].
  rewrite app_cons_s in E. discriminate.
Qed.

Lemma token_shape (s : string) :
  Challenge.token s = true →
  (∃ a s', s = String a s' ∧ JS.is_space a = false)
  ∧ JS.includes ","%char s = false
  ∧ JS.includes "="%char s = false
  ∧ last_not_space s = true.
Proof.
  unfold Challenge.token. intros [Hne Hall]%andb_prop.
  assert (∀ t, all_chars Challenge.token_char t = true →
               JS.includes ","%char t = false ∧ JS.includes "="%char t = false
               ∧ (t ≠ "" → last_not_space t = true)) as Hchars.
  { induction t as [|a t IH]; [by repeat split|]. simpl.
    intros [Ha Ht]%andb_prop. destruct (IH Ht) as (H1 & H2 & H3).
    unfold Challenge.token_char in Ha.
    apply andb_prop in Ha as [Ha _]. apply andb_prop in Ha as [Ha Heq].
    apply andb_prop in Ha as [Hsp Hco].
    apply negb_true_iff in Hsp, Hco, Heq. rewrite Hco, Heq.
    repeat split; try assumption.
    intros _. destruct t as [|b t']; [by rewrite Hsp|]. by apply H3. }
  destruct (Hchars s Hall) as (H1 & H2 & H3).
  destruct s as [|a s']; [discriminate|].
  split; [|by auto].
  exists a, s'. split; [reflexivity|].
  simpl in Hall. apply andb_prop in Hall as [Ha _].
  unfold Challenge.token_char in Ha.
  repeat (apply andb_prop in Ha as [Ha _]). by apply negb_true_iff in Ha.
Qed.

Lemma includes_written (c : ascii) (p : Challenge.Param) :
  Ascii.eqb dquote c = false →
  JS.includes c (Challenge.value p) = false →
  JS.includes c (Challenge.written p) = false.
Proof.
  intros Hq Hv. unfold Challenge.written, Digest.quoted.
  destruct (Challenge.in_quotes p); [|exact Hv].
  rewrite app_cons_s. cbn [JS.includes]. rewrite Hq, includes_app, Hv.
  cbn [JS.includes orb]. by rewrite Hq.
Qed.

Lemma remove_all_written (p : Challenge.Param) :
  JS.includes dquote (Challenge.value p) = false →
  JS.remove_all dquote (Challenge.written p) = Challenge.value p.
Proof.
  intros Hv. unfold Challenge.written.
  destruct (Challenge.in_quotes p);
    [by apply remove_all_quoted|by apply remove_all_without].
Qed.

Lemma last_not_space_written (p : Challenge.Param) :
  (Challenge.in_quotes p = false → Challenge.token (Challenge.value p) = true) →
  Challenge.written p ≠ "" ∧ last_not_space (Challenge.written p) = true.
Proof.
  intros Hv. unfold Challenge.written, Digest.quoted.
  destruct (Challenge.in_quotes p).
  - split; [rewrite app_cons_s; discriminate|].
    change (String dquote (Challenge.value p) +:+ String dquote "")
      with ((String dquote (Challenge.value p)) +:+ String dquote "").
    by rewrite last_not_space_app.
  - destruct (token_shape _ (Hv eq_refl)) as ((a & s' & -> & _) & _ & _ & Hl).
    by split.
Qed.

(** A parameter as it is written is a field the split returns as it
    stands. *)
Lemma tight_field (k : string) (p : Challenge.Param) :
  (∃ a k', k = String a k' ∧ JS.is_space a = false) →
  JS.includes ","%char k = false →
  JS.includes ","%char (Challenge.value p) = false →
  (Challenge.in_quotes p = false → Challenge.token (Challenge.value p) = true) →
  tight (field k (Challenge.written p) None) = true.
Proof.
  intros (a & k' & -> & Ha) Hk Hv Ht.
  destruct (last_not_space_written p Ht) as [Hne Hl].
  pose proof (includes_written ","%char p eq_refl Hv) as Hw.
  unfold tight, field. rewrite app_nil_r_s.
  assert (JS.includes ","%char (String a k' +:+ "=" +:+ Challenge.written p) = false)
    as ->.
  { rewrite !includes_app, Hk, Hw. reflexivity. }
  assert (last_not_space (String a k' +:+ "=" +:+ Challenge.written p) = true) as ->.
  { rewrite last_not_space_app.
    - by rewrite last_not_space_app.
    - change ("=" +:+ Challenge.written p) with (String "="%char (Challenge.written p)).
      discriminate. }
  rewrite app_cons_s, Ha. reflexivity.
Qed.

Lemma tight_param (p : Challenge.Param) :
  Challenge.token (Challenge.key p) = true →
  JS.includes ","%char (Challenge.value p) = false →
  (Challenge.in_quotes p = false → Challenge.token (Challenge.value p) = true) →
  tight (Challenge.param_text p) = true.
Proof.
  intros Hk Hv Ht. destruct (token_shape _ Hk) as (Hs & Hc & _ & _).
  by apply tight_field.
Qed.

Lemma text_fields (c : Challenge.t) :
  Challenge.text c
  = spaced_fields
      (field ("Digest " +:+ Challenge.key (Challenge.first c))
             (Challenge.written (Challenge.first c)) None)
      (map (fun x => (x.1.1, x.1.2, Challenge.param_text x.2)) (Challenge.rest c)).
Proof.
  unfold Challenge.text, Challenge.param_text.
  assert ("Digest " +:+ field (Challenge.key (Challenge.first c))
                            (Challenge.written (Challenge.first c)) None
          = field ("Digest " +:+ Challenge.key (Challenge.first c))
                  (Challenge.written (Challenge.first c)) None) as <-
    by (unfold field; by rewrite app_assoc_s).
  destruct (map _ (Challenge.rest c)) as [|[[b a] p] l]; [reflexivity|].
  simpl. by rewrite app_assoc_s.
Qed.

(** On a well-formed challenge in the layout of the cameras the handler
    reads the realm and the nonce the challenge gives. *)
Lemma parse_challenge_by_name (c : Challenge.t) (realm nonce : string) :
  Challenge.well_formed c → Challenge.camera_layout c →
  Challenge.lookup "realm" c = Some realm →
  Challenge.lookup "nonce" c = Some nonce →
  Digest.parse_challenge (Challenge.text c) = inr (realm, nonce).
Proof.
  intros (Hnd & Hall & Hpad) (Hk0 & Hv0 & (x1 & x2 & more & Hrest & Hk2 & Hv2) & Hcom)
         Hrealm Hnonce.
  destruct c as [p0 rest]. simpl in *. subst rest.
  destruct x1 as [[b1 a1] p1], x2 as [[b2 a2] p2]. simpl in *.
  unfold Challenge.params in *. simpl in *.
  apply Forall_cons in Hall as [(Ht0 & Hq0 & Hu0) Hall].
  apply Forall_cons in Hall as [(Ht1 & Hq1 & Hu1) Hall].
  apply Forall_cons in Hall as [(Ht2 & Hq2 & Hu2) Hall].
  apply Forall_cons in Hcom as [Hc0 Hcom].
  apply Forall_cons in Hcom as [Hc1 Hcom].
  apply Forall_cons in Hcom as [Hc2 Hcom].
  apply Forall_cons in Hpad as [[Hb1 Ha1] Hpad].
  apply Forall_cons in Hpad as [[Hb2 Ha2] Hpad].
  simpl in *.
  (* what the challenge gives *)
  assert (realm = Challenge.value p0) as ->.
  { unfold Challenge.lookup, Challenge.params in Hrealm. simpl in Hrealm.
    rewrite Hk0 in Hrealm. simpl in Hrealm. congruence. }
  assert (nonce = Challenge.value p2) as ->.
  { unfold Challenge.lookup, Challenge.params in Hnonce. simpl in Hnonce.
    rewrite Hk0, Hk2 in Hnonce. simpl in Hnonce.
    destruct (String.eqb_spec (Challenge.key p1) "nonce") as [E|_].
    - exfalso. apply NoDup_cons in Hnd as [_ Hnd].
      apply NoDup_cons in Hnd as [Hnot _]. apply Hnot.
      rewrite E, <- Hk2. apply list_elem_of_here.
    - simpl in Hnonce. congruence. }
  (* what the handler reads *)
  rewrite text_fields. cbn [Challenge.first Challenge.rest map fst snd].
  change (Challenge.param_text p2)
    with (field (Challenge.key p2) (Challenge.written p2) None).
  rewrite (parse_challenge_fields _ _ _ _ None None).
  - by rewrite !remove_all_written.
  - rewrite Hk0. reflexivity.
  - by apply includes_written.
  - rewrite Hk2. reflexivity.
  - by apply includes_written.
  - apply tight_field; try assumption.
    + eexists _, _. split; [reflexivity|reflexivity].
    + rewrite Hk0. reflexivity.
  - constructor; [split; [exact Hb1|split; [exact Ha1|by apply tight_param]]|].
    constructor; [split; [exact Hb2|split; [exact Ha2|by apply tight_param]]|].
    clear - Hall Hcom Hpad.
    induction more as [|[[b a] p] more IH]; [constructor|].
    apply Forall_cons in Hall as [(Ht & Hq & Hu) Hall].
    apply Forall_cons in Hcom as [Hc Hcom].
    apply Forall_cons in Hpad as [[Hb Ha] Hpad].
    simpl in *. constructor; [|by apply IH].
    split; [exact Hb|]. split; [exact Ha|]. by apply tight_param.
Qed.

Lemma answerable_carries (err : AxiosError) (www : string) (c : string * string) :
  carries err www → Digest.parse_challenge www = inr c → answerable err = Some c.
Proof.
  intros (r & Hr & Hs & Hw) Hp. exact (answerable_intro err r www c Hr Hs Hw Hp).
Qed.

Lemma stored_authorization (this : DahuaEvents) (cfg : AxiosRequestConfig)
    (user pass : string) (count : N) (err : AxiosError) (random : list Z)
    (w : World) (realm nonce : string) :
  answerable err = Some (realm, nonce) →
  auth cfg = Some {| username := user; password := pass |} →
  read_headers (HEADERS this) (on_rejected this cfg count err random w)
    !! "authorization"
  = Some (Digest.authorization user pass (eventsWatchUri this) realm nonce
            (Digest.nonceCount (count + 1)) (Hex.of_bytes random)).
Proof.
  intros Ha Hauth.
  rewrite (on_rejected_answered this cfg count err random w realm nonce Ha).
  unfold connect.
  rewrite read_headers_axios_request, read_headers_emit, read_write_header.
  rewrite lookup_insert_eq. unfold digest_value, template_username, template_password.
  by rewrite Hauth.
Qed.


Lemma scenario_well_formed :
  Challenge.well_formed Challenges.scenario
  ∧ Challenge.well_formed Challenges.base64_nonce
  ∧ Challenge.well_formed Challenges.two_fields.
Proof.
  split; [|split]; unfold Challenge.well_formed;
    (split; [apply (bool_decide_unpack _); vm_compute; exact I|]);
    (split; [repeat (constructor; [by repeat split|]); constructor|]);
    repeat (constructor; [by split|]); constructor.
Qed.



(** ** The failures that are answered *)

Lemma split_not_nil (c : ascii) (s : string) : JS.split c s ≠ [].
Proof.
  destruct s as [|a s]; [discriminate|]. simpl.
  destruct (Ascii.eqb a c); [discriminate|]. by destruct (JS.split c s).
Qed.

(** A field has a second [=]-separated piece exactly when it holds the
    character. *)
Lemma second_piece (f : string) :
  if JS.includes "="%char f
  then ∃ v, JS.index (JS.split "="%char f) 1 = Some v
  else JS.index (JS.split "="%char f) 1 = None.
Proof.
  destruct (JS.includes "="%char f) eqn:Hf;
    [|by rewrite (split_without _ _ Hf)].
  induction f as [|a f IH]; [discriminate|]. simpl in Hf |- *.
  destruct (Ascii.eqb a "="%char).
  - destruct (JS.split "="%char f) as [|h t] eqn:E;
      [by apply split_not_nil in E|]. by exists h.
  - destruct (IH Hf) as [v Hv].
    destruct (JS.split "="%char f) as [|h t]; [discriminate|]. by exists v.
Qed.

(** The white space the split swallows holds no [=]: a field of the
    split holds the character exactly when the text between its commas
    does. *)
Lemma split_commas_go_equals (s : string) : ∀ (cur ws : string) (after : bool),
  JS.includes "="%char ws = false →
  map (JS.includes "="%char) (JS.split_commas_go s cur ws after)
  = match JS.split ","%char s with
    | h :: t => (JS.includes "="%char cur || JS.includes "="%char h)
                  :: map (JS.includes "="%char) t
    | [] => []
    end.
Proof.
  induction s as [|a s IH]; intros cur ws after Hws.
  - simpl. by rewrite includes_app, Hws.
  - simpl.
    destruct (Ascii.eqb_spec a ","%char) as [->|Hne].
    + simpl. rewrite orb_false_r. f_equal.
      rewrite (IH "" "" true eq_refl).
      destruct (JS.split ","%char s) as [|h t] eqn:E;
        [by apply split_not_nil in E|reflexivity].
    + assert (JS.split ","%char s ≠ []) as Hs by apply split_not_nil.
      destruct (JS.is_space a) eqn:Hsp.
      * assert (Ascii.eqb a "="%char = false) as Heq.
        { destruct (Ascii.eqb_spec a "="%char) as [->|]; [discriminate|reflexivity]. }
        assert (map (JS.includes "="%char)
                    (if after then JS.split_commas_go s cur ws true
                     else JS.split_commas_go s cur (ws +:+ String a "") false)
                = match JS.split ","%char s with
                  | h :: t => (JS.includes "="%char cur || JS.includes "="%char h)
                                :: map (JS.includes "="%char) t
                  | [] => []
                  end) as ->.
        { destruct after; apply IH; [exact Hws|].
          rewrite includes_app, Hws. simpl. by rewrite Heq. }
        destruct (JS.split ","%char s) as [|h t]; [done|].
        simpl. by rewrite Heq.
      * rewrite (IH _ "" false eq_refl).
        destruct (JS.split ","%char s) as [|h t]; [done|]. simpl.
        rewrite !includes_app, Hws. simpl.
        destruct (Ascii.eqb a "="%char);
          by rewrite ?orb_true_r, ?orb_false_r.
Qed.

(** The handler reaches the end of its [try] block exactly on the
    readable headers. *)
Lemma parse_challenge_readable (www : string) :
  if readable www
  then ∃ c, Digest.parse_challenge www = inr c
  else ∃ e, Digest.parse_challenge www = inl e.
Proof.
  unfold readable, Digest.parse_challenge, JS.split_commas.
  pose proof (split_commas_go_equals www "" "" false eq_refl) as Hmap.
  destruct (JS.split ","%char www) as [|m0 ms] eqn:E;
    [by apply split_not_nil in E|clear E].
  destruct ms as [|m1 [|m2 ms]];
    destruct (JS.split_commas_go www "" "" false) as [|l0 [|l1 [|l2 ls]]];
    try discriminate; simpl in Hmap; injection Hmap as H0;
    cbn [map JS.index lookup list_lookup]; cbv beta iota.
  - destruct (JS.index (JS.split "="%char l0) 1); eauto.
  - destruct (JS.index (JS.split "="%char l0) 1); eauto.
  - pose proof (second_piece l0) as S0. pose proof (second_piece l2) as S2.
    rewrite <- H0, <- H1.
    destruct (JS.includes "="%char l0); cbn [andb];
      [destruct S0 as [v ->]|rewrite S0; eauto].
    destruct (JS.includes "="%char l2); [destruct S2 as [v2 ->]|rewrite S2]; eauto.
Qed.

Lemma answerable_challenged (err : AxiosError) :
  answerable err
  = match challenged err with
    | Some www =>
        match Digest.parse_challenge www with
        | inr c => Some c
        | inl _ => None
        end
    | None => None
    end.
Proof.
  unfold answerable, challenged.
  destruct (response err) as [r|]; [|reflexivity].
  destruct (status r =? 401)%N; [|reflexivity].
  by destruct (www_authenticate r).
Qed.

(** C2.  A rejected request is handled in one of two ways, and the header
    alone decides between them, by its form.  When the failure is an HTTP
    401 with a non-empty [www-authenticate] header that has at least
    three comma-separated fields of which the first and the third hold an
    equals sign, the handler reads a realm and a nonce at these two
    places, stores the digest header for them in the shared headers
    object, and the same configuration is requested again at once with
    the counter advanced by one; the only signal is one trace: no error,
    no reconnecting signal, no timer.  Every other failure (another
    status, no header, a header with fewer fields or without the equals
    signs, no response, no request) emits exactly one error signal, then
    the reconnecting signal, and sets one timer due 10000 ms later;
    nothing is requested at once. *)
Theorem failure_handling (this : DahuaEvents) (w : World) (i : nat) (r : Request)
    (err : AxiosError) (random : list Z) :
  inflight w !! i = Some r →
  ∃ w', step this w (Rejected i err random) = Some w'
        ∧ match challenged err with
          | Some www =>
              if readable www
              then ∃ realm nonce,
                     Digest.parse_challenge www = inr (realm, nonce)
                     ∧ retried_at_once this w i r realm nonce random w'
              else reported_and_delayed this w i r w'
          | None => reported_and_delayed this w i r w'
          end.
Proof.
  intros Hr. pose proof (answerable_challenged err) as Ha.
  destruct (challenged err) as [www|].
  - pose proof (parse_challenge_readable www) as Hp.
    destruct (readable www).
    + destruct Hp as [[realm nonce] Hp]. rewrite Hp in Ha.
      destruct (step_rejected_answered this w i r err random realm nonce Hr Ha)
        as (w' & Hstep & Hre).
      exists w'. split; [exact Hstep|]. by exists realm, nonce.
    + destruct Hp as [e Hp]. rewrite Hp in Ha.
      exact (step_rejected_other this w i r err random Hr Ha).
  - exact (step_rejected_other this w i r err random Hr Ha).
Qed.

Lemma failure_handling_witness :
  inflight Scenario.w0 !! 0 = Some Scenario.first_request
  ∧ challenged Scenario.unauthorized = Some Scenario.challenge
  ∧ readable Scenario.challenge = true
  ∧ ∃ w', step Scenario.this Scenario.w0
            (Rejected 0 Scenario.unauthorized Scenario.random) = Some w'
          ∧ ∃ realm nonce,
              Digest.parse_challenge Scenario.challenge = inr (realm, nonce)
              ∧ retried_at_once Scenario.this Scenario.w0 0 Scenario.first_request
                  realm nonce Scenario.random w'.
Proof.
  assert (inflight Scenario.w0 !! 0 = Some Scenario.first_request) as H0
    by (vm_compute; reflexivity).
  split; [exact H0|]. split; [vm_compute; reflexivity|].
  split; [vm_compute; reflexivity|].
  exact (failure_handling Scenario.this Scenario.w0 0 Scenario.first_request
           Scenario.unauthorized Scenario.random H0).
Defined.

(** The classes of the specification are not those of the handler.  The
    header [Digest realm="Login to X",nonce="abc123"] is a well-formed
    challenge that gives a realm and a nonce, yet it has two fields only:
    the failure is reported and followed by the delay.  The header
    [Basic realm="cam", charset="UTF-8", foo=bar] is no Digest challenge
    and names no nonce, yet it is answered at once, with [bar] for
    nonce. *)
Lemma classes_by_name_fail :
  gives_realm_and_nonce
    (Challenges.unauthorized_with (Challenge.text Challenges.two_fields))
    "Login to X" "abc123"
  ∧ (∃ w', step Scenario.this Scenario.w0
             (Rejected 0
                (Challenges.unauthorized_with (Challenge.text Challenges.two_fields))
                Scenario.random) = Some w'
           ∧ reported_and_delayed Scenario.this Scenario.w0 0 Scenario.first_request w')
  ∧ (∀ realm nonce,
       ¬ gives_realm_and_nonce (Challenges.unauthorized_with Challenges.basic)
           realm nonce)
  ∧ (∃ w', step Scenario.this Scenario.w0
             (Rejected 0 (Challenges.unauthorized_with Challenges.basic)
                Scenario.random) = Some w'
           ∧ retried_at_once Scenario.this Scenario.w0 0 Scenario.first_request
               "cam" "bar" Scenario.random w')
  ∧ ¬ classes_by_name Scenario.this.
Proof.
  assert (inflight Scenario.w0 !! 0 = Some Scenario.first_request) as H0
    by (vm_compute; reflexivity).
  assert (gives_realm_and_nonce
            (Challenges.unauthorized_with (Challenge.text Challenges.two_fields))
            "Login to X" "abc123") as Hgives.
  { exists Challenges.two_fields.
    split; [exact (proj2 (proj2 scenario_well_formed))|].
    split; [|by split].
    eexists. split; [reflexivity|]. split; [reflexivity|]. vm_compute. reflexivity. }
  assert (∃ w', step Scenario.this Scenario.w0
                  (Rejected 0
                     (Challenges.unauthorized_with
                        (Challenge.text Challenges.two_fields))
                     Scenario.random) = Some w'
                ∧ reported_and_delayed Scenario.this Scenario.w0 0
                    Scenario.first_request w') as Hdelayed.
  { apply step_rejected_other; [exact H0|]. vm_compute. reflexivity. }
  split; [exact Hgives|]. split; [exact Hdelayed|]. split; [|split].
  - intros realm nonce (c & _ & (r & Hr & _ & Hw) & _).
    simpl in Hr. injection Hr as <-. vm_compute in Hw. discriminate.
  - apply step_rejected_answered; [exact H0|]. vm_compute. reflexivity.
  - intros Hspec. destruct Hdelayed as (w' & Hstep & _ & _ & Hsent & _).
    destruct (Hspec _ _ _ _ _ _ H0 Hstep) as [Hanswered _].
    destruct (Hanswered _ _ Hgives) as (_ & _ & Hsent' & _).
    rewrite Hsent in Hsent'. apply (f_equal length) in Hsent'.
    rewrite length_app in Hsent'. simpl in Hsent'. lia.
Qed.
